(** * zquantum.core.circuit: a shallow embedding of [_circuit.py]

  The development follows the layout of
  [src/python/zquantum/core/circuit/_circuit.py].  The definitions come
  first:

  - [Py]                 exceptions and the result type shared by all
                         modules;
  - [Cirq]               cirq qubits and operations,
                         [cirq2pyquil.add_to_program] and the
                         [qubit_in_list] closure of [Circuit.from_cirq];
  - [Sympy], [Qubit], [Gate]  the data model;
  - [Pyquil]             pyquil programs, [add_gate_to_pyquil_program]
                         and [Circuit.to_pyquil];
  - [Circuit]            the [Circuit] class: [__eq__], [__add__],
                         [to_dict], [from_dict];
  - [Evaluate]           [Circuit.evaluate] over a store of Python
                         objects;
  - [Importers]          [Circuit.from_pyquil] and [Circuit.from_qiskit];
  - [SymbolicExpressions]  the expression-tree builder exercised by
                         [symbolic_expressions_test.py];
  - [CircuitProperties]  [n_multiqubit_gates] and [symbolic_params];
  - [FromCirq]           [Circuit.from_cirq];
  - [AncillaRegister]    [add_ancilla_register_to_circuit];
  - [ToQiskit], [ToQpic] [Circuit.to_qiskit] and [Circuit.to_qpic];
  - [WipGates]           [_n_qubits_for_matrix] of [wip/circuit/_gates.py];
  - [Cirq2Pyquil], [Pyquil2Cirq]  the qubit map of [cirq2pyquil], and
                         [pyquil2cirq].

  The results follow, one module of results for each module of
  definitions, and last the results at concrete circuits.

  Python integers are [Z] (qubit coordinates) or [nat] (qubit indices),
  strings are [string], dictionaries with string keys are [gmap string _],
  Python sets are [gset].  The floating point literals [0.5] and [-0.5]
  used as gate exponents are exact dyadic rationals and are kept in [Q]. *)

From Stdlib Require Import ZArith QArith.
From stdpp Require Import gmap strings list pretty sorting.

Set Warnings "-register-all".

Local Close Scope Q_scope.
Local Open Scope Z_scope.

(* ===================================================================== *)
(** * Python results *)
(* ===================================================================== *)

Module Py.

(** The exceptions raised by the modelled code. *)
Inductive exn : Type :=
| TypeError (msg : string)
| ValueError (msg : string)
| AttributeError (msg : string)
| IndexError (msg : string)
| KeyError (msg : string)
| UnboundLocalError (msg : string).

(** A computation that returns or raises. *)
Inductive result (A : Type) : Type :=
| Ok (a : A)
| Raise (e : exn).
Arguments Ok {A} a.
Arguments Raise {A} e.

Definition bind {A B} (r : result A) (k : A → result B) : result B :=
  match r with
  | Ok a => k a
  | Raise e => Raise e
  end.

Definition is_ok {A} (r : result A) : bool :=
  match r with Ok _ => true | Raise _ => false end.

(** [mapM f l] runs [f] on the elements of [l] from left to right and
    stops at the first exception, as a Python [for] loop does. *)
Fixpoint mapM {A B} (f : A → result B) (l : list A) : result (list B) :=
  match l with
  | [] => Ok []
  | x :: l' =>
      bind (f x) (fun y => bind (mapM f l') (fun ys => Ok (y :: ys)))
  end.

(** [result] is a monad in the sense of stdpp, which gives the notation
    [x ← c; k]. *)
#[global] Instance result_ret : MRet result := fun A a => Ok a.
#[global] Instance result_bind : MBind result := fun A B k r => bind r k.

End Py.

(* ===================================================================== *)
(** * cirq objects, [cirq2pyquil] and [from_cirq.qubit_in_list] *)
(* ===================================================================== *)

Module Cirq.
Import Py.

(** ** Qubits

    [cirq.GridQubit(row, col)] has attributes [row] and [col];
    [cirq.LineQubit(x)] has the attribute [x].  Reading an attribute an
    object does not have raises [AttributeError]. *)
Inductive Qid : Type :=
| GridQubit (row col : Z)
| LineQubit (x : Z).

Definition is_GridQubit (q : Qid) : bool :=
  match q with GridQubit _ _ => true | LineQubit _ => false end.

Definition is_LineQubit (q : Qid) : bool :=
  match q with LineQubit _ => true | GridQubit _ _ => false end.

Definition attr_row (q : Qid) : result Z :=
  match q with
  | GridQubit r _ => Ok r
  | LineQubit _ => Raise (AttributeError "row")
  end.

Definition attr_col (q : Qid) : result Z :=
  match q with
  | GridQubit _ c => Ok c
  | LineQubit _ => Raise (AttributeError "col")
  end.

Definition attr_x (q : Qid) : result Z :=
  match q with
  | LineQubit x => Ok x
  | GridQubit _ _ => Raise (AttributeError "x")
  end.

(** ** [qubit_in_list] of [Circuit.from_cirq]

    The closure returns the pair [(output, out_index)]; [out_index] starts
    as the empty list and becomes the key of the matching qubit. *)
Inductive out_index : Type :=
| NoIndex
| GridKey (row col : Z)
| LineKey (x : Z).

Definition kind_mismatch : exn :=
  TypeError "(Cirq) Qubit and Qubit list elements not of the same kind.".

(** The loop body follows the source line by line; note that the second
    test reads [isinstance(qubit, cirq.LineQubit)] twice and never looks
    at the kind of [q]. *)
Fixpoint qubit_in_list (qubit : Qid) (qubitlist : list Qid)
  : result (bool * out_index) :=
  match qubitlist with
  | [] => Ok (false, NoIndex)
  | q :: rest =>
      if is_GridQubit qubit && is_GridQubit q then
        r1 ← attr_row qubit; r2 ← attr_row q;
        c1 ← attr_col qubit; c2 ← attr_col q;
        if (r1 =? r2) && (c1 =? c2) then Ok (true, GridKey r2 c2)
        else qubit_in_list qubit rest
      else if is_LineQubit qubit && is_LineQubit qubit then
        x1 ← attr_x qubit; x2 ← attr_x q;
        if x1 =? x2 then Ok (true, LineKey x2)
        else qubit_in_list qubit rest
      else Raise kind_mismatch
  end.

(** ** Operations

    A cirq operation is a gate applied to qubits.  Only the gate classes
    [add_to_program] distinguishes are kept; a gate carries its exponent,
    and [ZPowGate] its global shift ([cirq.rz] builds a shifted gate). *)
Inductive Gate : Type :=
| XPowGate (exponent : Q)
| YPowGate (exponent : Q)
| ZPowGate (exponent : Q) (global_shift : Q)
| CZPowGate (exponent : Q)
| HPowGate (exponent : Q)
| CNotPowGate (exponent : Q)
| SwapPowGate (exponent : Q)
| PhasedXPowGate (phase_exponent exponent : Q)
| XXPowGate (exponent : Q)
| YYPowGate (exponent : Q)
| ZZPowGate (exponent : Q)
| OtherGate (repr : string).

Record Operation : Type := mkOp { gate : Gate; qubits : list Qid }.

(** The constructors used in the decomposition lists. *)
Definition cirq_H (q : Qid) : Operation := mkOp (HPowGate 1) [q].
Definition cirq_Z (q : Qid) : Operation := mkOp (ZPowGate 1 0) [q].
Definition cirq_CNOT (q1 q2 : Qid) : Operation :=
  mkOp (CNotPowGate 1) [q1; q2].

(** [op ** e] multiplies the exponent of the gate. *)
Definition gate_pow (g : Gate) (e : Q) : Gate :=
  match g with
  | XPowGate x => XPowGate (x * e)
  | YPowGate x => YPowGate (x * e)
  | ZPowGate x s => ZPowGate (x * e) s
  | CZPowGate x => CZPowGate (x * e)
  | HPowGate x => HPowGate (x * e)
  | CNotPowGate x => CNotPowGate (x * e)
  | SwapPowGate x => SwapPowGate (x * e)
  | PhasedXPowGate p x => PhasedXPowGate p (x * e)
  | XXPowGate x => XXPowGate (x * e)
  | YYPowGate x => YYPowGate (x * e)
  | ZZPowGate x => ZZPowGate (x * e)
  | OtherGate r => OtherGate r
  end%Q.

Definition pow (op : Operation) (e : Q) : Operation :=
  mkOp (gate_pow (gate op) e) (qubits op).

(** Angles are kept as multiples of [pi]: [times_pi e] is [e * pi].
    [cirq.rz(rads)] is the Z rotation of exponent [rads / pi], shifted by
    [-0.5]. *)
Record Angle : Type := times_pi { over_pi : Q }.

Definition cirq_rz (rads : Angle) (q : Qid) : Operation :=
  mkOp (ZPowGate (over_pi rads) (-1 # 2)) [q].

(** The gates found by [op_repr_map] (through [repr]) or by [op_type_map]
    (through the class).  The classes of [op_type_map] match at every
    exponent; [cirq.H], [cirq.CNOT] and [cirq.SWAP] are printed under
    these names, and so found in [op_repr_map], at exponent 1 only. *)
Definition in_op_maps (g : Gate) : bool :=
  match g with
  | XPowGate _ | YPowGate _ | ZPowGate _ _ | CZPowGate _ => true
  | HPowGate e | CNotPowGate e | SwapPowGate e => Qeq_bool e 1
  | _ => false
  end.

Definition unpack2 (qs : list Qid) : result (Qid * Qid) :=
  match qs with
  | [q1; q2] => Ok (q1, q2)
  | _ => Raise (ValueError "unpack")
  end.

(** The three decomposition lists ([ops = [...]] in the source). *)
Definition xx_ops (exponent : Q) (q1 q2 : Qid) : list Operation :=
  [ cirq_H q1; cirq_H q2;
    cirq_CNOT q1 q2; cirq_rz (times_pi exponent) q2; cirq_CNOT q1 q2;
    cirq_H q1; cirq_H q2 ].

Definition yy_ops (exponent : Q) (q1 q2 : Qid) : list Operation :=
  [ pow (cirq_Z q1) (1 # 2); pow (cirq_Z q2) (1 # 2);
    cirq_H q1; cirq_H q2;
    cirq_CNOT q1 q2; cirq_rz (times_pi exponent) q2; cirq_CNOT q1 q2;
    cirq_H q1; cirq_H q2;
    pow (cirq_Z q1) (-1 # 2); pow (cirq_Z q2) (-1 # 2) ].

Definition zz_ops (exponent : Q) (q1 q2 : Qid) : list Operation :=
  [ cirq_CNOT q1 q2; cirq_rz (times_pi exponent) q2; cirq_CNOT q1 q2 ].

Section AddToProgram.

(** [cirq.decompose] belongs to cirq. *)
Variable decompose : Operation → list Operation.

(** [add_to_program op] appends to [qprog]; the model returns what is
    appended: the operations that reach one of the two tables, in the
    order they are added.  The recursion of the source is on the
    decomposition lists, hence the fuel; [None] means out of fuel. *)
Fixpoint add_to_program (fuel : nat) (op : Operation)
  : option (result (list Operation)) :=
  match fuel with
  | O => None
  | S fuel' =>
      let add_all :=
        fix add_all (ops : list Operation)
          : option (result (list Operation)) :=
          match ops with
          | [] => Some (Ok [])
          | o :: ops' =>
              match add_to_program fuel' o with
              | None => None
              | Some (Raise e) => Some (Raise e)
              | Some (Ok l1) =>
                  match add_all ops' with
                  | None => None
                  | Some (Raise e) => Some (Raise e)
                  | Some (Ok l2) => Some (Ok (l1 ++ l2))
                  end
              end
          end in
      if in_op_maps (gate op) then Some (Ok [op]) else
      match gate op with
      | PhasedXPowGate _ _ | HPowGate _ => add_all (decompose op)
      | XXPowGate e =>
          match unpack2 (qubits op) with
          | Ok (q1, q2) => add_all (xx_ops e q1 q2)
          | Raise x => Some (Raise x)
          end
      | YYPowGate e =>
          match unpack2 (qubits op) with
          | Ok (q1, q2) => add_all (yy_ops e q1 q2)
          | Raise x => Some (Raise x)
          end
      | ZZPowGate e =>
          match unpack2 (qubits op) with
          | Ok (q1, q2) => add_all (zz_ops e q1 q2)
          | Raise x => Some (Raise x)
          end
      | _ => Some (Raise (ValueError "Gate not yet supported"))
      end
  end.

End AddToProgram.

(** The sequence the specification gives for [YY]: the inverse phase gates
    first, the phase gates last. *)
Definition yy_spec_sequence (exponent : Q) (q1 q2 : Qid) : list Operation :=
  [ pow (cirq_Z q1) (-1 # 2); pow (cirq_Z q2) (-1 # 2);
    cirq_H q1; cirq_H q2;
    cirq_CNOT q1 q2; cirq_rz (times_pi exponent) q2; cirq_CNOT q1 q2;
    cirq_H q1; cirq_H q2;
    pow (cirq_Z q1) (1 # 2); pow (cirq_Z q2) (1 # 2) ].

End Cirq.

(* ===================================================================== *)
(** * The data model: sympy expressions, qubits and gates *)
(* ===================================================================== *)

(** ** sympy expressions

    The native expressions that occur as gate parameters and that the
    expression-tree builder reads: n-ary [Add] and [Mul], [Pow], and the
    atoms.  [Float] keeps the (rational) value of a Python float. *)
Module Sympy.

Inductive expr : Type :=
| Symbol (name : string)
| Integer (n : Z)
| Rational (p : Z) (q : positive)
| Float (v : Q)
| ImaginaryUnit
| Add (args : list expr)
| Mul (args : list expr)
| Pow (base exponent : expr).

End Sympy.

(** Values kept in the [info] dictionaries. *)
Inductive PyVal : Type :=
| VNone
| VStr (s : string)
| VInt (n : Z)
| VPair (a b : Z).

#[global] Instance PyVal_eq_dec : EqDecision PyVal.
Proof. solve_decision. Defined.

(** ** [Qubit]

    [_qubit.py] is not among the sources; [_circuit.py] reads the
    attributes [index] and [info] of a qubit. *)
Module Qubit.

Record t : Type := mk { index : nat; info : gmap string PyVal }.

End Qubit.

(** ** [Gate]

    [_gate.py] is not among the sources; [_circuit.py] reads the attributes
    [name], [qubits] and [params] of a gate.  A parameter is a number or a
    sympy expression. *)
Module Gate.

Inductive param : Type :=
| Number (v : Q)
| Expr (e : Sympy.expr).

Definition is_number (p : param) : bool :=
  match p with Number _ => true | Expr _ => false end.

Record t : Type := mk {
  name : string;
  qubits : list Qubit.t;
  params : list param
}.

End Gate.

(* ===================================================================== *)
(** * pyquil programs and [add_gate_to_pyquil_program] *)
(* ===================================================================== *)

Module Pyquil.
Import Py.

(** [pyquil.quilbase.DefGate(name, matrix, parameters)].  The entries of
    the matrix play no part in what follows; a definition records the name
    of the variable that holds its matrix. *)
Record DefGate : Type := mkDefGate {
  dg_name : string;
  dg_matrix : string;
  dg_parameters : list string
}.

Inductive Instr : Type :=
| GateInstr (name : string) (params : list Gate.param) (qubits : list nat)
| DECLARE (name : string) (memory_type : string) (memory_size : nat)
| Measurement (qubit : nat) (classical_reg : string * nat).

(** A [pyquil.Program]: the gate definitions ([defined_gates]) and the
    instructions. *)
Record Program : Type := mkProgram {
  defined_gates : list DefGate;
  instructions : list Instr
}.

Definition Program_new : Program := mkProgram [] [].

(** [program + other] is a new program.  Adding a [DefGate] appends it to
    the definitions (pyquil warns when the name is already defined and
    appends all the same); adding an instruction appends it to the
    instructions; adding a program appends both. *)
Definition add_defgate (p : Program) (d : DefGate) : Program :=
  mkProgram (defined_gates p ++ [d]) (instructions p).

Definition add_instr (p : Program) (i : Instr) : Program :=
  mkProgram (defined_gates p) (instructions p ++ [i]).

Definition add_program (p q : Program) : Program :=
  mkProgram (defined_gates p ++ defined_gates q)
            (instructions p ++ instructions q).

(** [program + x] where [program] may be [None]. *)
Definition no_plus {A} : result A :=
  Raise (TypeError "unsupported operand type(s) for +").

Definition plus_defgate (p : option Program) (d : DefGate)
  : result Program :=
  match p with Some p => Ok (add_defgate p d) | None => no_plus end.

Definition plus_instr (p : option Program) (i : Instr) : result Program :=
  match p with Some p => Ok (add_instr p i) | None => no_plus end.

Definition plus_program (p : option Program) (q : Program)
  : result Program :=
  match p with Some p => Ok (add_program p q) | None => no_plus end.

(** [program.defined_gates] and [program.declare(name, type, size)]; the
    latter adds the declaration to [program] itself. *)
Definition attr_defined_gates (p : option Program) : result (list DefGate) :=
  match p with
  | Some p => Ok (defined_gates p)
  | None => Raise (AttributeError "defined_gates")
  end.

Definition declare (p : option Program) (name type : string) (size : nat)
  : result Program :=
  match p with
  | Some p => Ok (add_instr p (DECLARE name type size))
  | None => Raise (AttributeError "declare")
  end.

(** [l[i]] on a Python list. *)
Definition item {A} (l : list A) (i : nat) : result A :=
  match l !! i with
  | Some x => Ok x
  | None => Raise (IndexError "list index out of range")
  end.

(** [gate.qubits[i].index] *)
Definition qubit_index (gate : Gate.t) (i : nat) : result nat :=
  q ← item (Gate.qubits gate) i; Ok (Qubit.index q).

(** The loop over [pyquil_program.defined_gates] that sets
    [gate_already_defined]. *)
Definition gate_already_defined (defs : list DefGate) (name : string)
  : bool :=
  existsb (fun gate_definition => String.eqb (dg_name gate_definition) name)
          defs.

(** ["r" + str(n)]: the register of a measurement. *)
Definition reg_name (n : nat) : string := "r" +:+ pretty n.

Section AddGate.

(** [_gateset.py] and [Gate.to_pyquil] are not among the sources. *)
Variable COMMON_GATES UNIQUE_GATES : list string.
Variable Gate_to_pyquil : Gate.t → Program.

(** The function returns a program, or [None] when it reaches its end
    without a [return].  Operands are evaluated from left to right, as
    Python does. *)
Definition add_gate_to_pyquil_program (pyquil_program : option Program)
    (gate : Gate.t) : result (option Program) :=
  let name := Gate.name gate in
  if bool_decide (name ∈ COMMON_GATES) then
    p ← plus_program pyquil_program (Gate_to_pyquil gate); Ok (Some p)
  else if bool_decide (name ∈ UNIQUE_GATES) then
    if String.eqb name "ZXZ" then
      let zxz_def := mkDefGate "ZXZ" "zxz_unitary" ["beta"; "gamma"] in
      p ← plus_defgate pyquil_program zxz_def;
      p0 ← item (Gate.params gate) 0;
      p1 ← item (Gate.params gate) 1;
      q0 ← qubit_index gate 0;
      Ok (Some (add_instr p (GateInstr "ZXZ" [p0; p1] [q0])))
    else if String.eqb name "RH" then
      let rh_def := mkDefGate "RH" "rh_unitary" ["beta"] in
      p ← plus_defgate pyquil_program rh_def;
      p0 ← item (Gate.params gate) 0;
      q0 ← qubit_index gate 0;
      Ok (Some (add_instr p (GateInstr "RH" [p0] [q0])))
    else if String.eqb name "XX" then
      let xx_def := mkDefGate "XX" "xx_unitary" ["beta"] in
      p ← plus_defgate pyquil_program xx_def;
      p0 ← item (Gate.params gate) 0;
      q0 ← qubit_index gate 0;
      q1 ← qubit_index gate 1;
      Ok (Some (add_instr p (GateInstr "XX" [p0] [q0; q1])))
    else if String.eqb name "YY" then
      let yy_def := mkDefGate "YY" "yy_unitary" ["beta"] in
      p ← plus_defgate pyquil_program yy_def;
      p0 ← item (Gate.params gate) 0;
      q0 ← qubit_index gate 0;
      q1 ← qubit_index gate 1;
      Ok (Some (add_instr p (GateInstr "YY" [p0] [q0; q1])))
    else if String.eqb name "ZZ" then
      let zz_def := mkDefGate "ZZ" "zz_unitary" ["beta"] in
      p ← plus_defgate pyquil_program zz_def;
      p0 ← item (Gate.params gate) 0;
      q0 ← qubit_index gate 0;
      q1 ← qubit_index gate 1;
      Ok (Some (add_instr p (GateInstr "ZZ" [p0] [q0; q1])))
    else if String.eqb name "U1ex" then
      let u1ex_def := mkDefGate "U1ex" "unitary" ["alpha"; "beta"] in
      p0 ← item (Gate.params gate) 0;
      p1 ← item (Gate.params gate) 1;
      q0 ← qubit_index gate 0;
      q1 ← qubit_index gate 1;
      output_program ←
        plus_instr pyquil_program (GateInstr "U1ex" [p0; p1] [q0; q1]);
      defs ← attr_defined_gates pyquil_program;
      if negb (gate_already_defined defs "U1ex")
      then Ok (Some (add_defgate output_program u1ex_def))
      else Ok (Some output_program)
    else if String.eqb name "U2ex" then
      p0 ← item (Gate.params gate) 0;
      q0 ← qubit_index gate 0;
      q1 ← qubit_index gate 1;
      output_program ←
        plus_instr pyquil_program (GateInstr "U2ex" [p0] [q0; q1]);
      defs ← attr_defined_gates pyquil_program;
      (* [output_program + u1ex_def]: in this branch [u1ex_def] is a local
         variable that was never assigned *)
      if negb (gate_already_defined defs "U2ex")
      then Raise (UnboundLocalError "u1ex_def")
      else Ok (Some output_program)
    else if String.eqb name "MEASURE" then
      q0 ← qubit_index gate 0;
      declared ← declare pyquil_program (reg_name q0) "BIT" 1;
      Ok (Some (add_instr declared (Measurement q0 (reg_name q0, 0%nat))))
    else if String.eqb name "BARRIER" then
      Ok pyquil_program
    else Ok None
  else Ok None.

(** [Circuit.to_pyquil]: the loop over [self.gates], skipped when the
    attribute is [None]. *)
Fixpoint to_pyquil_loop (output : option Program) (gates : list Gate.t)
  : result (option Program) :=
  match gates with
  | [] => Ok output
  | gate :: rest =>
      output' ← add_gate_to_pyquil_program output gate;
      to_pyquil_loop output' rest
  end.

Definition to_pyquil (gates : option (list Gate.t))
  : result (option Program) :=
  match gates with
  | Some gs => to_pyquil_loop (Some Program_new) gs
  | None => Ok (Some Program_new)
  end.

End AddGate.

(** Modelled from the spec: [_gateset.py] is not among the sources; the
    two catalogs are the ones section 3 of the specification lists. *)
Definition spec_COMMON_GATES : list string :=
  ["X"; "Y"; "Z"; "H"; "S"; "T"; "CNOT"; "CZ"; "SWAP"; "RX"; "RY"; "RZ";
   "CPHASE"; "MEASURE"; "BARRIER"; "I"].

Definition spec_UNIQUE_GATES : list string :=
  ["ZXZ"; "RH"; "XX"; "YY"; "ZZ"; "U1ex"; "U2ex"].

(** How many definitions of a program carry the name [n]. *)
Definition count_defs (n : string) (p : Program) : nat :=
  length (filter (fun d => dg_name d = n) (defined_gates p)).

End Pyquil.

(* ===================================================================== *)
(** * The methods of [Gate] and [Qubit] that [Circuit] calls *)
(* ===================================================================== *)

(** [_gate.py] and [_qubit.py] are not among the sources.  The methods of
    the two classes that [_circuit.py] calls are the fields of two
    interfaces; the results on [Circuit] hold for every implementation
    and name what they need of one. *)
Class QubitMethods : Type := {
  QubitDict : Type;
  (** [Qubit(index)] *)
  Qubit_new : nat → Qubit.t;
  (** [qubit.to_dict()], [Qubit.from_dict(d)], [str(qubit)] *)
  Qubit_to_dict : Qubit.t → QubitDict;
  Qubit_from_dict : QubitDict → Qubit.t;
  Qubit_str : Qubit.t → string
}.

Class GateMethods : Type := {
  GateDict : Type;
  (** [gate.to_dict(serialize_params=b)], [Gate.from_dict(d)] *)
  Gate_to_dict : Gate.t → bool → GateDict;
  Gate_from_dict : GateDict → Gate.t;
  (** [gate == other] *)
  Gate_eq : Gate.t → Gate.t → bool;
  (** [gate.symbolic_params]: the sympy symbols of the parameters *)
  Gate_symbolic_params : Gate.t → list string;
  (** [gate.evaluate(symbols_map)] *)
  Gate_evaluate : Gate.t → list (string * Q) → Gate.t
}.

(* ===================================================================== *)
(** * [Circuit]: equality, concatenation and the dictionary form *)
(* ===================================================================== *)

Module Circuit.
Import Py.

(** The attributes of a circuit.  The class documents [gates] and [qubits]
    as lists; [from_dict] stores [None] in them when the dictionary entry
    is [None], so both are optional here. *)
Record t : Type := mk {
  name : string;
  gates : option (list Gate.t);
  qubits : option (list Qubit.t);
  info : gmap string PyVal
}.

(** [Circuit(name=...)] with no input object. *)
Definition __init__ (name : string) : t :=
  mk name (Some []) (Some []) {[ "label" := VNone ]}.

(** [len(x)] and iteration over [x] raise [TypeError] on [None]. *)
Definition the_list {A} (x : option (list A)) : result (list A) :=
  match x with
  | Some l => Ok l
  | None => Raise (TypeError "NoneType")
  end.

Definition item {A} (l : list A) (i : nat) : result A :=
  match l !! i with
  | Some x => Ok x
  | None => Raise (IndexError "list index out of range")
  end.

(** [for i in range(n): if a[i] != b[i]: return False]: whether some index
    of [range] holds different elements. *)
Fixpoint differ_at {A} (ne : A → A → bool) (a b : list A) (range : list nat)
  : result bool :=
  match range with
  | [] => Ok false
  | i :: range' =>
      x ← item a i;
      y ← item b i;
      if ne x y then Ok true else differ_at ne a b range'
  end.

(** A gate of the COMMON catalog whose parameters are all numbers. *)
Definition common_numeric (COMMON_GATES : list string) (g : Gate.t) : Prop :=
  Gate.name g ∈ COMMON_GATES
  ∧ Forall (fun p => Gate.is_number p = true) (Gate.params g).

Section Methods.
Context `{QM : QubitMethods} `{GM : GateMethods}.

(** [Circuit.__eq__] *)
Definition __eq__ (self anotherCircuit : t) : result bool :=
  if negb (String.eqb (name self) (name anotherCircuit)) then Ok false else
  qs1 ← the_list (qubits self);
  qs2 ← the_list (qubits anotherCircuit);
  if negb (length qs1 =? length qs2)%nat then Ok false else
  dq ← differ_at
         (fun q1 q2 => negb (String.eqb (Qubit_str q1) (Qubit_str q2)))
         qs1 qs2 (seq 0 (length qs1));
  if (dq : bool) then Ok false else
  gs1 ← the_list (gates self);
  gs2 ← the_list (gates anotherCircuit);
  if negb (length gs1 =? length gs2)%nat then Ok false else
  dg ← differ_at (fun g1 g2 => negb (Gate_eq g1 g2))
         gs1 gs2 (seq 0 (length gs1));
  if (dg : bool) then Ok false else
  Ok true.

(** [Circuit.__add__].  The indices are collected in a Python set, whose
    iteration order is not specified: a [gset], listed by [elements]. *)
Definition __add__ (self other_circuit : t) : result t :=
  qs1 ← the_list (qubits self);
  qs2 ← the_list (qubits other_circuit);
  let qubit_indices : gset nat :=
    list_to_set (map Qubit.index qs1 ++ map Qubit.index qs2) in
  let new_circuit := __init__ "Unnamed" in
  new_qubits ← the_list (qubits new_circuit);
  let new_qubits := new_qubits ++ map Qubit_new (elements qubit_indices) in
  gs1 ← the_list (gates self);
  gs2 ← the_list (gates other_circuit);
  Ok (mk (name new_circuit) (Some (gs1 ++ gs2)) (Some new_qubits)
         (info new_circuit)).

(** [Circuit.get_qubits] *)
Definition get_qubits (self : t) : result (list nat) :=
  qs ← the_list (qubits self); Ok (map Qubit.index qs).

(** The dictionary [to_dict] builds and [from_dict] reads. *)
Record dict : Type := mkdict {
  d_schema : string;
  d_name : string;
  d_gates : option (list GateDict);
  d_qubits : option (list QubitDict);
  d_info : gmap string PyVal
}.

(** [utils.SCHEMA_VERSION] is not among the sources. *)
Variable SCHEMA_VERSION : string.

(** [Circuit.to_dict] *)
Definition to_dict (self : t) (serialize_gate_params : bool) : dict :=
  let gates_entry :=
    match gates self with
    | Some gs =>
        Some (map (fun gate => Gate_to_dict gate serialize_gate_params) gs)
    | None => None
    end in
  let qubits_entry :=
    match qubits self with
    | Some qs => Some (map Qubit_to_dict qs)
    | None => None
    end in
  mkdict (SCHEMA_VERSION +:+ "-circuit") (name self) gates_entry
         qubits_entry (info self).

(** [Circuit.from_dict] *)
Definition from_dict (dictionary : dict) : t :=
  let output := __init__ (d_name dictionary) in
  let output_gates :=
    match d_gates dictionary with
    | Some gs => Some (map Gate_from_dict gs)
    | None => None
    end in
  let output_qubits :=
    match d_qubits dictionary with
    | Some qs => Some (map Qubit_from_dict qs)
    | None => None
    end in
  mk (name output) output_gates output_qubits (d_info dictionary).

End Methods.

End Circuit.

(* ===================================================================== *)
(** * [Circuit.evaluate] over a store of Python objects *)
(* ===================================================================== *)

(** [evaluate] hands the qubit list and the [info] dictionary of a circuit
    to the circuit it returns.  To tell an object from an equal copy, the
    lists and dictionaries live in a store, and the attributes of a circuit
    are references into it. *)
Module Evaluate.
Import Py.

Inductive obj : Type :=
| GateList (gs : list Gate.t)
| QubitList (qs : list Qubit.t)
| Dict (d : gmap string PyVal).

Definition ref : Type := nat.

(** The store: the objects allocated so far, a reference being a position,
    and the warnings issued so far. *)
Record state : Type := mkstate {
  objects : list obj;
  warnings : list string
}.

(** A circuit object: the values of its four attributes. *)
Record Circuit : Type := mk {
  name : string;
  gates : ref;
  qubits : ref;
  info : ref
}.

(** Computations that read and extend the store, and may raise. *)
Definition M (A : Type) : Type := state → result (A * state).

#[global] Instance M_ret : MRet M := fun A a s => Ok (a, s).
#[global] Instance M_bind : MBind M := fun A B k c s =>
  match c s with
  | Ok (a, s') => k a s'
  | Raise e => Raise e
  end.

(** A new object. *)
Definition alloc (o : obj) : M ref := fun s =>
  Ok (length (objects s), mkstate (objects s ++ [o]) (warnings s)).

(** Iterating over the object behind a reference that should be a list of
    gates. *)
Definition read_gates (r : ref) : M (list Gate.t) := fun s =>
  match objects s !! r with
  | Some (GateList gs) => Ok (gs, s)
  | _ => Raise (TypeError "not a list of gates")
  end.

(** [gates.append(g)] on the list behind [r]. *)
Definition append_gate (r : ref) (g : Gate.t) : M unit := fun s =>
  match objects s !! r with
  | Some (GateList gs) =>
      Ok ((), mkstate (<[r := GateList (gs ++ [g])]> (objects s)) (warnings s))
  | _ => Raise (AttributeError "append")
  end.

(** [warnings.warn(message, Warning)]: recorded, and the run goes on. *)
Definition warn (message : string) : M unit := fun s =>
  Ok ((), mkstate (objects s) (warnings s ++ [message])).

(** [Circuit()]: the constructor makes two empty lists and the dictionary
    [{"label": None}]. *)
Definition Circuit_init : M Circuit :=
  gates ← alloc (GateList []);
  qubits ← alloc (QubitList []);
  info ← alloc (Dict {[ "label" := VNone ]});
  mret (mk "Unnamed" gates qubits info).

Section Methods.
Context `{GM : GateMethods}.

(** The two loops of the property [Circuit.symbolic_params], on the gate
    list. *)
Definition add_params (symbolic_params : list string)
    (symbolic_params_per_gate : list string) : list string :=
  foldl (fun acc param =>
           if bool_decide (param ∈ acc) then acc else acc ++ [param])
        symbolic_params symbolic_params_per_gate.

Definition symbolic_params_of (gates : list Gate.t) : list string :=
  foldl (fun acc gate => add_params acc (Gate_symbolic_params gate))
        [] gates.

Definition symbolic_params (self : Circuit) : M (list string) :=
  gs ← read_gates (gates self); mret (symbolic_params_of gs).

Definition warning_text : string :=
  "Trying to evaluate circuit with symbols not existing in the circuit".

(** [for gate in self.gates: gates.append(gate.evaluate(symbols_map))] *)
Fixpoint evaluate_loop (gates : ref) (symbols_map : list (string * Q))
    (self_gates : list Gate.t) : M unit :=
  match self_gates with
  | [] => mret ()
  | gate :: rest =>
      _ ← append_gate gates (Gate_evaluate gate symbols_map);
      evaluate_loop gates symbols_map rest
  end.

(** [Circuit.evaluate] *)
Definition evaluate (self : Circuit) (symbols_map : list (string * Q))
  : M Circuit :=
  new_circuit ← Circuit_init;
  let new_circuit :=
    mk (name self) (gates new_circuit) (qubits new_circuit)
       (info new_circuit) in
  let new_circuit :=
    mk (name new_circuit) (gates new_circuit) (qubits self)
       (info new_circuit) in
  let new_circuit :=
    mk (name new_circuit) (gates new_circuit) (qubits new_circuit)
       (info self) in
  gates ← alloc (GateList []);
  let all_symbols_in_map : gset string :=
    list_to_set (map fst symbols_map) in
  self_symbolic_params ← symbolic_params self;
  _ ← (if bool_decide
            (0 < size (all_symbols_in_map ∖ list_to_set self_symbolic_params))%nat
       then warn warning_text else mret ());
  self_gates ← read_gates (Evaluate.gates self);
  _ ← evaluate_loop gates symbols_map self_gates;
  mret (mk (name new_circuit) gates (qubits new_circuit)
           (info new_circuit)).

End Methods.

(** [d[key] = value] on the dictionary behind [r], used to observe
    sharing. *)
Definition dict_set (r : ref) (key : string) (value : PyVal) : M unit :=
  fun s =>
  match objects s !! r with
  | Some (Dict d) =>
      Ok ((), mkstate (<[r := Dict (<[key := value]> d)]> (objects s))
                      (warnings s))
  | _ => Raise (TypeError "not a dictionary")
  end.

Definition dict_get (r : ref) (key : string) : M PyVal := fun s =>
  match objects s !! r with
  | Some (Dict d) =>
      match d !! key with
      | Some v => Ok (v, s)
      | None => Raise (KeyError key)
      end
  | _ => Raise (TypeError "not a dictionary")
  end.

(** *** What [evaluate] is compared with *)

(** The symbols of [symbols_map] that are parameters of the circuit. *)
Definition matched (circuit_params : list string)
    (symbols_map : list (string * Q)) : list (string * Q) :=
  filter (fun item => item.1 ∈ circuit_params) symbols_map.

Section Outcome.
Context `{GM : GateMethods}.

(** The store after [evaluate]: the three objects the constructor made,
    then the new gate list. *)
Definition store_after (s : state) (symbols_map : list (string * Q))
    (gs : list Gate.t) : list obj :=
  objects s ++
    [ GateList []; QubitList []; Dict {[ "label" := VNone ]};
      GateList (map (fun g => Gate_evaluate g symbols_map) gs) ].

Definition unmatched_symbol (symbols_map : list (string * Q))
    (gs : list Gate.t) : Prop :=
  ∃ sym, sym ∈ map fst symbols_map ∧ sym ∉ symbolic_params_of gs.

#[global] Instance unmatched_symbol_dec symbols_map gs :
  Decision (unmatched_symbol symbols_map gs).
Proof.
  unfold unmatched_symbol.
  destruct (decide (Exists (fun sym => sym ∉ symbolic_params_of gs)
                           (map fst symbols_map))) as [E|E].
  - left. apply Exists_exists in E. exact E.
  - right. intros H. apply E, Exists_exists. exact H.
Qed.

End Outcome.

End Evaluate.

(* ===================================================================== *)
(** * The importers [Circuit.from_pyquil] and [Circuit.from_qiskit] *)
(* ===================================================================== *)

(** The importers create one [Qubit] object per native qubit they meet and
    put that object, not a copy, in the qubit list of every gate.  The
    [Qubit] objects live in an arena: a reference is the position of an
    object there, and two references are the same object when they are
    equal. *)
Module Importers.
Import Py.

Definition ref : Type := nat.

(** A gate of the circuit under construction: what the native instruction
    gave, and the references to its qubits in operand order. *)
Record gate : Type := mkgate {
  name : string;
  params : list Gate.param;
  qubits : list ref
}.

(** What an importer leaves in [self]: the label, the gates, the qubit
    list, and the [Qubit] objects it created. *)
Record imported : Type := mkimported {
  label : string;
  arena : list Qubit.t;
  gates : list gate;
  qubit_list : list ref
}.

(** The local variables of an importer.  [_old_Qubit] is assigned inside a
    search loop and read after it, so it keeps its value from one operand
    to the next. *)
Record locals (Native : Type) : Type := mklocals {
  objects : list Qubit.t;
  _native_qubits : list Native;
  _qubits : list ref;
  _old_Qubit : option ref;
  _gatelist : list gate
}.
Arguments mklocals {Native}.
Arguments objects {Native}.
Arguments _native_qubits {Native}.
Arguments _qubits {Native}.
Arguments _old_Qubit {Native}.
Arguments _gatelist {Native}.

(** [_gatequbits.append(_old_Qubit)] *)
Definition read_old (old : option ref) : result ref :=
  match old with
  | Some q => Ok q
  | None => Raise (UnboundLocalError "_old_Qubit")
  end.

Definition deref (objects : list Qubit.t) (q : ref) : result Qubit.t :=
  match objects !! q with
  | Some o => Ok o
  | None => Raise (ValueError "dangling reference")
  end.

(** ** pyquil *)

(** A pyquil qubit is its [index]; a gate instruction has a name,
    parameters and qubits. *)
Record PyquilGate : Type := mkPyquilGate {
  pq_name : string;
  pq_params : list Gate.param;
  pq_qubits : list nat
}.

(** Modelled from the spec: [Qubit.from_pyquil] is in [_qubit.py], which is
    not among the sources.  The canonical qubit takes the index of the
    native one and records its origin. *)
Definition Qubit_from_pyquil (qubit : nat) : Qubit.t :=
  Qubit.mk qubit {[ "label" := VStr "pyquil" ]}.

(** Modelled from the spec: [Gate.from_pyquil] is in [_gate.py], which is
    not among the sources.  The gate keeps the qubit list it is given, in
    operand order. *)
Definition Gate_from_pyquil (g : PyquilGate) (_gatequbits : list ref)
  : gate :=
  mkgate (pq_name g) (pq_params g) _gatequbits.

(** The closure [qubit_in_list] of [from_pyquil]: [(output, out_index)],
    where [out_index] is [[]] ([None] here) until a qubit matches. *)
Fixpoint pyquil_qubit_in_list (qubit : nat) (qubitlist : list nat)
  : bool * option nat :=
  match qubitlist with
  | [] => (false, None)
  | q :: rest =>
      if (qubit =? q)%nat then (true, Some q)
      else pyquil_qubit_in_list qubit rest
  end.

(** [for q in _qubits: if q.index == _index: _old_Qubit = q; break] *)
Fixpoint pyquil_search (objects : list Qubit.t) (_qubits : list ref)
    (_index : option nat) (_old_Qubit : option ref) : result (option ref) :=
  match _qubits with
  | [] => Ok _old_Qubit
  | q :: rest =>
      o ← deref objects q;
      if bool_decide (Some (Qubit.index o) = _index) then Ok (Some q)
      else pyquil_search objects rest _index _old_Qubit
  end.

(** The body of [for qubit in gate.qubits]. *)
Definition pyquil_operand (st : locals nat * list ref) (qubit : nat)
  : result (locals nat * list ref) :=
  let '(l, _gatequbits) := st in
  let '(_flag, _index) := pyquil_qubit_in_list qubit (_native_qubits l) in
  if negb _flag then
    let _new_Qubit := length (objects l) in
    Ok (mklocals (objects l ++ [Qubit_from_pyquil qubit])
                 (_native_qubits l ++ [qubit])
                 (_qubits l ++ [_new_Qubit])
                 (_old_Qubit l) (_gatelist l),
        _gatequbits ++ [_new_Qubit])
  else
    old ← pyquil_search (objects l) (_qubits l) _index (_old_Qubit l);
    q ← read_old old;
    Ok (mklocals (objects l) (_native_qubits l) (_qubits l) old
                 (_gatelist l),
        _gatequbits ++ [q]).

(** A Python [for] loop with a body that may raise. *)
Fixpoint for_each {S A} (body : S → A → result S) (s : S) (l : list A)
  : result S :=
  match l with
  | [] => Ok s
  | x :: l' => s' ← body s x; for_each body s' l'
  end.

(** The body of [for gate in pyquil_circuit]. *)
Definition pyquil_instruction (l : locals nat) (g : PyquilGate)
  : result (locals nat) :=
  '(l', _gatequbits) ← for_each pyquil_operand (l, []) (pq_qubits g);
  Ok (mklocals (objects l') (_native_qubits l') (_qubits l')
               (_old_Qubit l')
               (_gatelist l' ++ [Gate_from_pyquil g _gatequbits])).

(** [Circuit.from_pyquil], on a new circuit and on the gate instructions
    of a program, each of which has [qubits].  A [Program] object, which
    may hold declarations and measurements as well, is read by
    [AncillaRegister.from_pyquil_program]. *)
Definition from_pyquil (pyquil_circuit : list PyquilGate)
  : result imported :=
  if (length pyquil_circuit =? 0)%nat then Ok (mkimported "pyquil" [] [] [])
  else
    l ← for_each pyquil_instruction (mklocals [] [] [] None [])
                 pyquil_circuit;
    Ok (mkimported "pyquil" (objects l) (_gatelist l) (_qubits l)).

(** ** qiskit *)

(** A qiskit qubit is a slot of a register: two qubits are equal when the
    register and the position in it are; [qubit.index] is the position. *)
Record QiskitQubit : Type := mkQiskitQubit {
  register : string;
  index : nat
}.

#[global] Instance QiskitQubit_eq_dec : EqDecision QiskitQubit.
Proof. solve_decision. Defined.

(** An entry of [qiskit_circuit.data]: the instruction and its qubits. *)
Record QiskitData : Type := mkQiskitData {
  qk_name : string;
  qk_params : list Gate.param;
  qk_qargs : list QiskitQubit
}.

(** Modelled from the spec: [Qubit.from_qiskit] is in [_qubit.py], which is
    not among the sources.  The canonical qubit takes the index it is
    given and records the position of the native qubit in its register
    under the key [num], which [from_qiskit] reads back. *)
Definition Qubit_from_qiskit (qubit : QiskitQubit) (index : nat) : Qubit.t :=
  Qubit.mk index
    {[ "label" := VStr "qiskit";
       "num" := VInt (Z.of_nat (Importers.index qubit)) ]}.

(** The closure [qubit_in_list] of [from_qiskit]. *)
Fixpoint qiskit_qubit_in_list (qubit : QiskitQubit)
    (qubitlist : list QiskitQubit) : bool :=
  match qubitlist with
  | [] => false
  | q :: rest =>
      if bool_decide (qubit = q) then true
      else qiskit_qubit_in_list qubit rest
  end.

(** [q.info["num"]] *)
Definition info_num (o : Qubit.t) : result PyVal :=
  match Qubit.info o !! "num" with
  | Some v => Ok v
  | None => Raise (KeyError "num")
  end.

(** [for q in _qubits: if q.info["num"] == qubit.index: _old_Qubit = q;
    break] *)
Fixpoint qiskit_search (objects : list Qubit.t) (_qubits : list ref)
    (qubit_index : nat) (_old_Qubit : option ref) : result (option ref) :=
  match _qubits with
  | [] => Ok _old_Qubit
  | q :: rest =>
      o ← deref objects q;
      num ← info_num o;
      if bool_decide (num = VInt (Z.of_nat qubit_index)) then Ok (Some q)
      else qiskit_search objects rest qubit_index _old_Qubit
  end.

(** The body of [for qubit in gate_data[1]]. *)
Definition qiskit_operand (st : locals QiskitQubit * list ref)
    (qubit : QiskitQubit) : result (locals QiskitQubit * list ref) :=
  let '(l, _gatequbits) := st in
  if negb (qiskit_qubit_in_list qubit (_native_qubits l)) then
    let _new_Qubit := length (objects l) in
    Ok (mklocals (objects l ++ [Qubit_from_qiskit qubit (index qubit)])
                 (_native_qubits l ++ [qubit])
                 (_qubits l ++ [_new_Qubit])
                 (_old_Qubit l) (_gatelist l),
        _gatequbits ++ [_new_Qubit])
  else
    old ← qiskit_search (objects l) (_qubits l) (index qubit) (_old_Qubit l);
    q ← read_old old;
    Ok (mklocals (objects l) (_native_qubits l) (_qubits l) old
                 (_gatelist l),
        _gatequbits ++ [q]).

Section FromQiskit.

(** Modelled from the spec: [Gate.from_qiskit] is in [_gate.py], which is
    not among the sources.  It returns [None] for an instruction with no
    canonical gate ([has_gate] tells which have one), and otherwise a gate
    that keeps the qubit list it is given, in operand order. *)
Variable has_gate : string → bool.

Definition Gate_from_qiskit (g : QiskitData) (_gatequbits : list ref)
  : option gate :=
  if has_gate (qk_name g)
  then Some (mkgate (qk_name g) (qk_params g) _gatequbits)
  else None.

(** The body of [for gate_data in qiskit_circuit.data]. *)
Definition qiskit_instruction (l : locals QiskitQubit) (gate_data : QiskitData)
  : result (locals QiskitQubit) :=
  '(l', _gatequbits) ← for_each qiskit_operand (l, []) (qk_qargs gate_data);
  let zap_gate := Gate_from_qiskit gate_data _gatequbits in
  Ok (mklocals (objects l') (_native_qubits l') (_qubits l')
               (_old_Qubit l')
               (match zap_gate with
                | Some g => _gatelist l' ++ [g]
                | None => _gatelist l'
                end)).

(** [Circuit.from_qiskit], on a new circuit ([self.name] is set from the
    native circuit and is left out). *)
Definition from_qiskit (data : list QiskitData) : result imported :=
  if (length data =? 0)%nat then Ok (mkimported "qiskit" [] [] [])
  else
    l ← for_each qiskit_instruction (mklocals [] [] [] None []) data;
    Ok (mkimported "qiskit" (objects l) (_gatelist l) (_qubits l)).

End FromQiskit.

(** ** Reading the result *)

(** The index of the canonical qubit behind a reference. *)
Definition index_of (r : imported) (q : ref) : option nat :=
  Qubit.index <$> arena r !! q.

(** The references of the qubit list whose qubit has index [i]. *)
Definition with_index (r : imported) (i : nat) : list ref :=
  filter (fun q => index_of r q = Some i) (qubit_list r).

(** The reference at operand position [j] of gate number [n]. *)
Definition operand (r : imported) (n j : nat) : option ref :=
  g ← gates r !! n; qubits g !! j.

(** ** What the loops maintain *)

(** The first object of the arena whose index is [i]. *)
Fixpoint first_with_index (objs : list Qubit.t) (i : nat) : option ref :=
  match objs with
  | [] => None
  | o :: objs' =>
      if (Qubit.index o =? i)%nat then Some 0%nat
      else S <$> first_with_index objs' i
  end.

(** What the loops of [from_pyquil] maintain: the qubit list names every
    object once, in the order of creation; the objects carry the indices of
    the native qubits seen, which are all different. *)
Record invariant (l : locals nat) : Prop := mkinvariant {
  inv_qubits : _qubits l = seq 0 (length (objects l));
  inv_native : map Qubit.index (objects l) = _native_qubits l;
  inv_nodup : NoDup (_native_qubits l)
}.

(** The references of a gate are the first objects of their indices. *)
Definition resolved (objs : list Qubit.t) (native : list nat)
    (refs : list ref) : Prop :=
  Forall2 (fun i q => first_with_index objs i = Some q) native refs.

Definition gates_resolved (objs : list Qubit.t) (program : list PyquilGate)
    (gs : list gate) : Prop :=
  Forall2 (fun g ig => resolved objs (pq_qubits g) (qubits ig)) program gs.

(** The first object of the arena made for position [n] of a register. *)
Fixpoint first_with_num (objs : list Qubit.t) (n : nat) : option ref :=
  match objs with
  | [] => None
  | o :: objs' =>
      if bool_decide (Qubit.info o !! "num" = Some (VInt (Z.of_nat n)))
      then Some 0%nat
      else S <$> first_with_num objs' n
  end.

(** All the operands of a circuit. *)
Definition operands (data : list QiskitData) : list QiskitQubit :=
  concat (map qk_qargs data).

(** The positions tell the qubits of a list apart: no two different qubits
    have the same position in their registers (as in a circuit on one
    register). *)
Definition distinct_positions (qs : list QiskitQubit) : Prop :=
  ∀ q1 q2, q1 ∈ qs → q2 ∈ qs → index q1 = index q2 → q1 = q2.

(** What the loops of [from_qiskit] maintain. *)
Record qiskit_invariant (universe : list QiskitQubit)
    (l : locals QiskitQubit) : Prop := mkqiskit_invariant {
  qinv_qubits : _qubits l = seq 0 (length (objects l));
  qinv_objects :
    objects l
    = map (fun q => Qubit_from_qiskit q (index q)) (_native_qubits l);
  qinv_nodup : NoDup (_native_qubits l);
  qinv_universe : ∀ q, q ∈ _native_qubits l → q ∈ universe
}.

Definition qiskit_resolved (objs : list Qubit.t) (native : list QiskitQubit)
    (refs : list ref) : Prop :=
  Forall2 (fun nq q => first_with_num objs (index nq) = Some q) native refs.

Definition qiskit_gates_resolved (objs : list Qubit.t)
    (data : list QiskitData) (gs : list gate) : Prop :=
  Forall2 (fun g ig => qiskit_resolved objs (qk_qargs g) (qubits ig)) data gs.

(** The instructions [Gate.from_qiskit] has a gate for. *)
Definition kept (has_gate : string → bool) (data : list QiskitData)
  : list QiskitData :=
  filter (fun g => has_gate (qk_name g) = true) data.

End Importers.

(* ===================================================================== *)
(** * The expression-tree builder *)
(* ===================================================================== *)

(** Modelled from the spec: [conversions/symbolic_expressions.py] is not
    among the sources, only its test file is.  The definitions below follow
    section 4.1 of the specification; the names are the ones the test file
    imports, and every case of the test file is replayed further down. *)
Module SymbolicExpressions.

(** Native numbers: a Python [int], a [float] (kept as its rational value)
    or a [complex]. *)
Inductive number : Type :=
| Int (n : Z)
| Real (v : Q)
| Complex (re im : Q).

(** The tree model: [Symbol(name)], a native number, or
    [FunctionCall(operator, args)]. *)
Inductive node : Type :=
| Symbol (name : string)
| Literal (n : number)
| FunctionCall (operator : string) (args : list node).

(** A child of an [Add] is the negation of a term when it is a product
    whose first factor is the coefficient [-1].  [on_negation e yes no] is
    [yes t rest] when [e] is such a product, [t] and [rest] being the
    remaining factors, and [no] otherwise. *)
Definition on_negation {A} (e : Sympy.expr)
    (yes : Sympy.expr → list Sympy.expr → A) (no : A) : A :=
  match e with
  | Sympy.Mul (Sympy.Integer (-1) :: t :: rest) => yes t rest
  | _ => no
  end.

(** A child of a [Mul] is a reciprocal when it is a power of exponent
    [-1].  [on_reciprocal e yes no] is [yes b] when [e] is such a power,
    [b] being its base, and [no] otherwise. *)
Definition on_reciprocal {A} (e : Sympy.expr) (yes : Sympy.expr → A) (no : A)
  : A :=
  match e with
  | Sympy.Pow b (Sympy.Integer (-1)) => yes b
  | _ => no
  end.

(** The term under a negation: the product of the remaining factors, or
    the factor itself when there is one. *)
Definition product_of (t : Sympy.expr) (rest : list Sympy.expr)
  : Sympy.expr :=
  match rest with [] => t | _ :: _ => Sympy.Mul (t :: rest) end.

Definition negated_term (e : Sympy.expr) : option Sympy.expr :=
  on_negation e (fun t rest => Some (product_of t rest)) None.

Definition is_negation (e : Sympy.expr) : bool :=
  on_negation e (fun _ _ => true) false.

Definition reciprocal_base (e : Sympy.expr) : option Sympy.expr :=
  on_reciprocal e Some None.

Definition is_reciprocal (e : Sympy.expr) : bool :=
  on_reciprocal e (fun _ => true) false.

(** Subtraction detection: exactly two children, exactly one of them a
    negation. *)
Definition is_addition_of_negation (sympy_add : Sympy.expr) : bool :=
  match sympy_add with
  | Sympy.Add [a; b] => xorb (is_negation a) (is_negation b)
  | _ => false
  end.

(** Division detection: exactly one child that is a reciprocal and exactly
    one other child. *)
Definition is_multiplication_by_reciprocal (sympy_mul : Sympy.expr) : bool :=
  match sympy_mul with
  | Sympy.Mul [a; b] => xorb (is_reciprocal a) (is_reciprocal b)
  | _ => false
  end.

(** The builder.  A product is a [div] of the other child by the base of
    the reciprocal when it is a multiplication by a reciprocal, and a [mul]
    of its children otherwise; a sum is a [sub] of the child that is not
    negated (the minuend) and the term under the negation (the subtrahend)
    when it is an addition of a negation, and an [add] of its children
    otherwise.  The specification names no operator for a power that
    stands alone; it is kept as [pow]. *)
Fixpoint expression_tree_from_sympy (e : Sympy.expr) : node :=
  let product := fun (args : list Sympy.expr) =>
    let mul := FunctionCall "mul" (map expression_tree_from_sympy args) in
    match args with
    | [a; b] =>
        on_reciprocal a
          (fun base_a =>
             on_reciprocal b (fun _ => mul)
               (FunctionCall "div" [ expression_tree_from_sympy b;
                                     expression_tree_from_sympy base_a ]))
          (on_reciprocal b
             (fun base_b =>
                FunctionCall "div" [ expression_tree_from_sympy a;
                                     expression_tree_from_sympy base_b ])
             mul)
    | _ => mul
    end in
  let term := fun (t : Sympy.expr) (rest : list Sympy.expr) =>
    match rest with
    | [] => expression_tree_from_sympy t
    | _ :: _ => product (t :: rest)
    end in
  match e with
  | Sympy.Symbol name => Symbol name
  | Sympy.Integer n => Literal (Int n)
  | Sympy.Rational p q => Literal (Real (p # q))
  | Sympy.Float v => Literal (Real v)
  | Sympy.ImaginaryUnit => Literal (Complex 0 1)
  | Sympy.Pow b x =>
      FunctionCall "pow"
        [expression_tree_from_sympy b; expression_tree_from_sympy x]
  | Sympy.Mul args => product args
  | Sympy.Add args =>
      let add := FunctionCall "add" (map expression_tree_from_sympy args) in
      match args with
      | [a; b] =>
          on_negation a
            (fun t rest =>
               on_negation b (fun _ _ => add)
                 (FunctionCall "sub" [ expression_tree_from_sympy b;
                                       term t rest ]))
            (on_negation b
               (fun t rest =>
                  FunctionCall "sub" [ expression_tree_from_sympy a;
                                       term t rest ])
               add)
      | _ => add
      end
  end.

(** The factors after the coefficient of a negation. *)
Definition negation_parts (e : Sympy.expr)
  : option (Sympy.expr * list Sympy.expr) :=
  on_negation e (fun t rest => Some (t, rest)) None.

(** The two children of an addition of a negation: the child that is not
    negated and the term under the negation of the other. *)
Definition split_subtraction (e : Sympy.expr)
  : option (Sympy.expr * Sympy.expr) :=
  match e with
  | Sympy.Add [a; b] =>
      match negated_term a, negated_term b with
      | None, Some t => Some (a, t)
      | Some t, None => Some (b, t)
      | _, _ => None
      end
  | _ => None
  end.

End SymbolicExpressions.

(* ===================================================================== *)
(** * The properties [n_multiqubit_gates] and [symbolic_params] *)
(* ===================================================================== *)

Module CircuitProperties.
Import Py Circuit.

(** [Circuit.n_multiqubit_gates]: the counter goes up at every gate with
    more than one qubit. *)
Definition n_multiqubit_gates (self : t) : result nat :=
  gs ← the_list (gates self);
  Ok (foldl (fun n_mq_gates gate =>
               if (1 <? length (Gate.qubits gate))%nat
               then (n_mq_gates + 1)%nat else n_mq_gates)
            0%nat gs).

Section Methods.
Context `{GM : GateMethods}.

(** [Circuit.symbolic_params], on the attributes of a circuit. *)
Definition symbolic_params (self : t) : result (list string) :=
  gs ← the_list (gates self); Ok (Evaluate.symbolic_params_of gs).

End Methods.

End CircuitProperties.

(* ===================================================================== *)
(** * What [Circuit.to_pyquil] is compared with *)
(* ===================================================================== *)

Module ToPyquil.
Import Py Pyquil.

(** The names [add_gate_to_pyquil_program] has a branch for, under the
    test for the UNIQUE catalog. *)
Definition unique_branches : list string :=
  ["ZXZ"; "RH"; "XX"; "YY"; "ZZ"; "U1ex"; "U2ex"; "MEASURE"; "BARRIER"].

(** A gate for which the function reaches its end without a [return]. *)
Definition falls_through (COMMON_GATES UNIQUE_GATES : list string)
    (g : Gate.t) : Prop :=
  (Gate.name g ∉ COMMON_GATES)
  ∧ ((Gate.name g ∉ UNIQUE_GATES) ∨ (Gate.name g ∉ unique_branches)).

(** [XX], [YY] and [ZZ] with the parameter and the two qubits their branch
    reads. *)
Definition two_qubit_rotation (g : Gate.t) : Prop :=
  Gate.name g ∈ ["XX"; "YY"; "ZZ"]
  ∧ Gate.params g ≠ [] ∧ (2 ≤ length (Gate.qubits g))%nat.

(** The instruction the branch of such a gate adds. *)
Definition applied (g : Gate.t) : option Instr :=
  p0 ← Gate.params g !! 0%nat;
  q0 ← Gate.qubits g !! 0%nat;
  q1 ← Gate.qubits g !! 1%nat;
  Some (GateInstr (Gate.name g) [p0] [Qubit.index q0; Qubit.index q1]).

(** The names of the definitions of a program. *)
Definition defined_names (p : Program) : list string :=
  map dg_name (defined_gates p).

(** Proof steps: membership in a list of names, and the run of the
    [item] and [qubit_index] reads of a branch. *)
Ltac in_names := by apply (bool_decide_unpack _).
Ltac not_in_names H :=
  apply (bool_decide_pack _) in H; vm_compute in H; done.

Ltac run_binds H :=
  cbn [mbind result_bind bind plus_defgate plus_instr plus_program
       attr_defined_gates declare no_plus] in H;
  repeat match type of H with
  | context [item ?l ?i] =>
      destruct (item l i) eqn:?;
      cbn [mbind result_bind bind plus_defgate plus_instr plus_program
           attr_defined_gates declare no_plus] in H;
      try discriminate H
  | context [qubit_index ?g ?i] =>
      destruct (qubit_index g i) eqn:?;
      cbn [mbind result_bind bind plus_defgate plus_instr plus_program
           attr_defined_gates declare no_plus] in H;
      try discriminate H
  end.

End ToPyquil.

(* ===================================================================== *)
(** * The importer [Circuit.from_cirq] *)
(* ===================================================================== *)

Module FromCirq.
Import Py Importers.

(** A cirq circuit: its moments, each with its operations. *)
Definition Moment : Type := list Cirq.Operation.

(** [q.info["QubitKey"]] *)
Definition info_QubitKey (o : Qubit.t) : result PyVal :=
  match Qubit.info o !! "QubitKey" with
  | Some v => Ok v
  | None => Raise (KeyError "QubitKey")
  end.

(** [q.info["QubitKey"] == _index]: an integer is equal to the key of a
    line qubit, a pair to the key of a grid qubit. *)
Definition key_eqb (v : PyVal) (_index : Cirq.out_index) : bool :=
  match v, _index with
  | VInt n, Cirq.LineKey x => n =? x
  | VPair a b, Cirq.GridKey row col => (a =? row) && (b =? col)
  | _, _ => false
  end.

(** [for q in _qubits: if q.info["QubitKey"] == _index: _old_Qubit = q;
    break] *)
Fixpoint cirq_search (objects : list Qubit.t) (_qubits : list ref)
    (_index : Cirq.out_index) (_old_Qubit : option ref)
  : result (option ref) :=
  match _qubits with
  | [] => Ok _old_Qubit
  | q :: rest =>
      o ← deref objects q;
      key ← info_QubitKey o;
      if key_eqb key _index then Ok (Some q)
      else cirq_search objects rest _index _old_Qubit
  end.

Section FromCirq.

(** [Qubit.from_cirq] and [Gate.from_cirq] are in [_qubit.py] and
    [_gate.py], which are not among the sources. *)
Variable Qubit_from_cirq : Cirq.Qid → Z → Qubit.t.
Variable Gate_from_cirq : Cirq.Operation → list ref → gate.

(** The body of [for qubit in op.qubits].  The argument [qubit.x] of
    [Qubit.from_cirq] is read before the call. *)
Definition cirq_operand (st : locals Cirq.Qid * list ref) (qubit : Cirq.Qid)
  : result (locals Cirq.Qid * list ref) :=
  let '(l, _gatequbits) := st in
  '(_flag, _index) ← Cirq.qubit_in_list qubit (_native_qubits l);
  if negb _flag then
    x ← Cirq.attr_x qubit;
    let _new_Qubit := length (objects l) in
    Ok (mklocals (objects l ++ [Qubit_from_cirq qubit x])
                 (_native_qubits l ++ [qubit])
                 (_qubits l ++ [_new_Qubit])
                 (_old_Qubit l) (_gatelist l),
        _gatequbits ++ [_new_Qubit])
  else
    old ← cirq_search (objects l) (_qubits l) _index (_old_Qubit l);
    q ← read_old old;
    Ok (mklocals (objects l) (_native_qubits l) (_qubits l) old
                 (_gatelist l),
        _gatequbits ++ [q]).

(** The body of [for op in moment.operations]. *)
Definition cirq_operation (l : locals Cirq.Qid) (op : Cirq.Operation)
  : result (locals Cirq.Qid) :=
  '(l', _gatequbits) ← for_each cirq_operand (l, []) (Cirq.qubits op);
  Ok (mklocals (objects l') (_native_qubits l') (_qubits l')
               (_old_Qubit l')
               (_gatelist l' ++ [Gate_from_cirq op _gatequbits])).

(** The body of [for moment in cirq_circuit]. *)
Definition cirq_moment (l : locals Cirq.Qid) (moment : Moment)
  : result (locals Cirq.Qid) :=
  for_each cirq_operation l moment.

(** [Circuit.from_cirq], on a new circuit. *)
Definition from_cirq (cirq_circuit : list Moment) : result imported :=
  if (length cirq_circuit =? 0)%nat
     || (sum_list (map length cirq_circuit) =? 0)%nat
  then Ok (mkimported "cirq" [] [] [])
  else
    l ← for_each cirq_moment (mklocals [] [] [] None []) cirq_circuit;
    Ok (mkimported "cirq" (objects l) (_gatelist l) (_qubits l)).

End FromCirq.

(** An operation with a grid qubit among its operands. *)
Definition on_grid_qubit (op : Cirq.Operation) : Prop :=
  Exists (fun q => Cirq.is_GridQubit q = true) (Cirq.qubits op).

(** ** Circuits on line qubits *)

(** The operands of a circuit, operation after operation. *)
Definition cirq_operations (cirq_circuit : list Moment)
  : list Cirq.Operation :=
  concat cirq_circuit.

Definition cirq_operands (cirq_circuit : list Moment) : list Cirq.Qid :=
  concat (map Cirq.qubits (cirq_operations cirq_circuit)).

(** A circuit on line qubits only. *)
Definition on_line_qubits (cirq_circuit : list Moment) : Prop :=
  Forall (fun q => Cirq.is_LineQubit q = true) (cirq_operands cirq_circuit).

(** The key of the canonical qubit behind a reference. *)
Definition key_of (r : imported) (q : ref) : option PyVal :=
  o ← arena r !! q; Qubit.info o !! "QubitKey".

(** The references of the qubit list whose qubit has the key [x]. *)
Definition with_key (r : imported) (x : Z) : list ref :=
  filter (fun q => key_of r q = Some (VInt x)) (qubit_list r).

(** The first position of [x] in a list. *)
Fixpoint index_in (x : Z) (xs : list Z) : option nat :=
  match xs with
  | [] => None
  | y :: xs' => if bool_decide (x = y) then Some 0%nat
                else S <$> index_in x xs'
  end.

(** What the loops of [from_cirq] maintain on a circuit of line qubits:
    [xs] are the coordinates of the qubits seen, all different; the qubit
    list names every object once, in the order of creation, and the
    object made for a qubit carries its coordinate as key. *)
Record line_invariant (xs : list Z) (l : locals Cirq.Qid) : Prop :=
  mkline_invariant {
  linv_qubits : _qubits l = seq 0 (length (objects l));
  linv_native : _native_qubits l = map Cirq.LineQubit xs;
  linv_keys :
    map (fun o => Qubit.info o !! "QubitKey") (objects l)
    = map (fun x => Some (VInt x)) xs;
  linv_nodup : NoDup xs
}.

(** The references of a gate are the first positions of the coordinates
    of its operands. *)
Definition line_resolved (xs : list Z) (native : list Cirq.Qid)
    (refs : list ref) : Prop :=
  Forall2 (fun nq q => ∃ x, nq = Cirq.LineQubit x ∧ index_in x xs = Some q)
          native refs.

Definition line_gates_resolved (xs : list Z) (ops : list Cirq.Operation)
    (gs : list gate) : Prop :=
  Forall2 (fun op ig => line_resolved xs (Cirq.qubits op) (qubits ig)) ops gs.

(** Until a grid qubit is met, the qubits seen are line qubits. *)
Definition seen_line_qubits (l : locals Cirq.Qid) : Prop :=
  Forall (fun q => Cirq.is_LineQubit q = true) (_native_qubits l).

End FromCirq.

(* ===================================================================== *)
(** * [add_ancilla_register_to_circuit] *)
(* ===================================================================== *)

Module AncillaRegister.
Import Py Pyquil Importers.

(** The operands of a program, instruction after instruction. *)
Definition pyquil_operands (program : list PyquilGate) : list nat :=
  concat (map pq_qubits program).

(** The elements of a list in the order in which they first occur. *)
Definition add_new (seen : list nat) (x : nat) : list nat :=
  if bool_decide (x ∈ seen) then seen else seen ++ [x].

Definition first_occurrences (l : list nat) : list nat :=
  foldl add_new [] l.

(** What [from_pyquil] reads of an instruction: [gate.qubits], which a
    declaration or a measurement does not have, then the name and the
    parameters that [Gate.from_pyquil] takes. *)
Definition as_gate (i : Instr) : result PyquilGate :=
  match i with
  | GateInstr name params qubits => Ok (mkPyquilGate name params qubits)
  | DECLARE _ _ _ | Measurement _ _ => Raise (AttributeError "qubits")
  end.

(** An instruction without [qubits]: a declaration or a measurement. *)
Definition not_a_gate (i : Instr) : Prop :=
  match i with
  | GateInstr _ _ _ => False
  | DECLARE _ _ _ | Measurement _ _ => True
  end.

(** [Circuit.from_pyquil] on a [Program] object, or on [None]: the loop
    runs over every instruction of the program. *)
Definition from_pyquil_program (pyquil_circuit : option Program)
  : result imported :=
  match pyquil_circuit with
  | None => Raise (TypeError "object of type 'NoneType' has no len()")
  | Some p =>
      if (length (instructions p) =? 0)%nat
      then Ok (mkimported "pyquil" [] [] [])
      else
        l ← for_each (fun l i => gate ← as_gate i; pyquil_instruction l gate)
                     (mklocals [] [] [] None []) (instructions p);
        Ok (mkimported "pyquil" (objects l) (_gatelist l) (_qubits l))
  end.

(** [pyquil.gates.I(qubit)] *)
Definition I_gate (qubit : nat) : Instr := GateInstr "I" [] [qubit].

Section AddAncilla.
Variable COMMON_GATES UNIQUE_GATES : list string.
Variable Gate_to_pyquil : Gate.t → Program.

(** [add_ancilla_register_to_circuit] *)
Definition add_ancilla_register_to_circuit (circuit : Circuit.t)
    (n_qubits_ancilla_register : nat) : result imported :=
  qs ← Circuit.the_list (Circuit.qubits circuit);
  let n_qubits := length qs in
  pyquil_circuit ←
    to_pyquil COMMON_GATES UNIQUE_GATES Gate_to_pyquil (Circuit.gates circuit);
  pyquil_circuit ←
    for_each (fun (pyquil_circuit : option Program) i =>
                p ← plus_instr pyquil_circuit (I_gate (n_qubits + i));
                Ok (Some p))
             pyquil_circuit (seq 0 n_qubits_ancilla_register);
  from_pyquil_program pyquil_circuit.

End AddAncilla.

(** The gates [I(n_qubits + i)] of the ancilla register. *)
Definition ancillas (n_qubits n : nat) : list PyquilGate :=
  map (fun i => mkPyquilGate "I" [] [(n_qubits + i)%nat]) (seq 0 n).

End AncillaRegister.

(* ===================================================================== *)
(** * [Circuit.to_qiskit] *)
(* ===================================================================== *)

Module ToQiskit.
Import Py Importers.

(** [qiskit.QuantumRegister(size, name)] and
    [qiskit.ClassicalRegister(size, name)]. *)
Record Register : Type := mkRegister { size : nat; reg_name : string }.

Section ToQiskit.

(** [Gate.to_qiskit] is in [_gate.py], which is not among the sources: it
    returns a list [instruction, qargs, cargs, instruction, ...].  [E] is
    the type of the entries. *)
Variable E : Type.
Variable Gate_to_qiskit : Gate.t → option Register → option Register → list E.

(** A [qiskit.QuantumCircuit]: its registers and what was appended. *)
Record QuantumCircuit : Type := mkQuantumCircuit {
  qregs : list Register;
  cregs : list Register;
  data : list (E * E * E)
}.

(** The values of [np.linspace(0, N - 3, N // 3)] after [int]: the
    [N // 3] integers 0, 3, ..., [N - 3] when [N] is a multiple of 3 (the
    step is [(N - 3) / (N // 3 - 1)], which is 3). *)
Definition linspace_indices (N : nat) : list nat :=
  map (fun k => (3 * k)%nat) (seq 0 (N / 3)).

(** The body of [for gate in self.gates], on the entries of one gate. *)
Definition append_gate_data (appended : list (E * E * E))
    (qiskit_gate_data : list E) : result (list (E * E * E)) :=
  let N := length qiskit_gate_data in
  if negb (N mod 3 =? 0)%nat then
    Raise (ValueError "The number of entries in qiskit_gate_data is not a multiple of 3")
  else
    for_each (fun appended index =>
                instruction ← Circuit.item qiskit_gate_data index;
                qargs ← Circuit.item qiskit_gate_data (index + 1)%nat;
                cargs ← Circuit.item qiskit_gate_data (index + 2)%nat;
                Ok (appended ++ [(instruction, qargs, cargs)]))
             appended (linspace_indices N).

(** The registers made for the qubits: none when there is no qubit. *)
Definition registers (qubits : option (list Qubit.t))
  : option Register * option Register :=
  match qubits with
  | None | Some [] => (None, None)
  | Some qs =>
      let max_qindex := max_list (map Qubit.index qs) in
      (Some (mkRegister (max_qindex + 1) "q"),
       Some (mkRegister (max_qindex + 1) "c"))
  end.

(** [Circuit.to_qiskit] *)
Definition to_qiskit (self : Circuit.t) : result QuantumCircuit :=
  let '(qreg, creg) := registers (Circuit.qubits self) in
  let qiskit_circuit :=
    mkQuantumCircuit (option_list qreg) (option_list creg) [] in
  match Circuit.gates self with
  | None => Ok qiskit_circuit
  | Some gs =>
      appended ←
        for_each (fun appended gate =>
                    append_gate_data appended (Gate_to_qiskit gate qreg creg))
                 [] gs;
      Ok (mkQuantumCircuit (qregs qiskit_circuit) (cregs qiskit_circuit)
                           appended)
  end.

(** The entries of what was appended, in order. *)
Definition entries (appended : list (E * E * E)) : list E :=
  concat (map (fun t => [t.1.1; t.1.2; t.2]) appended).

End ToQiskit.

Arguments qregs {E}.
Arguments cregs {E}.
Arguments data {E}.
Arguments entries {E}.

End ToQiskit.

(* ===================================================================== *)
(** * [Circuit.to_qpic] *)
(* ===================================================================== *)

Module ToQpic.
Import Py.

(** The line feed character. *)
Definition newline : string := String (Ascii.ascii_of_nat 10) "".

(** ["w{} W {}\n".format(qubit.index, qubit.index)] *)
Definition wire (index : nat) : string :=
  "w" +:+ pretty index +:+ " W " +:+ pretty index +:+ newline.

(** The order of [sorted(self.qubits, key=lambda q: q.index)]. *)
Definition by_index (q1 q2 : Qubit.t) : Prop :=
  (Qubit.index q1 ≤ Qubit.index q2)%nat.

#[global] Instance by_index_dec : RelDecision by_index.
Proof. intros q1 q2. unfold by_index. apply _. Defined.

#[global] Instance by_index_total : Total by_index.
Proof. intros q1 q2. unfold by_index. lia. Qed.

Section ToQpic.

(** [Gate.to_qpic] is in [_gate.py], which is not among the sources. *)
Variable Gate_to_qpic : Gate.t → string.

(** [Circuit.to_qpic].  Of the sorted list only the indices are read. *)
Definition to_qpic (self : Circuit.t) : result string :=
  let qpic_string := "" in
  qs ← Circuit.the_list (Circuit.qubits self);
  let qpic_string :=
    foldl (fun qpic_string qubit => qpic_string +:+ wire (Qubit.index qubit))
          qpic_string (merge_sort by_index qs) in
  gs ← Circuit.the_list (Circuit.gates self);
  Ok (foldl (fun qpic_string gate =>
               qpic_string +:+ (Gate_to_qpic gate +:+ newline))
            qpic_string gs).

End ToQpic.

(** The lines of a text, one after the other. *)
Definition lines (l : list string) : string := foldr String.app "" l.

End ToQpic.

(* ===================================================================== *)
(** * [wip/circuit/_gates.py]: the number of qubits of a matrix *)
(* ===================================================================== *)

Module WipGates.
Import Py.

Definition not_square : exn :=
  ValueError "Gate's matrix has to be square with dimension 2^N".

(** [_n_qubits_for_matrix(matrix_shape)].  [math.log2] raises [ValueError]
    on a number that is not positive.  [math.floor(math.log2(x))] is
    [Z.log2 x] when [x] is a power of two; for any other [x] both are some
    [n] with [2 ** n != x], and the function raises. *)
Definition _n_qubits_for_matrix (matrix_shape : Z * Z) : result Z :=
  if matrix_shape.1 <=? 0 then Raise (ValueError "math domain error") else
  let n_qubits := Z.log2 matrix_shape.1 in
  if negb (2 ^ n_qubits =? matrix_shape.1)
     || negb (2 ^ n_qubits =? matrix_shape.2)
  then Raise not_square
  else Ok n_qubits.

End WipGates.

(* ===================================================================== *)
(** * [cirq2pyquil]: the numbering of the qubits *)
(* ===================================================================== *)

Module Cirq2Pyquil.
Import Py.

(** A key of [qubit_map]: [q.x] for a line qubit, the tuple
    [(q.row, q.col)] for a grid qubit. *)
Inductive key : Type :=
| KeyInt (x : Z)
| KeyPair (row col : Z).

#[global] Instance key_eq_dec : EqDecision key.
Proof. solve_decision. Defined.

#[global] Instance key_countable : Countable key :=
  inj_countable'
    (fun k => match k with KeyInt x => inl x | KeyPair r c => inr (r, c) end)
    (fun s => match s with inl x => KeyInt x | inr (r, c) => KeyPair r c end)
    (fun k => match k with KeyInt _ => eq_refl | KeyPair _ _ => eq_refl end).

(** The order of the keys: integers by [<=], tuples lexicographically.
    All the keys of one circuit are of one kind; an integer is put before
    a tuple to make the order total. *)
Definition key_le (k1 k2 : key) : Prop :=
  match k1, k2 with
  | KeyInt x, KeyInt y => x ≤ y
  | KeyPair r1 c1, KeyPair r2 c2 => r1 < r2 ∨ (r1 = r2 ∧ c1 ≤ c2)
  | KeyInt _, KeyPair _ _ => True
  | KeyPair _ _, KeyInt _ => False
  end.

#[global] Instance key_le_dec : RelDecision key_le.
Proof. intros [x|r1 c1] [y|r2 c2]; unfold key_le; apply _. Defined.

#[global] Instance key_le_total : Total key_le.
Proof. intros [x|r1 c1] [y|r2 c2]; unfold key_le; lia. Qed.

#[global] Instance key_le_trans : Transitive key_le.
Proof. intros [x|r1 c1] [y|r2 c2] [z|r3 c3]; unfold key_le; lia. Qed.

(** The key of a qubit. *)
Definition key_of (q : Cirq.Qid) : key :=
  match q with
  | Cirq.LineQubit x => KeyInt x
  | Cirq.GridQubit row col => KeyPair row col
  end.

#[global] Instance key_of_inj : Inj (=) (=) key_of.
Proof. intros [r1 c1|x] [r2 c2|y]; simpl; congruence. Qed.

(** The function [qubit_key], chosen after the first qubit of
    [circuit.all_qubits()]: it reads the attributes of one kind of
    qubit.  [Cirq.Qid] has the two kinds of qubit the function accepts;
    on a first qubit of any other kind the source raises [ValueError]. *)
Definition qubit_key (first : Cirq.Qid) (q : Cirq.Qid) : result key :=
  match first with
  | Cirq.GridQubit _ _ =>
      row ← Cirq.attr_row q; col ← Cirq.attr_col q; Ok (KeyPair row col)
  | Cirq.LineQubit _ => x ← Cirq.attr_x q; Ok (KeyInt x)
  end.

(** What the first part of [cirq2pyquil] does: it returns the map, or
    raises, or lets the [StopIteration] of [next] through. *)
Inductive outcome : Type :=
| Returns (qubit_map : gmap key nat)
| Raises (e : exn)
| StopIteration.

(** The order [sorted(..., key=qubit_key)] sorts the decorated list by. *)
Definition by_key (p1 p2 : key * Cirq.Qid) : Prop := key_le p1.1 p2.1.

#[global] Instance by_key_dec : RelDecision by_key.
Proof. intros p1 p2. unfold by_key. apply _. Defined.

#[global] Instance by_key_total : Total by_key.
Proof. intros p1 p2. unfold by_key. apply key_le_total. Qed.

#[global] Instance by_key_trans : Transitive by_key.
Proof. intros p1 p2 p3. unfold by_key. apply key_le_trans. Qed.

(** The body of [for qubit in sorted(...)]. *)
Definition number_qubit (first : Cirq.Qid) (st : gmap key nat * nat)
    (qubit : Cirq.Qid) : result (gmap key nat * nat) :=
  let '(qubit_map, qubit_count) := st in
  k ← qubit_key first qubit;
  Ok (<[k := qubit_count]> qubit_map, (qubit_count + 1)%nat).

(** The construction of [qubit_map] in [cirq2pyquil].  [all_qubits] is
    the set [circuit.all_qubits()] in the order in which it is iterated.
    [sorted] computes the key of every element, then sorts. *)
Definition build_qubit_map (all_qubits : list Cirq.Qid) : outcome :=
  match all_qubits with
  | [] => StopIteration
  | qubit :: _ =>
      match
        decorated ← mapM (fun q => k ← qubit_key qubit q; Ok (k, q))
                         all_qubits;
        Importers.for_each (number_qubit qubit) (∅, 0%nat)
          (map snd (merge_sort by_key decorated))
      with
      | Ok (qubit_map, _) => Returns qubit_map
      | Raise e => Raises e
      end
  end.

(** Qubits of one kind. *)
Definition same_kind (q1 q2 : Cirq.Qid) : Prop :=
  Cirq.is_LineQubit q1 = Cirq.is_LineQubit q2.

End Cirq2Pyquil.

(* ===================================================================== *)
(** * [pyquil2cirq] *)
(* ===================================================================== *)

Module Pyquil2Cirq.
Import Py Importers.

(** The keys of [op_map]. *)
Definition op_map : list string :=
  ["X"; "Y"; "Z"; "T"; "H"; "S"; "RX"; "RY"; "RZ"; "CNOT"; "SWAP"; "CZ";
   "CPHASE"].

(** [qubits = [cirq.GridQubit(i, 0) for i in qprog.get_qubits()]];
    [get_qubits] is the set of the indices in the order in which it is
    iterated. *)
Definition grid_qubits (get_qubits : list nat) : list Cirq.Qid :=
  map (fun i => Cirq.GridQubit (Z.of_nat i) 0) get_qubits.

(** [dict[key]] and [list[i]] *)
Definition dict_item (d : gmap Z nat) (k : Z) : result nat :=
  match d !! k with
  | Some v => Ok v
  | None => Raise (KeyError "qubit_map")
  end.

(** [for i in range(len(qubits)): qubit_map[qubits[i].row] = i] *)
Definition build_qubit_map (qubits : list Cirq.Qid) : result (gmap Z nat) :=
  for_each (fun (qubit_map : gmap Z nat) i =>
              q ← Circuit.item qubits i;
              row ← Cirq.attr_row q;
              Ok (<[row := i]> qubit_map))
           ∅ (seq 0 (length qubits)).

(** [target_qubits = [qubits[qubit_map[q.index]] for q in gate.qubits]] *)
Definition target_qubits (qubits : list Cirq.Qid) (qubit_map : gmap Z nat)
    (gate : PyquilGate) : result (list Cirq.Qid) :=
  mapM (fun q => pos ← dict_item qubit_map (Z.of_nat q);
                 Circuit.item qubits pos)
       (pq_qubits gate).

Section Pyquil2Cirq.

(** The operations of cirq are made by cirq: [make name None targets] is
    [op_map[name]] called on the targets, and [make name (Some p) targets]
    is [op_map[name](exponent=p / np.pi)] called on the targets; either
    may raise. *)
Variable Op : Type.
Variable make : string → option Gate.param → list Cirq.Qid → result Op.

(** The body of [for gate in qprog]. *)
Definition convert_gate (qubits : list Cirq.Qid) (qubit_map : gmap Z nat)
    (circuit : list Op) (gate : PyquilGate) : result (list Op) :=
  if negb (bool_decide (pq_name gate ∈ op_map)) then
    Raise (ValueError "Gate not yet supported")
  else
    targets ← target_qubits qubits qubit_map gate;
    cirq_gate ←
      match pq_params gate with
      | [] => make (pq_name gate) None targets
      | [p] => make (pq_name gate) (Some p) targets
      | _ =>
          Raise (ValueError
                   "Gates with more than one parameter not yet supported")
      end;
    Ok (circuit ++ [cirq_gate]).

(** [pyquil2cirq]: the operations appended to the circuit, in order. *)
Definition pyquil2cirq (get_qubits : list nat) (qprog : list PyquilGate)
  : result (list Op) :=
  let qubits := grid_qubits get_qubits in
  qubit_map ← build_qubit_map qubits;
  for_each (convert_gate qubits qubit_map) [] qprog.

End Pyquil2Cirq.

(** A gate the conversion has no case for. *)
Definition unsupported (gate : PyquilGate) : Prop :=
  pq_name gate ∉ op_map ∨ (2 ≤ length (pq_params gate))%nat.

End Pyquil2Cirq.

(* ===================================================================== *)
(** * An implementation of the [Gate] and [Qubit] methods *)
(* ===================================================================== *)

(** Modelled from the spec: [_gate.py] and [_qubit.py] are not among the
    sources.  This implementation follows the data model (section 3) and
    the dictionary schema (section 6) of the specification; it is the
    instance at which the results on [Circuit] are run. *)
Module SpecModel.

(** *** Symbols and substitution in sympy expressions *)

Fixpoint free_symbols (e : Sympy.expr) : list string :=
  match e with
  | Sympy.Symbol name => [name]
  | Sympy.Add args | Sympy.Mul args => concat (map free_symbols args)
  | Sympy.Pow b x => free_symbols b ++ free_symbols x
  | _ => []
  end.

(** The value the map gives to a symbol: the first pair for it. *)
Fixpoint assoc (sym : string) (symbols_map : list (string * Q)) : option Q :=
  match symbols_map with
  | [] => None
  | (sym', v) :: rest => if String.eqb sym sym' then Some v else assoc sym rest
  end.

Fixpoint subs (symbols_map : list (string * Q)) (e : Sympy.expr)
  : Sympy.expr :=
  match e with
  | Sympy.Symbol name =>
      match assoc name symbols_map with
      | Some v => Sympy.Float v
      | None => e
      end
  | Sympy.Add args => Sympy.Add (map (subs symbols_map) args)
  | Sympy.Mul args => Sympy.Mul (map (subs symbols_map) args)
  | Sympy.Pow b x => Sympy.Pow (subs symbols_map b) (subs symbols_map x)
  | _ => e
  end.

(** [str(e)] *)
Fixpoint str (e : Sympy.expr) : string :=
  match e with
  | Sympy.Symbol name => name
  | Sympy.Integer n => pretty n
  | Sympy.Rational p q => pretty p +:+ "/" +:+ pretty (Zpos q)
  | Sympy.Float v => pretty (Qnum v) +:+ "/" +:+ pretty (Zpos (Qden v))
  | Sympy.ImaginaryUnit => "I"
  | Sympy.Add args => "Add(" +:+ String.concat ", " (map str args) +:+ ")"
  | Sympy.Mul args => "Mul(" +:+ String.concat ", " (map str args) +:+ ")"
  | Sympy.Pow b x => "Pow(" +:+ str b +:+ ", " +:+ str x +:+ ")"
  end.

(** *** Qubits *)

Record qubit_dict : Type := mkqubit_dict {
  qd_schema : string;
  qd_index : nat;
  qd_info : gmap string PyVal
}.

#[global] Instance qubit_methods : QubitMethods := {|
  QubitDict := qubit_dict;
  Qubit_new := fun index => Qubit.mk index ∅;
  Qubit_to_dict := fun q =>
    mkqubit_dict "zapata-v1-qubit" (Qubit.index q) (Qubit.info q);
  Qubit_from_dict := fun d => Qubit.mk (qd_index d) (qd_info d);
  Qubit_str := fun q => "Qubit " +:+ pretty (Qubit.index q)
|}.

(** *** Gates *)

(** An entry of the [params] list of a gate dictionary: a number, a string
    (a serialized expression), or the expression itself when the
    parameters are not serialized. *)
Inductive param_entry : Type :=
| ENumber (v : Q)
| EString (s : string)
| EExpr (e : Sympy.expr).

Record gate_dict : Type := mkgate_dict {
  gd_schema : string;
  gd_name : string;
  gd_qubits : list nat;
  gd_params : list param_entry
}.

Definition param_to_entry (serialize_params : bool) (p : Gate.param)
  : param_entry :=
  match p with
  | Gate.Number v => ENumber v
  | Gate.Expr e => if serialize_params then EString (str e) else EExpr e
  end.

(** A string is read back as the symbol of that name: reading expressions
    back is the work of sympy, and nothing below depends on it. *)
Definition entry_to_param (x : param_entry) : Gate.param :=
  match x with
  | ENumber v => Gate.Number v
  | EString s => Gate.Expr (Sympy.Symbol s)
  | EExpr e => Gate.Expr e
  end.

Definition param_eqb (p1 p2 : Gate.param) : bool :=
  match p1, p2 with
  | Gate.Number v1, Gate.Number v2 => Qeq_bool v1 v2
  | Gate.Expr e1, Gate.Expr e2 => String.eqb (str e1) (str e2)
  | _, _ => false
  end.

Fixpoint params_eqb (l1 l2 : list Gate.param) : bool :=
  match l1, l2 with
  | [], [] => true
  | p1 :: l1', p2 :: l2' => param_eqb p1 p2 && params_eqb l1' l2'
  | _, _ => false
  end.

Definition param_symbols (p : Gate.param) : list string :=
  match p with
  | Gate.Number _ => []
  | Gate.Expr e => free_symbols e
  end.

Definition param_evaluate (symbols_map : list (string * Q)) (p : Gate.param)
  : Gate.param :=
  match p with
  | Gate.Number v => Gate.Number v
  | Gate.Expr e => Gate.Expr (subs symbols_map e)
  end.

#[global] Instance gate_methods : GateMethods := {|
  GateDict := gate_dict;
  Gate_to_dict := fun g serialize_params =>
    mkgate_dict "zapata-v1-gate" (Gate.name g)
      (map Qubit.index (Gate.qubits g))
      (map (param_to_entry serialize_params) (Gate.params g));
  Gate_from_dict := fun d =>
    Gate.mk (gd_name d) (map Qubit_new (gd_qubits d))
            (map entry_to_param (gd_params d));
  Gate_eq := fun g1 g2 =>
    String.eqb (Gate.name g1) (Gate.name g2)
    && bool_decide (map Qubit.index (Gate.qubits g1)
                    = map Qubit.index (Gate.qubits g2))
    && params_eqb (Gate.params g1) (Gate.params g2);
  Gate_symbolic_params := fun g => concat (map param_symbols (Gate.params g));
  Gate_evaluate := fun g symbols_map =>
    Gate.mk (Gate.name g) (Gate.qubits g)
            (map (param_evaluate symbols_map) (Gate.params g))
|}.

End SpecModel.

(* ===================================================================== *)
(** * Circuits, programs and expressions the results are run on *)
(* ===================================================================== *)

Module Examples.
Import Py Pyquil Importers.

(** Two qubits that carry the provenance of a cirq import, and a third
    without any. *)
Definition qubit0 : Qubit.t :=
  Qubit.mk 0 {[ "label" := VStr "cirq"; "QubitType" := VStr "LineQubit";
                "QubitKey" := VInt 0 ]}.
Definition qubit1 : Qubit.t :=
  Qubit.mk 1 {[ "label" := VStr "cirq"; "QubitType" := VStr "LineQubit";
                "QubitKey" := VInt 1 ]}.
Definition qubit2 : Qubit.t := Qubit.mk 2 ∅.

(** [H(0)], [CNOT(0, 1)], [RX(1/2)(0)] and [RZ(theta)(2)]. *)
Definition gate_H : Gate.t := Gate.mk "H" [qubit0] [].
Definition gate_CNOT : Gate.t := Gate.mk "CNOT" [qubit0; qubit1] [].
Definition gate_RX : Gate.t := Gate.mk "RX" [qubit0] [Gate.Number (1 # 2)].
Definition gate_RZ : Gate.t :=
  Gate.mk "RZ" [qubit2] [Gate.Expr (Sympy.Symbol "theta")].

Definition bell_gates : list Gate.t := [gate_H; gate_CNOT; gate_RX].
Definition bell_qubits : list Qubit.t := [qubit0; qubit1].

(** A circuit of COMMON gates with numeric parameters, labelled as a cirq
    import. *)
Definition bell : Circuit.t :=
  Circuit.mk "bell" (Some bell_gates) (Some bell_qubits)
             {[ "label" := VStr "cirq" ]}.

(** A second circuit, on the qubits 1 and 2, with a symbolic parameter. *)
Definition tail_gates : list Gate.t := [gate_RZ].
Definition tail_qubits : list Qubit.t := [qubit1; qubit2].
Definition tail : Circuit.t :=
  Circuit.mk "tail" (Some tail_gates) (Some tail_qubits)
             {[ "label" := VStr "pyquil" ]}.

(** The circuit [tail] as an object: its gate list, its qubit list and its
    [info] are the objects 0, 1 and 2 of the store. *)
Definition tail_store : Evaluate.state :=
  Evaluate.mkstate [ Evaluate.GateList tail_gates; Evaluate.QubitList tail_qubits;
                 Evaluate.Dict {[ "label" := VStr "pyquil" ]} ] [].
Definition tail_object : Evaluate.Circuit := Evaluate.mk "tail" 0%nat 1%nat 2%nat.

(** A map with the symbol of [tail] and one that [tail] does not have. *)
Definition theta_phi : list (string * Q) := [("theta", (1 # 2)%Q); ("phi", (1 # 3)%Q)].

(** Two qubits, a gate of each of the three kinds used below. *)
Definition q0 : Qubit.t := Qubit.mk 0 ∅.
Definition q1 : Qubit.t := Qubit.mk 1 ∅.
Definition xx_gate : Gate.t := Gate.mk "XX" [q0; q1] [Gate.Number (1 # 2)].
Definition u1ex_gate : Gate.t :=
  Gate.mk "U1ex" [q0; q1] [Gate.Number (1 # 2); Gate.Number (1 # 3)].
Definition u2ex_gate : Gate.t := Gate.mk "U2ex" [q0; q1] [Gate.Number (1 # 2)].

Definition export (gates : list Gate.t) : result (option Program) :=
  to_pyquil spec_COMMON_GATES spec_UNIQUE_GATES (fun _ => Program_new)
            (Some gates).

(** The registers [a] and [b] hold one qubit each; the circuit applies
    [x] to [a[0]], then twice to [b[0]]. *)
Definition a0 : QiskitQubit := mkQiskitQubit "a" 0.
Definition b0 : QiskitQubit := mkQiskitQubit "b" 0.
Definition two_registers : list QiskitData :=
  [ mkQiskitData "x" [] [a0]; mkQiskitData "x" [] [b0];
    mkQiskitData "x" [] [b0] ].

(** A circuit on the register [a] alone: [x] twice on [a[0]], then [cx]
    on [a[0]] and [a[1]]. *)
Definition a1 : QiskitQubit := mkQiskitQubit "a" 1.
Definition one_register : list QiskitData :=
  [ mkQiskitData "x" [] [a0]; mkQiskitData "x" [] [a0];
    mkQiskitData "cx" [] [a0; a1] ].

(** The sums and products of the test file, as sympy builds them:
    [x - y] is [Add(x, Mul(-1, y))], [1 - x] is [Add(1, Mul(-1, x))],
    [x - 1/y] is [Add(x, Mul(-1, Pow(y, -1)))], [x + 10] is [Add(10, x)],
    [x / y] is [Mul(x, Pow(y, -1))] and [2 * theta] is [Mul(2, theta)]. *)
Definition x : Sympy.expr := Sympy.Symbol "x".
Definition y : Sympy.expr := Sympy.Symbol "y".
Definition z : Sympy.expr := Sympy.Symbol "z".
Definition neg (e : Sympy.expr) : Sympy.expr :=
  Sympy.Mul [Sympy.Integer (-1); e].
Definition inv (e : Sympy.expr) : Sympy.expr :=
  Sympy.Pow e (Sympy.Integer (-1)).
Definition x_minus_y : Sympy.expr := Sympy.Add [x; neg y].
Definition one_minus_x : Sympy.expr := Sympy.Add [Sympy.Integer 1; neg x].
Definition x_minus_inv_y : Sympy.expr := Sympy.Add [x; neg (inv y)].
Definition x_plus_y : Sympy.expr := Sympy.Add [x; y].
Definition x_plus_10 : Sympy.expr := Sympy.Add [Sympy.Integer 10; x].
Definition x_over_y : Sympy.expr := Sympy.Mul [x; inv y].
Definition z_plus_1 : Sympy.expr := Sympy.Add [z; Sympy.Integer 1].
Definition x_over_z_plus_1 : Sympy.expr := Sympy.Mul [x; inv z_plus_1].

(** ** Circuits and programs for the other functions *)

(** [YY(1/3)] on the qubits 0 and 1, a gate of neither catalog, and [XX]
    without its parameter. *)
Definition yy_gate : Gate.t := Gate.mk "YY" [q0; q1] [Gate.Number (1 # 3)].
Definition foo_gate : Gate.t := Gate.mk "FOO" [q0] [].
Definition xx_without_parameter : Gate.t := Gate.mk "XX" [q0; q1] [].

(** Modelled from the spec: [Gate.to_pyquil] is in [_gate.py], which is
    not among the sources.  A COMMON gate is one native instruction with
    the name, the parameters and the qubit indices of the gate. *)
Definition Gate_to_pyquil (g : Gate.t) : Program :=
  mkProgram [] [GateInstr (Gate.name g) (Gate.params g)
                          (map Qubit.index (Gate.qubits g))].

(** The program [bell] is exported to, as [from_pyquil] reads it. *)
Definition bell_program : list PyquilGate :=
  [ mkPyquilGate "H" [] [0%nat]; mkPyquilGate "CNOT" [] [0%nat; 1%nat];
    mkPyquilGate "RX" [Gate.Number (1 # 2)] [0%nat] ].

(** The same program as a [Program] object. *)
Definition bell_pyquil : Program :=
  mkProgram []
    [ GateInstr "H" [] [0%nat]; GateInstr "CNOT" [] [0%nat; 1%nat];
      GateInstr "RX" [Gate.Number (1 # 2)] [0%nat] ].

(** A circuit with three qubits and no gate. *)
Definition idle : Circuit.t :=
  Circuit.mk "idle" (Some []) (Some [qubit0; qubit1; qubit2])
             {[ "label" := VNone ]}.

(** [Qubit.from_cirq] and [Gate.from_cirq] are in [_qubit.py] and
    [_gate.py], which are not among the sources.  The results on
    [from_cirq] hold for every implementation that meets their hypotheses;
    they are run at this one.  The qubit records what [to_cirq] and
    [from_cirq] read of it, its kind under [QubitType] and its key under
    [QubitKey]; the gate keeps the qubit list it is given. *)
Definition Qubit_from_cirq (qubit : Cirq.Qid) (index : Z) : Qubit.t :=
  match qubit with
  | Cirq.LineQubit x =>
      Qubit.mk (Z.to_nat index)
        {[ "label" := VStr "cirq"; "QubitType" := VStr "LineQubit";
           "QubitKey" := VInt x ]}
  | Cirq.GridQubit row col =>
      Qubit.mk (Z.to_nat index)
        {[ "label" := VStr "cirq"; "QubitType" := VStr "GridQubit";
           "QubitKey" := VPair row col ]}
  end.

Definition Gate_from_cirq (op : Cirq.Operation) (_gatequbits : list ref)
  : gate :=
  mkgate "cirq" [] _gatequbits.

(** Two cirq circuits of two moments: [H] on the line qubit 0, then [CNOT]
    on the line qubits 0 and 1; and the same with the grid qubit (0, 1) as
    the target of [CNOT]. *)
Definition line_circuit : list FromCirq.Moment :=
  [ [Cirq.cirq_H (Cirq.LineQubit 0)];
    [Cirq.cirq_CNOT (Cirq.LineQubit 0) (Cirq.LineQubit 1)] ].
Definition mixed_circuit : list FromCirq.Moment :=
  [ [Cirq.cirq_H (Cirq.LineQubit 0)];
    [Cirq.cirq_CNOT (Cirq.LineQubit 0) (Cirq.GridQubit 0 1)] ].


(** [Gate.to_qiskit] and [Gate.to_qpic] are in [_gate.py], which is not
    among the sources.  The results on [to_qiskit] and [to_qpic] hold for
    every implementation; they are run at this one, in which a gate is one
    qiskit instruction, so three entries, and its qpic line is its
    name. *)
Definition Gate_to_qiskit (g : Gate.t)
    (qreg creg : option ToQiskit.Register) : list string :=
  [Gate.name g; "qargs"; "cargs"].

Definition Gate_to_qpic (g : Gate.t) : string := Gate.name g.

(** A gate that returns two entries only. *)
Definition Gate_to_qiskit_short (g : Gate.t)
    (qreg creg : option ToQiskit.Register) : list string :=
  if String.eqb (Gate.name g) "CNOT" then ["cx"; "qargs"]
  else Gate_to_qiskit g qreg creg.

(** The qubits of a cirq circuit, in some order of iteration. *)
Definition three_line_qubits : list Cirq.Qid :=
  [Cirq.LineQubit 2; Cirq.LineQubit 0; Cirq.LineQubit 1].
Definition line_and_grid : list Cirq.Qid :=
  [Cirq.LineQubit 0; Cirq.GridQubit 0 0].

(** A pyquil [CNOT] on the qubits 0 and 2, and a program with a gate that
    is not in the table of [pyquil2cirq]. *)
Definition cnot_0_2 : PyquilGate := mkPyquilGate "CNOT" [] [0%nat; 2%nat].
Definition unsupported_program : list PyquilGate :=
  [ mkPyquilGate "H" [] [0%nat]; mkPyquilGate "FOO" [] [0%nat] ].

(** cirq builds the operations; here an operation is what it is built
    from. *)
Definition make_op (name : string) (exponent : option Gate.param)
    (targets : list Cirq.Qid)
  : result (string * option Gate.param * list Cirq.Qid) :=
  Ok (name, exponent, targets).

End Examples.

(* ===================================================================== *)
(** * Results on [cirq2pyquil] and on [from_cirq.qubit_in_list] *)
(* ===================================================================== *)

Module CirqFacts.
Import Py Cirq.

(** The operations of the three decomposition lists are all found in the
    two tables, so a decomposed gate adds its list as it stands. *)
Lemma add_to_program_known decompose fuel op :
  in_op_maps (gate op) = true →
  add_to_program decompose (S fuel) op = Some (Ok [op]).
Proof. intros Hk. simpl. by rewrite Hk. Qed.

Lemma xx_decomposition decompose fuel exponent q1 q2 :
  add_to_program decompose (S (S fuel)) (mkOp (XXPowGate exponent) [q1; q2])
  = Some (Ok (xx_ops exponent q1 q2)).
Proof. reflexivity. Qed.

Lemma zz_decomposition decompose fuel exponent q1 q2 :
  add_to_program decompose (S (S fuel)) (mkOp (ZZPowGate exponent) [q1; q2])
  = Some (Ok (zz_ops exponent q1 q2)).
Proof. reflexivity. Qed.

(** One unit of fuel is not enough for a gate that is decomposed, and two
    are: the recursion of the source stops after one level. *)
Lemma yy_needs_two_levels decompose exponent q1 q2 :
  add_to_program decompose 1 (mkOp (YYPowGate exponent) [q1; q2]) = None.
Proof. reflexivity. Qed.

(** C2, as stated: the sequence added for [YY] would start with the two
    inverse phase gates [Z**-0.5] and end with the two phase gates
    [Z**0.5].  It does not: for [YY] of exponent [1/4] on the line qubits 0
    and 1 the first operation added is [Z**0.5] on qubit 0. *)
Lemma yy_spec_sequence_refuted :
  add_to_program (fun _ => []) 2
    (mkOp (YYPowGate (1 # 4)) [LineQubit 0; LineQubit 1])
  ≠ Some (Ok (yy_spec_sequence (1 # 4) (LineQubit 0) (LineQubit 1))).
Proof. vm_compute. discriminate. Qed.

(** C2, amended: for every exponent and every pair of qubits, [YY] adds, in
    this order, [Z**0.5] on [q1] and on [q2] (the phase gate S), then
    [H(q1)], [H(q2)], [CNOT(q1, q2)], [rz(exponent * pi)(q2)],
    [CNOT(q1, q2)], [H(q1)], [H(q2)], and last [Z**-0.5] on [q1] and on
    [q2] (the inverse phase gate). *)
Theorem yy_decomposition decompose fuel exponent q1 q2 :
  add_to_program decompose (S (S fuel)) (mkOp (YYPowGate exponent) [q1; q2])
  = Some (Ok [ mkOp (ZPowGate (1 # 2) 0) [q1];
               mkOp (ZPowGate (1 # 2) 0) [q2];
               cirq_H q1;
               cirq_H q2;
               cirq_CNOT q1 q2;
               cirq_rz (times_pi exponent) q2;
               cirq_CNOT q1 q2;
               cirq_H q1;
               cirq_H q2;
               mkOp (ZPowGate (-1 # 2) 0) [q1];
               mkOp (ZPowGate (-1 # 2) 0) [q2] ]).
Proof. reflexivity. Qed.

(** The list is the one of the source, [yy_ops]. *)
Lemma yy_adds_yy_ops decompose fuel exponent q1 q2 :
  add_to_program decompose (S (S fuel)) (mkOp (YYPowGate exponent) [q1; q2])
  = Some (Ok (yy_ops exponent q1 q2)).
Proof. reflexivity. Qed.

(** A grid qubit looked up in a list that starts with a line qubit: the
    kinds differ and the [TypeError] of the source is raised. *)
Lemma qubit_in_list_grid_against_line row col x rest :
  qubit_in_list (GridQubit row col) (LineQubit x :: rest)
  = Raise kind_mismatch.
Proof. reflexivity. Qed.

(** A line qubit looked up in a list that starts with a grid qubit: the
    second test of the loop holds, since it looks at [qubit] twice, and
    [q.x] is read on a grid qubit. *)
Lemma qubit_in_list_line_against_grid x row col rest :
  qubit_in_list (LineQubit x) (GridQubit row col :: rest)
  = Raise (AttributeError "x").
Proof. reflexivity. Qed.

(** The closure by itself, on a list that [from_cirq] never passes to it
    (the list holds line qubits whenever it is called, see
    [FromCirqFacts]): looking up the line qubit 0 in the list that holds
    the grid qubit (0, 0) raises [AttributeError], not the [TypeError] for
    qubits of different kinds. *)
Lemma qubit_in_list_line_against_grid_raises_AttributeError :
  qubit_in_list (LineQubit 0) [GridQubit 0 0] = Raise (AttributeError "x")
  ∧ qubit_in_list (LineQubit 0) [GridQubit 0 0] ≠ Raise kind_mismatch.
Proof. split; [reflexivity | discriminate]. Qed.

(** Qubits of the same kind are compared by their coordinates. *)
Lemma qubit_in_list_line_found x rest :
  qubit_in_list (LineQubit x) (LineQubit x :: rest) = Ok (true, LineKey x).
Proof. simpl. by rewrite Z.eqb_refl. Qed.

Lemma qubit_in_list_grid_found row col rest :
  qubit_in_list (GridQubit row col) (GridQubit row col :: rest)
  = Ok (true, GridKey row col).
Proof. simpl. by rewrite !Z.eqb_refl. Qed.

End CirqFacts.

(* ===================================================================== *)
(** * Results on [add_gate_to_pyquil_program] *)
(* ===================================================================== *)

Module PyquilFacts.
Import Py Pyquil Examples.

Lemma count_defs_app_def n p d :
  count_defs n (add_defgate p d)
  = (count_defs n p + if bool_decide (dg_name d = n) then 1 else 0)%nat.
Proof.
  unfold count_defs, add_defgate. simpl.
  rewrite filter_app, length_app. f_equal.
  rewrite filter_cons, filter_nil.
  case_bool_decide; case_decide; simpl; congruence.
Qed.

Lemma count_defs_add_instr n p i :
  count_defs n (add_instr p i) = count_defs n p.
Proof. reflexivity. Qed.

Lemma gate_already_defined_count defs n :
  gate_already_defined defs n = true
  ↔ (0 < length (filter (fun d => dg_name d = n) defs))%nat.
Proof.
  induction defs as [|d defs IH]; simpl.
  - split; [discriminate | lia].
  - rewrite filter_cons. destruct (String.eqb_spec (dg_name d) n) as [E|E].
    + rewrite decide_True by done. simpl. split; [lia | done].
    + rewrite decide_False by done. simpl. apply IH.
Qed.

Section U1ex.
Variable COMMON_GATES UNIQUE_GATES : list string.
Variable Gate_to_pyquil : Gate.t → Program.
Hypothesis not_common : "U1ex" ∉ COMMON_GATES.
Hypothesis unique : "U1ex" ∈ UNIQUE_GATES.

(** The [U1ex] branch looks for a definition of that name before it adds
    one: a program with no such definition gets one, and a program that
    has one keeps its definitions. *)
Lemma u1ex_adds_definition_once p gate p' :
  Gate.name gate = "U1ex" →
  add_gate_to_pyquil_program COMMON_GATES UNIQUE_GATES Gate_to_pyquil
    (Some p) gate = Ok (Some p') →
  count_defs "U1ex" p'
  = (if bool_decide (count_defs "U1ex" p = 0%nat) then 1%nat
     else count_defs "U1ex" p).
Proof.
  intros Hname. unfold add_gate_to_pyquil_program. rewrite Hname.
  rewrite bool_decide_eq_false_2 by exact not_common.
  rewrite bool_decide_eq_true_2 by exact unique.
  simpl.
  destruct (item (Gate.params gate) 0) as [p0|]; simpl; [|discriminate].
  destruct (item (Gate.params gate) 1) as [p1|]; simpl; [|discriminate].
  destruct (qubit_index gate 0) as [i0|]; simpl; [|discriminate].
  destruct (qubit_index gate 1) as [i1|]; simpl; [|discriminate].
  destruct (gate_already_defined (defined_gates p) "U1ex") eqn:Hdef; simpl;
    intros [= <-].
  - apply gate_already_defined_count in Hdef.
    rewrite count_defs_add_instr.
    rewrite bool_decide_eq_false_2; [done|]. unfold count_defs. lia.
  - rewrite count_defs_app_def, count_defs_add_instr. simpl.
    assert (count_defs "U1ex" p = 0%nat) as ->.
    { unfold count_defs.
      destruct (length (filter (λ d, dg_name d = "U1ex") (defined_gates p)))
        eqn:E; [done|].
      assert (gate_already_defined (defined_gates p) "U1ex" = true)
        by (apply gate_already_defined_count; lia).
      congruence. }
    done.
Qed.

End U1ex.

(** Two applications of [U1ex] in one circuit: one definition. *)
Lemma u1ex_twice_defined_once :
  ∃ p, export [u1ex_gate; u1ex_gate] = Ok (Some p)
       ∧ map dg_name (defined_gates p) = ["U1ex"]
       ∧ length (instructions p) = 2%nat.
Proof. eexists. split; [vm_compute; reflexivity|]. split; reflexivity. Qed.

(** The [U2ex] branch adds [u1ex_def], a variable its own branch never
    assigns: exporting a [U2ex] gate to a program that does not define
    [U2ex] yet raises. *)
Lemma u2ex_raises :
  export [u2ex_gate] = Raise (UnboundLocalError "u1ex_def").
Proof. vm_compute. reflexivity. Qed.

(** C9, at the failing input: a circuit of two [XX] gates is exported to a
    program that holds the definition of [XX] twice. *)
Theorem xx_twice_defined_twice :
  ∃ p, export [xx_gate; xx_gate] = Ok (Some p)
       ∧ map dg_name (defined_gates p) = ["XX"; "XX"]
       ∧ count_defs "XX" p = 2%nat.
Proof. eexists. split; [vm_compute; reflexivity|]. split; reflexivity. Qed.

End PyquilFacts.

(* ===================================================================== *)
(** * Results on [Circuit]: round trip and concatenation *)
(* ===================================================================== *)

Module CircuitFacts.
Import Py Circuit.

Section Facts.
Context `{QM : QubitMethods} `{GM : GateMethods}.
Variable SCHEMA_VERSION : string.

(** The index loop finds no difference between two lists that agree, under
    [ne], at every index of the range. *)
Lemma differ_at_agree {A} (ne : A → A → bool) (a b : list A) range :
  (∀ i, i ∈ range →
        ∃ x y, a !! i = Some x ∧ b !! i = Some y ∧ ne x y = false) →
  differ_at ne a b range = Ok false.
Proof.
  induction range as [|i range IH]; intros Hall; [done|].
  destruct (Hall i) as (x & y & Hx & Hy & Hne); [left|].
  simpl. unfold item. rewrite Hx, Hy. simpl. rewrite Hne.
  apply IH. intros j Hj. apply Hall. by right.
Qed.

Lemma to_dict_from_dict_name c b :
  name (from_dict (to_dict SCHEMA_VERSION c b)) = name c.
Proof. reflexivity. Qed.

Lemma to_dict_from_dict_info c b :
  info (from_dict (to_dict SCHEMA_VERSION c b)) = info c.
Proof. reflexivity. Qed.

Lemma to_dict_from_dict_gates c b :
  gates (from_dict (to_dict SCHEMA_VERSION c b))
  = map (fun g => Gate_from_dict (Gate_to_dict g b)) <$> gates c.
Proof.
  unfold from_dict, to_dict. simpl. destruct (gates c); simpl; [|done].
  by rewrite map_map.
Qed.

Lemma to_dict_from_dict_qubits c b :
  qubits (from_dict (to_dict SCHEMA_VERSION c b))
  = map (fun q => Qubit_from_dict (Qubit_to_dict q)) <$> qubits c.
Proof.
  unfold from_dict, to_dict. simpl. destruct (qubits c); simpl; [|done].
  by rewrite map_map.
Qed.

(** [==] on lists that agree element by element. *)
Lemma eq_pointwise c1 c2 gs1 gs2 qs1 qs2 :
  name c1 = name c2 →
  qubits c1 = Some qs1 → qubits c2 = Some qs2 →
  gates c1 = Some gs1 → gates c2 = Some gs2 →
  Forall2 (fun q1 q2 => Qubit_str q1 = Qubit_str q2) qs1 qs2 →
  Forall2 (fun g1 g2 => Gate_eq g1 g2 = true) gs1 gs2 →
  __eq__ c1 c2 = Ok true.
Proof.
  intros Hn Hq1 Hq2 Hg1 Hg2 Hqs Hgs. unfold __eq__.
  pose proof (Forall2_length _ _ _ Hqs) as Hlq.
  pose proof (Forall2_length _ _ _ Hgs) as Hlg.
  rewrite Hn, String.eqb_refl, Hq1, Hq2, Hg1, Hg2. simpl.
  rewrite <- Hlq, Nat.eqb_refl. simpl.
  rewrite (differ_at_agree _ qs1 qs2); simpl.
  - rewrite <- Hlg, Nat.eqb_refl. simpl.
    rewrite (differ_at_agree _ gs1 gs2); [done|].
    intros i Hi. apply elem_of_seq in Hi as [_ Hi]. simpl in Hi.
    destruct (lookup_lt_is_Some_2 gs1 i Hi) as [x Hx].
    destruct (Forall2_lookup_l _ _ _ _ _ Hgs Hx) as (y & Hy & Hxy).
    exists x, y. by rewrite Hxy.
  - intros i Hi. apply elem_of_seq in Hi as [_ Hi]. simpl in Hi.
    destruct (lookup_lt_is_Some_2 qs1 i Hi) as [x Hx].
    destruct (Forall2_lookup_l _ _ _ _ _ Hqs Hx) as (y & Hy & Hxy).
    exists x, y. by rewrite Hxy, String.eqb_refl.
Qed.

(** C1: a circuit whose gates are all of the COMMON catalog with numeric
    parameters only is equal, for [==], to what [from_dict] reads from its
    [to_dict()].  [Gate] and [Qubit] are any implementation whose own
    dictionary form gives back an equal gate (for such gates) and a qubit
    of the same string form; the circuit has the lists the class
    documents. *)
Theorem from_dict_to_dict_eq (COMMON_GATES : list string) c gs qs :
  (∀ g, common_numeric COMMON_GATES g →
        Gate_eq (Gate_from_dict (Gate_to_dict g true)) g = true) →
  (∀ q, Qubit_str (Qubit_from_dict (Qubit_to_dict q)) = Qubit_str q) →
  gates c = Some gs →
  qubits c = Some qs →
  Forall (common_numeric COMMON_GATES) gs →
  __eq__ (from_dict (to_dict SCHEMA_VERSION c true)) c = Ok true.
Proof.
  intros HG HQ Hgs Hqs Hcommon.
  eapply eq_pointwise.
  - apply to_dict_from_dict_name.
  - rewrite to_dict_from_dict_qubits, Hqs. reflexivity.
  - exact Hqs.
  - rewrite to_dict_from_dict_gates, Hgs. reflexivity.
  - exact Hgs.
  - apply Forall2_fmap_l, Forall_Forall2_diag, Forall_forall. intros q _. apply HQ.
  - apply Forall2_fmap_l, Forall_Forall2_diag.
    eapply Forall_impl; [exact Hcommon|]. intros g Hg. by apply HG.
Qed.

(** When an attribute is [None], as [from_dict] leaves it for a [None]
    entry, [==] raises instead of answering. *)
Lemma eq_without_qubits c1 c2 :
  name c1 = name c2 → qubits c1 = None →
  __eq__ c1 c2 = Raise (TypeError "NoneType").
Proof.
  intros Hn Hq. unfold __eq__. by rewrite Hn, String.eqb_refl, Hq.
Qed.

(** What [a + b] is when both operands have their lists. *)
Lemma add_unfold a b gsa gsb qsa qsb :
  gates a = Some gsa → qubits a = Some qsa →
  gates b = Some gsb → qubits b = Some qsb →
  __add__ a b =
    Ok (mk "Unnamed" (Some (gsa ++ gsb))
          (Some (map Qubit_new
                   (elements (list_to_set (map Qubit.index qsa ++ map Qubit.index qsb)
                              : gset nat))))
          {[ "label" := VNone ]}).
Proof.
  intros Hga Hqa Hgb Hqb. unfold __add__. rewrite Hga, Hqa, Hgb, Hqb. reflexivity.
Qed.

(** C4: the gate list of [a + b] is the gates of [a] followed by the gates
    of [b], and the indices of its qubits are the indices of the qubits of
    [a] and of [b], each once.  [Qubit(i)] is any constructor that gives a
    qubit of index [i]. *)
Theorem add_concatenates_gates_and_unions_qubits a b gsa gsb qsa qsb :
  (∀ i, Qubit.index (Qubit_new i) = i) →
  gates a = Some gsa → qubits a = Some qsa →
  gates b = Some gsb → qubits b = Some qsb →
  ∃ c qs,
    __add__ a b = Ok c
    ∧ gates c = Some (gsa ++ gsb)
    ∧ qubits c = Some qs
    ∧ NoDup (map Qubit.index qs)
    ∧ ∀ i, i ∈ map Qubit.index qs
           ↔ i ∈ map Qubit.index qsa ∨ i ∈ map Qubit.index qsb.
Proof.
  intros Hnew Hga Hqa Hgb Hqb.
  eexists _, _. split; [by apply add_unfold|]. simpl.
  split; [done|]. split; [done|].
  assert (∀ l, map Qubit.index (map Qubit_new l) = l) as Hmap.
  { intros l. rewrite map_map. induction l as [|i l IH]; simpl; [done|].
    by rewrite Hnew, IH. }
  rewrite Hmap. split; [apply NoDup_elements|].
  intros i. rewrite elem_of_elements, elem_of_list_to_set, elem_of_app. done.
Qed.

(** C10: [a + b] is named "Unnamed", its label is [None], and each of its
    qubits is [Qubit(i)] for an index [i]; the result is the same for any
    other operands that have the same gates and the same qubit indices,
    whatever their names, their [info] and the [info] of their qubits. *)
Theorem add_is_unnamed_and_drops_provenance a b gsa gsb qsa qsb :
  gates a = Some gsa → qubits a = Some qsa →
  gates b = Some gsb → qubits b = Some qsb →
  ∃ c qs,
    __add__ a b = Ok c
    ∧ name c = "Unnamed"
    ∧ info c !! "label" = Some VNone
    ∧ qubits c = Some qs
    ∧ Forall (fun q => ∃ i, q = Qubit_new i) qs
    ∧ ∀ a' b' qsa' qsb',
        gates a' = Some gsa → qubits a' = Some qsa' →
        gates b' = Some gsb → qubits b' = Some qsb' →
        map Qubit.index qsa' = map Qubit.index qsa →
        map Qubit.index qsb' = map Qubit.index qsb →
        __add__ a' b' = Ok c.
Proof.
  intros Hga Hqa Hgb Hqb.
  eexists _, _. split; [by apply add_unfold|]. simpl.
  split; [done|]. split; [done|]. split; [done|]. split.
  - apply Forall_forall. intros q Hq.
    apply list_elem_of_fmap in Hq as (i & -> & _). by exists i.
  - intros a' b' qsa' qsb' Hga' Hqa' Hgb' Hqb' Ha Hb.
    rewrite (add_unfold a' b' gsa gsb qsa' qsb') by done.
    by rewrite Ha, Hb.
Qed.

(** With an operand whose qubit list is [None], [+] raises. *)
Lemma add_without_qubits a b :
  qubits a = None → __add__ a b = Raise (TypeError "NoneType").
Proof. intros Hq. unfold __add__. by rewrite Hq. Qed.

End Facts.

End CircuitFacts.

(* ===================================================================== *)
(** * Results on [Circuit.evaluate] *)
(* ===================================================================== *)

Module EvaluateFacts.
Import Py Evaluate.

Section Facts.
Context `{GM : GateMethods}.

(** The test of [evaluate]: the set difference is not empty exactly when
    some symbol of the map is no parameter of the circuit. *)
Lemma difference_test symbols_map gs :
  (0 < size ((list_to_set (map fst symbols_map) : gset string)
             ∖ list_to_set (symbolic_params_of gs)))%nat
  ↔ unmatched_symbol symbols_map gs.
Proof.
  rewrite <- Nat.neq_0_lt_0, size_non_empty_iff. unfold unmatched_symbol. split.
  - intros Hne. apply set_choose in Hne as [sym Hsym].
    apply elem_of_difference in Hsym as [Hin Hnot].
    rewrite elem_of_list_to_set in Hin, Hnot. by exists sym.
  - intros (sym & Hin & Hnot) Hempty.
    apply (not_elem_of_empty (C := gset string) sym).
    rewrite <- Hempty. apply elem_of_difference.
    by rewrite !elem_of_list_to_set.
Qed.

Lemma evaluate_loop_appends r symbols_map gs : ∀ s acc,
  objects s !! r = Some (GateList acc) →
  evaluate_loop r symbols_map gs s
  = Ok ((), mkstate
              (<[r := GateList (acc ++ map (fun g => Gate_evaluate g symbols_map) gs)]>
                 (objects s))
              (warnings s)).
Proof.
  induction gs as [|g gs IH]; intros [objs ws] acc Hr; simpl in *.
  - unfold mret, M_ret. rewrite app_nil_r, list_insert_id by done. done.
  - unfold mbind, M_bind, append_gate. simpl. rewrite Hr.
    rewrite (IH _ (acc ++ [Gate_evaluate g symbols_map])).
    + simpl. rewrite list_insert_insert_eq, <- app_assoc. done.
    + simpl. apply list_lookup_insert_eq. by eapply lookup_lt_Some.
Qed.

(** Lookups in a store that grew by four objects. *)
Lemma lookup_after_allocs (objs : list obj) r o a b c d :
  objs !! r = Some o →
  ((((objs ++ [a]) ++ [b]) ++ [c]) ++ [d]) !! r = Some o.
Proof. intros H. rewrite <- !app_assoc. by apply lookup_app_l_Some. Qed.

Lemma lookup_new_gate_list (objs : list obj) a b c d :
  ((((objs ++ [a]) ++ [b]) ++ [c]) ++ [d]) !! (length objs + 1 + 1 + 1)%nat
  = Some d.
Proof.
  rewrite <- !app_assoc. simpl. rewrite lookup_app_r by lia.
  by replace (length objs + 1 + 1 + 1 - length objs)%nat with 3%nat by lia.
Qed.

Lemma store_after_insert s symbols_map gs :
  <[(length (objects s) + 1 + 1 + 1)%nat :=
      GateList ([] ++ map (fun g => Gate_evaluate g symbols_map) gs)]>
    ((((objects s ++ [GateList []]) ++ [QubitList []]) ++
       [Dict {[ "label" := VNone ]}]) ++ [GateList []])
  = store_after s symbols_map gs.
Proof.
  unfold store_after. rewrite <- !app_assoc. simpl.
  rewrite insert_app_r_alt by lia.
  by replace (length (objects s) + 1 + 1 + 1 - length (objects s))%nat
    with 3%nat by lia.
Qed.

(** What [evaluate] returns and what it leaves in the store. *)
Lemma evaluate_runs self symbols_map s gs :
  objects s !! gates self = Some (GateList gs) →
  evaluate self symbols_map s
  = Ok (mk (name self) (length (objects s) + 3)%nat (qubits self) (info self),
        mkstate (store_after s symbols_map gs)
                (warnings s ++
                   if decide (unmatched_symbol symbols_map gs)
                   then [warning_text] else [])).
Proof.
  intros Hgs. destruct s as [objs ws]. simpl in *.
  pose proof (difference_test symbols_map gs) as Htest.
  unfold evaluate, Circuit_init, symbolic_params.
  unfold mbind, M_bind, mret, M_ret, alloc, read_gates. simpl.
  rewrite !length_app. simpl.
  rewrite (lookup_after_allocs _ _ _ _ _ _ _ Hgs). simpl.
  replace (length objs + 3)%nat with (length objs + 1 + 1 + 1)%nat by lia.
  case_bool_decide as Hb.
  - rewrite decide_True by by apply Htest. unfold warn. simpl.
    rewrite (lookup_after_allocs _ _ _ _ _ _ _ Hgs).
    rewrite (evaluate_loop_appends _ _ _ _ []).
    + simpl. do 3 f_equal. apply (store_after_insert (mkstate objs ws)).
    + simpl. apply lookup_new_gate_list.
  - rewrite decide_False by (intros H; by apply Hb, Htest).
    simpl. rewrite (lookup_after_allocs _ _ _ _ _ _ _ Hgs).
    rewrite (evaluate_loop_appends _ _ _ _ []).
    + simpl. rewrite app_nil_r. do 3 f_equal.
      apply (store_after_insert (mkstate objs ws)).
    + simpl. apply lookup_new_gate_list.
Qed.

(** The parameters of the circuit are the parameters of its gates. *)
Lemma elem_of_add_params x l : ∀ acc,
  x ∈ add_params acc l ↔ x ∈ acc ∨ x ∈ l.
Proof.
  unfold add_params. induction l as [|p l IH]; intros acc; simpl.
  - rewrite elem_of_nil. tauto.
  - rewrite IH, elem_of_cons. case_bool_decide as Hp.
    + split; [tauto|]. intros [H|[->|H]]; tauto.
    + rewrite elem_of_app, list_elem_of_singleton. tauto.
Qed.

Lemma elem_of_symbolic_params_of x gs :
  x ∈ symbolic_params_of gs ↔ ∃ g, g ∈ gs ∧ x ∈ Gate_symbolic_params g.
Proof.
  unfold symbolic_params_of.
  assert (∀ acc,
    x ∈ foldl (fun acc gate => add_params acc (Gate_symbolic_params gate)) acc gs
    ↔ x ∈ acc ∨ ∃ g, g ∈ gs ∧ x ∈ Gate_symbolic_params g) as H.
  { induction gs as [|g gs IH]; intros acc; simpl.
    - split; [tauto|]. intros [H|(g & Hg & _)]; [done|]. by apply elem_of_nil in Hg.
    - rewrite IH, elem_of_add_params. split.
      + intros [[H|H]|(g' & Hg' & H)]; [tauto| |].
        * right. exists g. split; [left|done].
        * right. exists g'. split; [by right|done].
      + intros [H|(g' & Hg' & H)]; [tauto|].
        apply elem_of_cons in Hg' as [->|Hg']; [tauto|].
        right. by exists g'. }
  rewrite H, elem_of_nil. tauto.
Qed.

(** For a gate of the circuit, the symbols of the map that are parameters
    of the gate are the same before and after the symbols that are no
    parameter of the circuit are dropped. *)
Lemma matched_gate_of_circuit g gs symbols_map :
  g ∈ gs →
  matched (Gate_symbolic_params g) (matched (symbolic_params_of gs) symbols_map)
  = matched (Gate_symbolic_params g) symbols_map.
Proof.
  intros Hg. unfold matched. apply list_filter_filter_l.
  intros item Hitem. apply elem_of_symbolic_params_of. by exists g.
Qed.

Lemma matched_is_matched gs symbols_map :
  ¬ unmatched_symbol (matched (symbolic_params_of gs) symbols_map) gs.
Proof.
  intros (sym & Hin & Hnot). apply Hnot.
  apply list_elem_of_fmap in Hin as ([sym' v] & -> & Hin).
  unfold matched in Hin. by apply list_elem_of_filter in Hin as [Hin _].
Qed.

(** C5: [evaluate] warns exactly when the map holds a symbol that is no
    parameter of the circuit; it returns the new circuit in both cases,
    and the circuit and the store are the ones it produces from the
    matched symbols alone, without a warning.  [Gate.evaluate] is any
    implementation that looks only at the symbols of its own gate. *)
Theorem evaluate_warns_iff_unmatched_and_completes self symbols_map s gs :
  (∀ g m, Gate_evaluate g m
          = Gate_evaluate g (matched (Gate_symbolic_params g) m)) →
  objects s !! gates self = Some (GateList gs) →
  ∃ c' s',
    evaluate self symbols_map s = Ok (c', s')
    ∧ (warnings s' = warnings s ++ [warning_text]
       ↔ unmatched_symbol symbols_map gs)
    ∧ (warnings s' = warnings s ↔ ¬ unmatched_symbol symbols_map gs)
    ∧ objects s' !! gates c'
      = Some (GateList (map (fun g => Gate_evaluate g symbols_map) gs))
    ∧ evaluate self (matched (symbolic_params_of gs) symbols_map) s
      = Ok (c', mkstate (objects s') (warnings s)).
Proof.
  intros Hignore Hgs. eexists _, _.
  split; [by apply evaluate_runs|]. simpl.
  assert (warnings s ++ [warning_text] ≠ warnings s) as Hneq.
  { intros H. apply (f_equal length) in H. rewrite length_app in H.
    simpl in H. lia. }
  split; [|split; [|split]].
  - destruct (decide (unmatched_symbol symbols_map gs)) as [U|U].
    + tauto.
    + rewrite app_nil_r. split; [intros H; by destruct Hneq|tauto].
  - destruct (decide (unmatched_symbol symbols_map gs)) as [U|U].
    + split; [intros H; by destruct Hneq|tauto].
    + rewrite app_nil_r. tauto.
  - unfold store_after. rewrite lookup_app_r by lia.
    by replace (length (objects s) + 3 - length (objects s))%nat
      with 3%nat by lia.
  - rewrite (evaluate_runs _ _ _ gs) by done.
    rewrite decide_False by apply matched_is_matched.
    rewrite app_nil_r. do 3 f_equal. unfold store_after. do 6 f_equal.
    apply map_ext_in. intros g Hg. apply list_elem_of_In in Hg.
    rewrite (Hignore g symbols_map).
    rewrite (Hignore g (matched _ symbols_map)).
    by rewrite matched_gate_of_circuit.
Qed.

(** C6: the circuit [evaluate] returns has the name of [self] and, as its
    qubit list and its [info], the very objects of [self]; its gate list
    is an object that did not exist before, and no object that existed is
    changed. *)
Theorem evaluate_shares_qubits_and_info self symbols_map s gs :
  objects s !! gates self = Some (GateList gs) →
  ∃ c' s',
    evaluate self symbols_map s = Ok (c', s')
    ∧ name c' = name self
    ∧ qubits c' = qubits self
    ∧ info c' = info self
    ∧ objects s !! gates c' = None
    ∧ objects s' !! gates c'
      = Some (GateList (map (fun g => Gate_evaluate g symbols_map) gs))
    ∧ ∀ r o, objects s !! r = Some o → objects s' !! r = Some o.
Proof.
  intros Hgs. eexists _, _.
  split; [by apply evaluate_runs|]. simpl.
  do 3 (split; [done|]). split; [|split].
  - apply lookup_ge_None. lia.
  - unfold store_after. rewrite lookup_app_r by lia.
    by replace (length (objects s) + 3 - length (objects s))%nat
      with 3%nat by lia.
  - intros r o Hr. unfold store_after. by apply lookup_app_l_Some.
Qed.

(** Sharing observed: an entry written into the [info] of the new circuit
    is read back from the [info] of [self]. *)
Lemma evaluate_info_is_aliased self symbols_map s gs d c' s' key value :
  objects s !! gates self = Some (GateList gs) →
  objects s !! info self = Some (Dict d) →
  evaluate self symbols_map s = Ok (c', s') →
  ∃ s'', dict_set (info c') key value s' = Ok ((), s'')
         ∧ dict_get (info self) key s'' = Ok (value, s'').
Proof.
  intros Hgs Hd Hev. rewrite (evaluate_runs _ _ _ gs) in Hev by done.
  injection Hev as <- <-. simpl.
  unfold dict_set, dict_get. simpl.
  assert (store_after s symbols_map gs !! info self = Some (Dict d)) as Hd'
    by by apply lookup_app_l_Some.
  rewrite Hd'. eexists. split; [done|]. simpl.
  rewrite list_lookup_insert_eq by by eapply lookup_lt_Some.
  by rewrite lookup_insert_eq.
Qed.

End Facts.

End EvaluateFacts.

(* ===================================================================== *)
(** * Results on the implementation of the methods *)
(* ===================================================================== *)

Module SpecModelFacts.
Import SpecModel.

Lemma Qubit_new_index i : Qubit.index (Qubit_new i) = i.
Proof. reflexivity. Qed.

Lemma Qubit_round_trip q :
  Qubit_str (Qubit_from_dict (Qubit_to_dict q)) = Qubit_str q.
Proof. reflexivity. Qed.

Lemma params_eqb_numeric ps :
  Forall (fun p => Gate.is_number p = true) ps →
  params_eqb (map entry_to_param (map (param_to_entry true) ps)) ps = true.
Proof.
  induction 1 as [|p ps Hp _ IH]; [done|]. simpl.
  destruct p as [v|e]; [|discriminate]. simpl.
  by rewrite Qeq_bool_refl, IH.
Qed.

Lemma Gate_round_trip COMMON_GATES g :
  Circuit.common_numeric COMMON_GATES g →
  Gate_eq (Gate_from_dict (Gate_to_dict g true)) g = true.
Proof.
  intros [_ Hnum]. simpl.
  rewrite String.eqb_refl, params_eqb_numeric by done.
  rewrite !map_map. simpl. rewrite bool_decide_eq_true_2; [done|].
  reflexivity.
Qed.

(** Induction on expressions, with the hypothesis for every argument of a
    sum or product. *)
Lemma expr_ind_args (P : Sympy.expr → Prop) :
  (∀ name, P (Sympy.Symbol name)) →
  (∀ n, P (Sympy.Integer n)) →
  (∀ p q, P (Sympy.Rational p q)) →
  (∀ v, P (Sympy.Float v)) →
  P Sympy.ImaginaryUnit →
  (∀ args, Forall P args → P (Sympy.Add args)) →
  (∀ args, Forall P args → P (Sympy.Mul args)) →
  (∀ b x, P b → P x → P (Sympy.Pow b x)) →
  ∀ e, P e.
Proof.
  intros HS HI HR HF HU HA HM HP.
  fix IH 1. intros [name|n|p q|v| |args|args|b x].
  - apply HS.
  - apply HI.
  - apply HR.
  - apply HF.
  - apply HU.
  - apply HA. induction args as [|a args IHargs]; constructor; [apply IH|done].
  - apply HM. induction args as [|a args IHargs]; constructor; [apply IH|done].
  - apply HP; apply IH.
Qed.

Lemma elem_of_concat {A} (x : A) (l : list A) (ls : list (list A)) :
  x ∈ l → l ∈ ls → x ∈ concat ls.
Proof.
  intros Hx Hl. induction Hl as [l' ls|l' l'' ls _ IH]; simpl;
    apply elem_of_app; tauto.
Qed.

Lemma assoc_filter (S : list string) sym symbols_map :
  sym ∈ S →
  assoc sym (filter (fun item => item.1 ∈ S) symbols_map)
  = assoc sym symbols_map.
Proof.
  intros Hin. induction symbols_map as [|[sym' v] rest IH]; [done|].
  rewrite filter_cons. simpl. destruct (String.eqb_spec sym sym') as [<-|Hne].
  - rewrite decide_True by done. simpl. by rewrite String.eqb_refl.
  - case_decide; simpl; [|done].
    destruct (String.eqb_spec sym sym'); [done|]. exact IH.
Qed.

Lemma subs_filter (S : list string) symbols_map e :
  (∀ sym, sym ∈ free_symbols e → sym ∈ S) →
  subs (filter (fun item => item.1 ∈ S) symbols_map) e = subs symbols_map e.
Proof.
  induction e as [name|n|p q|v| |args IH|args IH|b x IHb IHx]
    using expr_ind_args; intros Hsub; simpl in *; try done.
  - rewrite assoc_filter; [done|]. apply Hsub. by left.
  - f_equal. apply map_ext_in. intros a Ha. apply list_elem_of_In in Ha.
    rewrite Forall_forall in IH. apply (IH a Ha).
    intros sym Hsym. apply Hsub.
    apply (elem_of_concat _ (free_symbols a)); [done|].
    by apply list_elem_of_fmap_2.
  - f_equal. apply map_ext_in. intros a Ha. apply list_elem_of_In in Ha.
    rewrite Forall_forall in IH. apply (IH a Ha).
    intros sym Hsym. apply Hsub.
    apply (elem_of_concat _ (free_symbols a)); [done|].
    by apply list_elem_of_fmap_2.
  - rewrite IHb, IHx; [done| |]; intros sym Hsym; apply Hsub, elem_of_app; tauto.
Qed.

(** [Gate.evaluate] looks only at the symbols of its gate. *)
Lemma Gate_evaluate_matched g m :
  Gate_evaluate g m
  = Gate_evaluate g (Evaluate.matched (Gate_symbolic_params g) m).
Proof.
  simpl. f_equal. apply map_ext_in. intros p Hp. apply list_elem_of_In in Hp.
  destruct p as [v|e]; simpl; [done|]. f_equal.
  unfold Evaluate.matched. rewrite subs_filter; [done|].
  intros sym Hsym. apply (elem_of_concat _ (free_symbols e)); [done|].
  change (free_symbols e) with (param_symbols (Gate.Expr e)).
  by apply list_elem_of_fmap_2.
Qed.

End SpecModelFacts.

(* ===================================================================== *)
(** * Results on the expression-tree builder *)
(* ===================================================================== *)

Module SymbolicExpressionsFacts.
Import SymbolicExpressions Examples.

(** *** The cases of [symbolic_expressions_test.py] *)

Example test_symbols_are_converted_to_instance_of_symbol_class :
  expression_tree_from_sympy (Sympy.Symbol "theta") = Symbol "theta"
  ∧ expression_tree_from_sympy (Sympy.Symbol "x") = Symbol "x"
  ∧ expression_tree_from_sympy (Sympy.Symbol "c_i") = Symbol "c_i".
Proof. repeat split. Qed.

Example test_sympy_numbers_are_converted_to_corresponding_native_number :
  expression_tree_from_sympy (Sympy.Integer 2) = Literal (Int 2)
  ∧ expression_tree_from_sympy (Sympy.Float (-5 # 2)) = Literal (Real (-5 # 2))
  ∧ expression_tree_from_sympy (Sympy.Rational 3 8) = Literal (Real (3 # 8)).
Proof. repeat split. Qed.

Example test_imaginary_unit_is_converted_to_1j :
  expression_tree_from_sympy Sympy.ImaginaryUnit = Literal (Complex 0 1).
Proof. reflexivity. Qed.

Example test_sympy_add_is_converted_to_function_call_with_add_operation :
  expression_tree_from_sympy
    (Sympy.Add [Sympy.Integer 1; Sympy.Integer 2; Sympy.Integer 3])
  = FunctionCall "add" [Literal (Int 1); Literal (Int 2); Literal (Int 3)]
  ∧ expression_tree_from_sympy (Sympy.Add [x; Sympy.Integer 1])
    = FunctionCall "add" [Symbol "x"; Literal (Int 1)]
  ∧ expression_tree_from_sympy (Sympy.Add [x; y; z])
    = FunctionCall "add" [Symbol "x"; Symbol "y"; Symbol "z"].
Proof. repeat split. Qed.

Example test_sympy_mul_is_converted_to_function_call_with_mul_operation :
  expression_tree_from_sympy
    (Sympy.Mul [Sympy.Integer 4; Sympy.Integer 2; Sympy.Integer 3])
  = FunctionCall "mul" [Literal (Int 4); Literal (Int 2); Literal (Int 3)]
  ∧ expression_tree_from_sympy (Sympy.Mul [x; Sympy.Integer 2])
    = FunctionCall "mul" [Symbol "x"; Literal (Int 2)]
  ∧ expression_tree_from_sympy (Sympy.Mul [x; y; z])
    = FunctionCall "mul" [Symbol "x"; Symbol "y"; Symbol "z"].
Proof. repeat split. Qed.

Example test_mul_resulting_from_division_is_classified :
  is_multiplication_by_reciprocal x_over_y = true
  ∧ is_multiplication_by_reciprocal x_over_z_plus_1 = true.
Proof. repeat split. Qed.

Example test_mul_not_resulting_from_division_is_not_classified :
  is_multiplication_by_reciprocal (Sympy.Mul [x; y]) = false
  ∧ is_multiplication_by_reciprocal
      (Sympy.Mul [Sympy.Integer 2; Sympy.Symbol "theta"]) = false
  ∧ is_multiplication_by_reciprocal (Sympy.Mul [x; y; z]) = false.
Proof. repeat split. Qed.

Example test_division_is_converted_into_div_function_call :
  expression_tree_from_sympy x_over_y
  = FunctionCall "div" [Symbol "x"; Symbol "y"]
  ∧ expression_tree_from_sympy x_over_z_plus_1
    = FunctionCall "div"
        [Symbol "x"; FunctionCall "add" [Symbol "z"; Literal (Int 1)]].
Proof. repeat split. Qed.

Example test_add_resulting_from_subtraction_is_classified :
  is_addition_of_negation x_minus_y = true
  ∧ is_addition_of_negation x_minus_inv_y = true
  ∧ is_addition_of_negation one_minus_x = true.
Proof. repeat split. Qed.

(** The note of the test file: [x - 1] reaches the builder as
    [Add(-1, x)], which is no addition of a negation. *)
Example test_add_not_resulting_from_subtraction_is_not_classified :
  is_addition_of_negation x_plus_y = false
  ∧ is_addition_of_negation x_plus_10 = false
  ∧ is_addition_of_negation (Sympy.Add [Sympy.Integer (-1); x]) = false.
Proof. repeat split. Qed.

Example test_add_resulting_from_subtraction_is_converted_to_sub :
  expression_tree_from_sympy x_minus_y
  = FunctionCall "sub" [Symbol "x"; Symbol "y"]
  ∧ expression_tree_from_sympy one_minus_x
    = FunctionCall "sub" [Literal (Int 1); Symbol "x"].
Proof. repeat split. Qed.

(** *** The builder and the two classifications *)

Lemma on_negation_parts {A} e (yes : Sympy.expr → list Sympy.expr → A) no :
  on_negation e yes no
  = match negation_parts e with
    | Some (t, rest) => yes t rest
    | None => no
    end.
Proof.
  destruct e as [| | | | | |args|]; try reflexivity.
  destruct args as [|a [|t rest]]; try reflexivity;
    destruct a as [|n| | | | | |]; try reflexivity;
    destruct n as [|p|[p|p|]]; reflexivity.
Qed.

Lemma negated_term_parts e :
  negated_term e = (fun p => product_of p.1 p.2) <$> negation_parts e.
Proof.
  unfold negated_term. rewrite on_negation_parts.
  by destruct (negation_parts e) as [[t rest]|].
Qed.

Lemma is_negation_parts e :
  is_negation e = match negation_parts e with Some _ => true | None => false end.
Proof.
  unfold is_negation. rewrite on_negation_parts.
  by destruct (negation_parts e) as [[t rest]|].
Qed.

(** The builder on the term under a negation. *)
Lemma build_product_of t rest :
  match rest with
  | [] => expression_tree_from_sympy t
  | _ :: _ => expression_tree_from_sympy (Sympy.Mul (t :: rest))
  end
  = expression_tree_from_sympy (product_of t rest).
Proof. by destruct rest. Qed.

(** The builder on a sum of two children, one step of its definition. *)
Lemma build_Add2_unfold a b :
  expression_tree_from_sympy (Sympy.Add [a; b])
  = let add := FunctionCall "add" [ expression_tree_from_sympy a;
                                    expression_tree_from_sympy b ] in
    let term := fun t rest =>
      match rest with
      | [] => expression_tree_from_sympy t
      | _ :: _ => expression_tree_from_sympy (Sympy.Mul (t :: rest))
      end in
    on_negation a
      (fun t rest =>
         on_negation b (fun _ _ => add)
           (FunctionCall "sub" [expression_tree_from_sympy b; term t rest]))
      (on_negation b
         (fun t rest =>
            FunctionCall "sub" [expression_tree_from_sympy a; term t rest])
         add).
Proof. reflexivity. Qed.

Lemma build_Add2 a b :
  expression_tree_from_sympy (Sympy.Add [a; b])
  = match negation_parts a, negation_parts b with
    | Some _, Some _ | None, None =>
        FunctionCall "add"
          [expression_tree_from_sympy a; expression_tree_from_sympy b]
    | Some (t, rest), None =>
        FunctionCall "sub"
          [ expression_tree_from_sympy b;
            expression_tree_from_sympy (product_of t rest) ]
    | None, Some (t, rest) =>
        FunctionCall "sub"
          [ expression_tree_from_sympy a;
            expression_tree_from_sympy (product_of t rest) ]
    end.
Proof.
  rewrite build_Add2_unfold. cbv zeta. rewrite (on_negation_parts a).
  destruct (negation_parts a) as [[ta ra]|];
    rewrite (on_negation_parts b);
    destruct (negation_parts b) as [[tb rb]|];
    rewrite ?build_product_of; reflexivity.
Qed.

(** A sum of another number of children is an [add]. *)
Lemma build_Add_other args :
  length args ≠ 2%nat →
  expression_tree_from_sympy (Sympy.Add args)
  = FunctionCall "add" (map expression_tree_from_sympy args).
Proof. destruct args as [|a [|b [|c args]]]; try reflexivity. done. Qed.

Lemma is_addition_of_negation_split e :
  is_addition_of_negation e = true ↔ is_Some (split_subtraction e).
Proof.
  destruct e as [| | | | |args| |]; simpl;
    try (split; [discriminate | intros [? [=]]]).
  destruct args as [|a [|b [|c args]]]; simpl;
    try (split; [discriminate | intros [? [=]]]).
  rewrite !is_negation_parts, !negated_term_parts.
  destruct (negation_parts a), (negation_parts b); simpl;
    split; try discriminate; try (intros [? [=]]); eauto.
Qed.

(** C7: a sum of two children of which exactly one is a negation is
    rebuilt as [FunctionCall("sub", (minuend, subtrahend))], the minuend
    being the child that is not negated and the subtrahend the term under
    the negation; [1 - x], which arrives as [Add(1, Mul(-1, x))], gives
    [FunctionCall("sub", (1, Symbol("x")))]; [x + y] gives
    [FunctionCall("add", (Symbol("x"), Symbol("y")))], and so does, with
    its own children, every sum that is no addition of a negation. *)
Theorem addition_of_negation_is_rebuilt_as_sub :
  (∀ a b, xorb (is_negation a) (is_negation b) = true →
     ∃ minuend subtrahend,
       split_subtraction (Sympy.Add [a; b]) = Some (minuend, subtrahend)
       ∧ expression_tree_from_sympy (Sympy.Add [a; b])
         = FunctionCall "sub" [ expression_tree_from_sympy minuend;
                                expression_tree_from_sympy subtrahend ])
  ∧ expression_tree_from_sympy one_minus_x
    = FunctionCall "sub" [Literal (Int 1); Symbol "x"]
  ∧ expression_tree_from_sympy x_plus_y
    = FunctionCall "add" [Symbol "x"; Symbol "y"]
  ∧ (∀ args, is_addition_of_negation (Sympy.Add args) = false →
       expression_tree_from_sympy (Sympy.Add args)
       = FunctionCall "add" (map expression_tree_from_sympy args)).
Proof.
  split; [|split; [reflexivity|split; [reflexivity|]]].
  - intros a b Hx. rewrite build_Add2. simpl.
    rewrite !is_negation_parts in Hx. rewrite !negated_term_parts.
    destruct (negation_parts a) as [[ta ra]|], (negation_parts b) as [[tb rb]|];
      try discriminate Hx; simpl; eauto.
  - intros args Hc.
    destruct args as [|a [|b [|c args]]]; try reflexivity.
    rewrite build_Add2. simpl in Hc. rewrite !is_negation_parts in Hc.
    destruct (negation_parts a) as [[ta ra]|], (negation_parts b) as [[tb rb]|];
      try discriminate Hc; reflexivity.
Qed.

(** C7 at [x - 1/y], which arrives as [Add(x, Mul(-1, Pow(y, -1)))]. *)
Lemma addition_of_negation_is_rebuilt_as_sub_witness :
  xorb (is_negation x) (is_negation (neg (inv y))) = true
  ∧ ∃ minuend subtrahend,
      split_subtraction x_minus_inv_y = Some (minuend, subtrahend)
      ∧ expression_tree_from_sympy x_minus_inv_y
        = FunctionCall "sub" [ expression_tree_from_sympy minuend;
                               expression_tree_from_sympy subtrahend ].
Proof.
  split; [reflexivity|].
  apply (proj1 addition_of_negation_is_rebuilt_as_sub x (neg (inv y))).
  reflexivity.
Defined.

End SymbolicExpressionsFacts.

(* ===================================================================== *)
(** * Results on the importers *)
(* ===================================================================== *)

Module ImportersFacts.
Import Py Importers Examples.

Lemma first_with_index_None objs i :
  first_with_index objs i = None ↔ i ∉ map Qubit.index objs.
Proof.
  induction objs as [|o objs IH]; simpl.
  - split; [intros _; apply not_elem_of_nil | done].
  - rewrite not_elem_of_cons. destruct (Nat.eqb_spec (Qubit.index o) i) as [E|E].
    + split; [discriminate | intros [H _]; congruence].
    + destruct (first_with_index objs i); simpl.
      * split; [discriminate|]. intros [_ H]. by apply IH in H.
      * split; [|done]. intros _. split; [congruence | by apply IH].
Qed.

Lemma first_with_index_lookup objs i q :
  first_with_index objs i = Some q →
  ∃ o, objs !! q = Some o ∧ Qubit.index o = i.
Proof.
  revert q. induction objs as [|o objs IH]; intros q; simpl; [discriminate|].
  destruct (Nat.eqb_spec (Qubit.index o) i) as [E|E].
  - intros [= <-]. by exists o.
  - destruct (first_with_index objs i) as [q'|]; simpl; [|discriminate].
    intros [= <-]. by apply IH.
Qed.

Lemma first_with_index_app objs ext i q :
  first_with_index objs i = Some q →
  first_with_index (objs ++ ext) i = Some q.
Proof.
  revert q. induction objs as [|o objs IH]; intros q; simpl; [discriminate|].
  destruct (Nat.eqb_spec (Qubit.index o) i) as [E|E]; [done|].
  destruct (first_with_index objs i) as [q'|]; simpl; [|discriminate].
  intros [= <-]. by rewrite (IH q').
Qed.

Lemma first_with_index_new objs o :
  Qubit.index o ∉ map Qubit.index objs →
  first_with_index (objs ++ [o]) (Qubit.index o) = Some (length objs).
Proof.
  induction objs as [|o' objs IH]; simpl; intros Hnot.
  - by rewrite Nat.eqb_refl.
  - apply not_elem_of_cons in Hnot as [Hne Hnot].
    destruct (Nat.eqb_spec (Qubit.index o') (Qubit.index o)); [congruence|].
    by rewrite IH.
Qed.

Lemma resolved_app objs ext native refs :
  resolved objs native refs → resolved (objs ++ ext) native refs.
Proof.
  unfold resolved. intros H. eapply Forall2_impl; [exact H|].
  intros i q. apply first_with_index_app.
Qed.

Lemma gates_resolved_app objs ext program gs :
  gates_resolved objs program gs → gates_resolved (objs ++ ext) program gs.
Proof.
  unfold gates_resolved. intros H. eapply Forall2_impl; [exact H|].
  intros g ig. apply resolved_app.
Qed.

(** The closure [qubit_in_list] tells whether the index was seen. *)
Lemma pyquil_qubit_in_list_spec qubit qubitlist :
  pyquil_qubit_in_list qubit qubitlist
  = if bool_decide (qubit ∈ qubitlist) then (true, Some qubit)
    else (false, None).
Proof.
  induction qubitlist as [|q rest IH]; cbn [pyquil_qubit_in_list].
  - by rewrite bool_decide_eq_false_2 by apply not_elem_of_nil.
  - destruct (Nat.eqb_spec qubit q) as [->|Hne].
    + by rewrite bool_decide_eq_true_2 by left.
    + rewrite IH. case_bool_decide as Hin.
      * by rewrite bool_decide_eq_true_2 by by right.
      * rewrite bool_decide_eq_false_2; [done|].
        intros H. apply elem_of_cons in H as [?|?]; congruence.
Qed.

(** The search loop, started anywhere in the qubit list, finds the first
    object of the index. *)
Lemma pyquil_search_seq i old objs : ∀ pre,
  pyquil_search (pre ++ objs) (seq (length pre) (length objs)) (Some i) old
  = Ok (match first_with_index objs i with
        | Some j => Some (length pre + j)%nat
        | None => old
        end).
Proof.
  induction objs as [|o objs IH]; intros pre; simpl; [done|].
  unfold deref. rewrite lookup_app_r, Nat.sub_diag by lia. simpl.
  destruct (Nat.eqb_spec (Qubit.index o) i) as [E|E].
  - rewrite bool_decide_eq_true_2 by congruence. do 3 f_equal. lia.
  - rewrite bool_decide_eq_false_2 by congruence.
    specialize (IH (pre ++ [o])). rewrite <- app_assoc in IH. simpl in IH.
    rewrite length_app in IH. simpl in IH.
    replace (length pre + 1)%nat with (S (length pre)) in IH by lia.
    rewrite IH. destruct (first_with_index objs i); simpl; [|done].
    do 3 f_equal. lia.
Qed.

(** One operand: the reference appended is the first object of the index
    of the operand, the arena only grows, and the gates are untouched. *)
Lemma pyquil_operand_spec l _gatequbits qubit :
  invariant l →
  ∃ l' q,
    pyquil_operand (l, _gatequbits) qubit = Ok (l', _gatequbits ++ [q])
    ∧ invariant l'
    ∧ first_with_index (objects l') qubit = Some q
    ∧ (∃ ext, objects l' = objects l ++ ext)
    ∧ _gatelist l' = _gatelist l.
Proof.
  intros [Hq Hn Hd]. unfold pyquil_operand.
  rewrite pyquil_qubit_in_list_spec. case_bool_decide as Hin; simpl.
  - pose proof (pyquil_search_seq qubit (_old_Qubit l) (objects l) []) as Hs.
    simpl in Hs. rewrite Hq, Hs.
    destruct (first_with_index (objects l) qubit) as [q|] eqn:Hf.
    + simpl.
      exists (mklocals (objects l) (_native_qubits l)
                (seq 0 (length (objects l))) (Some q) (_gatelist l)), q.
      rewrite <- Hq. split; [done|]. split; [by constructor|].
      split; [done|]. split; [|done]. exists []. by rewrite app_nil_r.
    + apply first_with_index_None in Hf. rewrite Hn in Hf. done.
  - eexists _, _. split; [done|]. simpl.
    split; [|split; [|split; [by eexists|done]]].
    + constructor; simpl.
      * rewrite length_app, Hq. simpl. by rewrite seq_app.
      * rewrite map_app, Hn. done.
      * apply NoDup_app. split; [done|]. split; [|apply NoDup_singleton].
        intros x Hx Hx'. apply list_elem_of_singleton in Hx'. congruence.
    + apply (first_with_index_new _ (Qubit_from_pyquil qubit)).
      simpl. by rewrite Hn.
Qed.

(** The loop over the operands of one instruction. *)
Lemma pyquil_operands_spec operands : ∀ l done _gatequbits,
  invariant l →
  resolved (objects l) done _gatequbits →
  ∃ l' _gatequbits',
    for_each pyquil_operand (l, _gatequbits) operands = Ok (l', _gatequbits')
    ∧ invariant l'
    ∧ resolved (objects l') (done ++ operands) _gatequbits'
    ∧ (∃ ext, objects l' = objects l ++ ext)
    ∧ _gatelist l' = _gatelist l.
Proof.
  induction operands as [|qubit operands IH]; intros l done gq Hinv Hres.
  - exists l, gq. simpl. rewrite app_nil_r.
    split; [done|]. split; [done|]. split; [done|].
    split; [|done]. exists []. by rewrite app_nil_r.
  - destruct (pyquil_operand_spec l gq qubit Hinv)
      as (l1 & q & Hstep & Hinv1 & Hq & [ext1 Hext1] & Hg1).
    destruct (IH l1 (done ++ [qubit]) (gq ++ [q]) Hinv1)
      as (l' & gq' & Hloop & Hinv' & Hres' & [ext' Hext'] & Hg').
    { apply Forall2_app; [|by repeat constructor].
      rewrite Hext1. by apply resolved_app. }
    exists l', gq'. cbn [for_each]. rewrite Hstep.
    split; [exact Hloop|]. split; [done|].
    split; [by rewrite <- app_assoc in Hres'|].
    split; [|congruence].
    exists (ext1 ++ ext'). by rewrite Hext', Hext1, <- app_assoc.
Qed.

Lemma pyquil_instruction_runs l g l1 _gatequbits :
  for_each pyquil_operand (l, []) (pq_qubits g) = Ok (l1, _gatequbits) →
  pyquil_instruction l g
  = Ok (mklocals (objects l1) (_native_qubits l1) (_qubits l1)
                 (_old_Qubit l1)
                 (_gatelist l1 ++ [Gate_from_pyquil g _gatequbits])).
Proof. intros H. unfold pyquil_instruction. by rewrite H. Qed.

(** The loop over the instructions. *)
Lemma pyquil_instructions_spec program : ∀ l done,
  invariant l →
  gates_resolved (objects l) done (_gatelist l) →
  ∃ l',
    for_each pyquil_instruction l program = Ok l'
    ∧ invariant l'
    ∧ gates_resolved (objects l') (done ++ program) (_gatelist l').
Proof.
  induction program as [|g program IH]; intros l done Hinv Hres.
  - exists l. simpl. by rewrite app_nil_r.
  - destruct (pyquil_operands_spec (pq_qubits g) l [] [] Hinv)
      as (l1 & gq & Hloop & Hinv1 & Hres1 & [ext Hext] & Hg1);
      [constructor|].
    set (l2 := mklocals (objects l1) (_native_qubits l1) (_qubits l1)
                 (_old_Qubit l1)
                 (_gatelist l1 ++ [Gate_from_pyquil g gq])).
    destruct (IH l2 (done ++ [g])) as (l' & Hloop' & Hinv' & Hres').
    { destruct Hinv1. by constructor. }
    { simpl. apply Forall2_app.
      - rewrite Hg1, Hext. by apply gates_resolved_app.
      - repeat constructor. exact Hres1. }
    exists l'. cbn [for_each].
    rewrite (pyquil_instruction_runs _ _ _ _ Hloop).
    split; [exact Hloop'|]. split; [done|].
    by rewrite <- app_assoc in Hres'.
Qed.

(** A list without repetition in which [q] is the one element that
    satisfies [P]. *)
Lemma filter_unique {A} (P : A → Prop) `{!∀ x, Decision (P x)} (l : list A) q :
  NoDup l → q ∈ l → P q → (∀ q', q' ∈ l → P q' → q' = q) →
  filter P l = [q].
Proof.
  induction 1 as [|x l Hx Hnd IH]; intros Hq HP Huniq.
  - by apply elem_of_nil in Hq.
  - rewrite filter_cons. apply elem_of_cons in Hq as [->|Hq].
    + rewrite decide_True by done. f_equal.
      destruct (filter P l) as [|y ys] eqn:Hf; [done|].
      assert (y ∈ filter P l) as Hy by (rewrite Hf; left).
      apply list_elem_of_filter in Hy as [HPy Hy].
      assert (y = x) as -> by (apply Huniq; [by right|done]). done.
    + destruct (decide (P x)) as [HPx|_].
      * assert (x = q) as -> by (apply Huniq; [left|done]). done.
      * apply IH; [done|done|]. intros q' Hq'. apply Huniq. by right.
Qed.

(** On gate instructions [from_pyquil] does not raise; its qubit list
    names the objects it created, which have the indices of the native
    qubits, all different, and every gate refers to the first object of
    each of its indices. *)
Lemma from_pyquil_runs program :
  ∃ r, from_pyquil program = Ok r
       ∧ qubit_list r = seq 0 (length (arena r))
       ∧ NoDup (map Qubit.index (arena r))
       ∧ gates_resolved (arena r) program (gates r).
Proof.
  unfold from_pyquil. destruct program as [|g program].
  - eexists. split; [done|]. simpl. repeat split; constructor.
  - destruct (pyquil_instructions_spec (g :: program)
                (mklocals [] [] [] None []) [])
      as (l' & Hloop & [Hq Hn Hd] & Hres).
    { constructor; simpl; [done|done|constructor]. }
    { constructor. }
    cbn [length Nat.eqb]. rewrite Hloop.
    eexists. split; [done|]. simpl. split; [done|]. split; [|done].
    by rewrite Hn.
Qed.

(** Deduplication in [from_pyquil], on the gate instructions of a
    program: for every index [i] that some instruction has as an operand,
    the qubit list of the imported circuit holds exactly one reference [q]
    to a qubit of index [i], and every operand position of the program
    that holds [i] holds that same reference [q] in the imported gate. *)
Lemma from_pyquil_deduplicates program :
  ∃ r, from_pyquil program = Ok r
       ∧ ∀ i, (∃ g, g ∈ program ∧ i ∈ pq_qubits g) →
           ∃ q, with_index r i = [q]
                ∧ index_of r q = Some i
                ∧ ∀ n g j, program !! n = Some g →
                           pq_qubits g !! j = Some i →
                           operand r n j = Some q.
Proof.
  destruct (from_pyquil_runs program) as (r & Hr & Hq & Hd & Hres).
  exists r. split; [done|]. intros i (g & Hg & Hi).
  assert (∀ n g j, program !! n = Some g → pq_qubits g !! j = Some i →
            ∃ q, operand r n j = Some q
                 ∧ first_with_index (arena r) i = Some q) as Hop.
  { intros n g' j Hn Hj.
    destruct (Forall2_lookup_l _ _ _ _ _ Hres Hn) as (ig & Hig & Hrg).
    destruct (Forall2_lookup_l _ _ _ _ _ Hrg Hj) as (q & Hq' & Hf).
    exists q. split; [|done]. unfold operand. rewrite Hig. simpl. done. }
  apply list_elem_of_lookup in Hg as [n Hn].
  apply list_elem_of_lookup in Hi as [j Hj].
  destruct (Hop n g j Hn Hj) as (q & _ & Hf).
  destruct (first_with_index_lookup _ _ _ Hf) as (o & Ho & Hoi).
  exists q. split; [|split].
  - unfold with_index. rewrite Hq. apply filter_unique.
    + apply NoDup_seq.
    + apply elem_of_seq. split; [lia|]. simpl. by eapply lookup_lt_Some.
    + unfold index_of. by rewrite Ho, <- Hoi.
    + intros q' _ Hq'. unfold index_of in Hq'.
      destruct (arena r !! q') as [o'|] eqn:Ho'; [|discriminate].
      simpl in Hq'. injection Hq' as Hq'.
      apply (NoDup_lookup _ q' q i Hd); rewrite list_lookup_fmap.
      * change (Qubit.index <$> arena r !! q' = Some i).
        rewrite Ho'. simpl. by rewrite Hq'.
      * change (Qubit.index <$> arena r !! q = Some i).
        rewrite Ho. simpl. by rewrite Hoi.
  - unfold index_of. by rewrite Ho, <- Hoi.
  - intros n' g' j' Hn' Hj'.
    destruct (Hop n' g' j' Hn' Hj') as (q' & Hq' & Hf'). congruence.
Qed.

(** *** [from_qiskit] when positions tell the qubits apart *)

Lemma info_num_from_qiskit q i :
  Qubit.info (Qubit_from_qiskit q i) !! "num"
  = Some (VInt (Z.of_nat (index q))).
Proof.
  unfold Qubit_from_qiskit. simpl.
  rewrite lookup_insert_ne by done. by rewrite lookup_singleton_eq.
Qed.

Lemma first_with_num_app objs ext n q :
  first_with_num objs n = Some q → first_with_num (objs ++ ext) n = Some q.
Proof.
  revert q. induction objs as [|o objs IH]; intros q; simpl; [discriminate|].
  case_bool_decide; [done|].
  destruct (first_with_num objs n) as [q'|]; simpl; [|discriminate].
  intros [= <-]. by rewrite (IH q').
Qed.

Lemma first_with_num_lookup natives n q :
  first_with_num (map (fun q => Qubit_from_qiskit q (index q)) natives) n
  = Some q →
  ∃ nq, natives !! q = Some nq ∧ index nq = n.
Proof.
  revert q. induction natives as [|nq natives IH]; intros q;
    cbn [map first_with_num]; [discriminate|].
  rewrite info_num_from_qiskit. case_bool_decide as Hn.
  - intros [= <-]. exists nq. split; [done|].
    injection Hn as Hn. by apply Nat2Z.inj.
  - destruct (first_with_num _ n) as [q'|] eqn:Hf; simpl; [|discriminate].
    intros [= <-]. by apply IH.
Qed.

Lemma first_with_num_None natives n :
  (∀ nq, nq ∈ natives → index nq ≠ n) →
  first_with_num (map (fun q => Qubit_from_qiskit q (index q)) natives) n
  = None.
Proof.
  induction natives as [|nq natives IH]; intros Hall;
    cbn [map first_with_num]; [done|].
  rewrite info_num_from_qiskit, bool_decide_eq_false_2.
  - rewrite IH; [done|]. intros nq' Hnq'. apply Hall. by right.
  - intros [= Hn]. apply Nat2Z.inj in Hn. by apply (Hall nq); [left|].
Qed.

Lemma first_with_num_Some natives nq :
  nq ∈ natives →
  is_Some (first_with_num
             (map (fun q => Qubit_from_qiskit q (index q)) natives)
             (index nq)).
Proof.
  induction 1 as [nq natives|nq nq' natives _ IH];
    cbn [map first_with_num]; rewrite info_num_from_qiskit.
  - by rewrite bool_decide_eq_true_2.
  - case_bool_decide; [done|]. destruct IH as [q ->]. done.
Qed.

Lemma first_with_num_new natives nq :
  (∀ nq', nq' ∈ natives → index nq' ≠ index nq) →
  first_with_num
    (map (fun q => Qubit_from_qiskit q (index q)) natives
       ++ [Qubit_from_qiskit nq (index nq)]) (index nq)
  = Some (length natives).
Proof.
  induction natives as [|nq0 natives IH]; intros Hall;
    cbn [map app first_with_num length]; rewrite info_num_from_qiskit.
  - by rewrite bool_decide_eq_true_2.
  - rewrite bool_decide_eq_false_2.
    + rewrite IH; [done|]. intros nq' Hnq'. apply Hall. by right.
    + intros [= Hn]. apply Nat2Z.inj in Hn. by apply (Hall nq0); [left|].
Qed.

Lemma qiskit_qubit_in_list_spec qubit qubitlist :
  qiskit_qubit_in_list qubit qubitlist = bool_decide (qubit ∈ qubitlist).
Proof.
  induction qubitlist as [|q rest IH]; cbn [qiskit_qubit_in_list].
  - by rewrite bool_decide_eq_false_2 by apply not_elem_of_nil.
  - destruct (decide (qubit = q)) as [->|Hne].
    + rewrite (bool_decide_eq_true_2 (q = q)) by done.
      symmetry. apply bool_decide_eq_true_2. left.
    + rewrite (bool_decide_eq_false_2 (qubit = q)) by done.
      rewrite IH. apply bool_decide_ext. rewrite elem_of_cons.
      split; [tauto|]. by intros [?|?].
Qed.

Lemma qiskit_search_seq n old natives : ∀ pre,
  qiskit_search
    (pre ++ map (fun q => Qubit_from_qiskit q (index q)) natives)
    (seq (length pre) (length natives)) n old
  = Ok (match first_with_num
                (map (fun q => Qubit_from_qiskit q (index q)) natives) n with
        | Some j => Some (length pre + j)%nat
        | None => old
        end).
Proof.
  induction natives as [|nq natives IH]; intros pre; [done|].
  cbn [map length seq qiskit_search first_with_num].
  unfold deref. rewrite lookup_app_r, Nat.sub_diag by lia.
  cbn [lookup list_lookup mbind result_bind bind].
  unfold info_num. rewrite !info_num_from_qiskit.
  cbn [mbind result_bind bind].
  case_bool_decide as Hn.
  - rewrite bool_decide_eq_true_2 by congruence. do 3 f_equal. lia.
  - rewrite bool_decide_eq_false_2 by congruence.
    specialize (IH (pre ++ [Qubit_from_qiskit nq (index nq)])).
    rewrite <- app_assoc in IH. simpl in IH.
    rewrite length_app in IH. simpl in IH.
    replace (length pre + 1)%nat with (S (length pre)) in IH by lia.
    rewrite IH. destruct (first_with_num _ n); simpl; [|done].
    do 3 f_equal. lia.
Qed.

Lemma qiskit_resolved_app objs ext native refs :
  qiskit_resolved objs native refs → qiskit_resolved (objs ++ ext) native refs.
Proof.
  unfold qiskit_resolved. intros H. eapply Forall2_impl; [exact H|].
  intros i q. apply first_with_num_app.
Qed.

Lemma qiskit_gates_resolved_app objs ext data gs :
  qiskit_gates_resolved objs data gs →
  qiskit_gates_resolved (objs ++ ext) data gs.
Proof.
  unfold qiskit_gates_resolved. intros H. eapply Forall2_impl; [exact H|].
  intros g ig. apply qiskit_resolved_app.
Qed.

(** One operand of [from_qiskit], when positions tell the qubits apart. *)
Lemma qiskit_operand_spec universe l _gatequbits qubit :
  distinct_positions universe →
  qiskit_invariant universe l →
  qubit ∈ universe →
  ∃ l' q,
    qiskit_operand (l, _gatequbits) qubit = Ok (l', _gatequbits ++ [q])
    ∧ qiskit_invariant universe l'
    ∧ first_with_num (objects l') (index qubit) = Some q
    ∧ (∃ ext, objects l' = objects l ++ ext)
    ∧ _gatelist l' = _gatelist l.
Proof.
  intros Hdist [Hq Ho Hd Hu] Hin. unfold qiskit_operand.
  rewrite qiskit_qubit_in_list_spec. case_bool_decide as Hseen; cbn [negb].
  - pose proof (qiskit_search_seq (index qubit) (_old_Qubit l)
                  (_native_qubits l) []) as Hs.
    cbn [app length] in Hs. rewrite <- Ho in Hs.
    assert (length (objects l) = length (_native_qubits l)) as Hlen
      by (by rewrite Ho, length_map).
    rewrite Hq, Hlen, Hs.
    destruct (first_with_num_Some _ _ Hseen) as [q Hf].
    rewrite <- Ho in Hf. rewrite Hf. simpl.
    exists (mklocals (objects l) (_native_qubits l)
              (seq 0 (length (_native_qubits l))) (Some q) (_gatelist l)), q.
    rewrite <- Hlen, <- Hq. split; [done|]. split; [by constructor|].
    split; [done|]. split; [|done]. exists []. by rewrite app_nil_r.
  - eexists _, _. split; [done|]. cbn [objects _native_qubits _qubits _gatelist].
    assert (∀ nq', nq' ∈ _native_qubits l → index nq' ≠ index qubit) as Hnew.
    { intros nq' Hnq' Heq. apply Hseen.
      rewrite <- (Hdist nq' qubit); auto. }
    split; [|split; [|split; [by eexists|done]]].
    + constructor; cbn [objects _native_qubits _qubits].
      * rewrite length_app, Hq. simpl. by rewrite seq_app.
      * rewrite map_app, Ho. done.
      * apply NoDup_app. split; [done|]. split; [|apply NoDup_singleton].
        intros x Hx Hx'. apply list_elem_of_singleton in Hx'. congruence.
      * intros q' Hq'. apply elem_of_app in Hq' as [Hq'|Hq']; [auto|].
        apply list_elem_of_singleton in Hq'. by subst.
    + rewrite Ho, first_with_num_new by done. by rewrite length_map.
Qed.

Lemma qiskit_operands_spec universe operands : ∀ l done _gatequbits,
  distinct_positions universe →
  qiskit_invariant universe l →
  (∀ q, q ∈ operands → q ∈ universe) →
  qiskit_resolved (objects l) done _gatequbits →
  ∃ l' _gatequbits',
    for_each qiskit_operand (l, _gatequbits) operands = Ok (l', _gatequbits')
    ∧ qiskit_invariant universe l'
    ∧ qiskit_resolved (objects l') (done ++ operands) _gatequbits'
    ∧ (∃ ext, objects l' = objects l ++ ext)
    ∧ _gatelist l' = _gatelist l.
Proof.
  induction operands as [|qubit operands IH];
    intros l done gq Hdist Hinv Hu Hres.
  - exists l, gq. simpl. rewrite app_nil_r.
    split; [done|]. split; [done|]. split; [done|].
    split; [|done]. exists []. by rewrite app_nil_r.
  - destruct (qiskit_operand_spec universe l gq qubit Hdist Hinv)
      as (l1 & q & Hstep & Hinv1 & Hq & [ext1 Hext1] & Hg1);
      [apply Hu; left|].
    destruct (IH l1 (done ++ [qubit]) (gq ++ [q]) Hdist Hinv1)
      as (l' & gq' & Hloop & Hinv' & Hres' & [ext' Hext'] & Hg').
    { intros q' Hq'. apply Hu. by right. }
    { apply Forall2_app; [|by repeat constructor].
      rewrite Hext1. by apply qiskit_resolved_app. }
    exists l', gq'. cbn [for_each]. rewrite Hstep.
    split; [exact Hloop|]. split; [done|].
    split; [by rewrite <- app_assoc in Hres'|].
    split; [|congruence].
    exists (ext1 ++ ext'). by rewrite Hext', Hext1, <- app_assoc.
Qed.

Section Kept.
Variable has_gate : string → bool.

Lemma qiskit_instruction_runs l g l1 _gatequbits :
  for_each qiskit_operand (l, []) (qk_qargs g) = Ok (l1, _gatequbits) →
  qiskit_instruction has_gate l g
  = Ok (mklocals (objects l1) (_native_qubits l1) (_qubits l1)
                 (_old_Qubit l1)
                 (match Gate_from_qiskit has_gate g _gatequbits with
                  | Some ig => _gatelist l1 ++ [ig]
                  | None => _gatelist l1
                  end)).
Proof. intros H. unfold qiskit_instruction. by rewrite H. Qed.

Lemma operands_app data1 data2 :
  operands (data1 ++ data2) = operands data1 ++ operands data2.
Proof. unfold operands. by rewrite map_app, concat_app. Qed.

Lemma qiskit_instructions_spec universe data : ∀ l done,
  distinct_positions universe →
  qiskit_invariant universe l →
  (∀ q, q ∈ operands data → q ∈ universe) →
  qiskit_gates_resolved (objects l) (kept has_gate done) (_gatelist l) →
  (∀ q, q ∈ operands done →
        is_Some (first_with_num (objects l) (index q))) →
  ∃ l',
    for_each (qiskit_instruction has_gate) l data = Ok l'
    ∧ qiskit_invariant universe l'
    ∧ qiskit_gates_resolved (objects l') (kept has_gate (done ++ data)) (_gatelist l')
    ∧ ∀ q, q ∈ operands (done ++ data) →
           is_Some (first_with_num (objects l') (index q)).
Proof.
  induction data as [|g data IH]; intros l done Hdist Hinv Hu Hres Hall.
  - exists l. simpl. by rewrite app_nil_r.
  - destruct (qiskit_operands_spec universe (qk_qargs g) l [] [] Hdist Hinv)
      as (l1 & gq & Hloop & Hinv1 & Hres1 & [ext Hext] & Hg1).
    { intros q Hq. apply Hu. unfold operands. simpl. apply elem_of_app. tauto. }
    { constructor. }
    set (l2 := mklocals (objects l1) (_native_qubits l1) (_qubits l1)
                 (_old_Qubit l1)
                 (match Gate_from_qiskit has_gate g gq with
                  | Some ig => _gatelist l1 ++ [ig]
                  | None => _gatelist l1
                  end)).
    destruct (IH l2 (done ++ [g]) Hdist)
      as (l' & Hloop' & Hinv' & Hres' & Hall').
    { destruct Hinv1. by constructor. }
    { intros q Hq. apply Hu. unfold operands. simpl. apply elem_of_app. tauto. }
    { subst l2. cbn [objects _gatelist]. unfold kept.
      rewrite filter_app, filter_cons, filter_nil.
      unfold Gate_from_qiskit.
      destruct (has_gate (qk_name g)) eqn:Hk.
      - rewrite decide_True by done. apply Forall2_app.
        + rewrite Hg1, Hext. by apply qiskit_gates_resolved_app.
        + repeat constructor. exact Hres1.
      - rewrite decide_False by done. rewrite app_nil_r.
        rewrite Hg1, Hext. by apply qiskit_gates_resolved_app. }
    { subst l2. cbn [objects]. intros q Hq.
      rewrite operands_app in Hq. apply elem_of_app in Hq as [Hq|Hq].
      - destruct (Hall q Hq) as [r Hr]. exists r.
        rewrite Hext. by apply first_with_num_app.
      - unfold operands in Hq. simpl in Hq. rewrite app_nil_r in Hq.
        apply list_elem_of_lookup in Hq as [j Hj].
        destruct (Forall2_lookup_l _ _ _ _ _ Hres1 Hj) as (r & _ & Hr).
        by exists r. }
    exists l'. cbn [for_each].
    rewrite (qiskit_instruction_runs _ _ _ _ Hloop).
    split; [exact Hloop'|]. split; [done|].
    rewrite <- !app_assoc in *. by split.
Qed.

(** Deduplication in [from_qiskit], for a circuit in which the positions
    tell the qubits apart: for every native qubit that is an operand, the
    qubit list of the imported circuit holds exactly one reference [q] to
    a qubit of its index, and every operand position of an imported gate
    that holds this native qubit holds that same reference [q]. *)
Theorem from_qiskit_deduplicates_distinct_positions data :
  distinct_positions (operands data) →
  ∃ r, from_qiskit has_gate data = Ok r
       ∧ ∀ nq, nq ∈ operands data →
           ∃ q, with_index r (index nq) = [q]
                ∧ index_of r q = Some (index nq)
                ∧ ∀ n g j, kept has_gate data !! n = Some g →
                           qk_qargs g !! j = Some nq →
                           operand r n j = Some q.
Proof.
  intros Hdist. unfold from_qiskit. destruct data as [|g0 data0].
  { eexists. split; [done|]. intros nq Hnq. by apply elem_of_nil in Hnq. }
  set (data := g0 :: data0) in *.
  destruct (qiskit_instructions_spec (operands data) data
              (mklocals [] [] [] None []) [] Hdist)
    as (l' & Hloop & [Hq Ho Hd Hu] & Hres & Hall).
  { constructor; cbn; [done|done|constructor|].
    intros q Hq. by apply elem_of_nil in Hq. }
  { done. }
  { constructor. }
  { intros q Hq. by apply elem_of_nil in Hq. }
  cbn [length Nat.eqb]. rewrite Hloop. cbn [mbind result_bind bind].
  eexists. split; [done|]. cbn [app] in Hres, Hall.
  intros nq Hnq. destruct (Hall nq Hnq) as [q Hf].
  pose proof Hf as Hf'. rewrite Ho in Hf'.
  destruct (first_with_num_lookup _ _ _ Hf') as (nq' & Hnq' & Hidx).
  assert (nq' = nq) as ->.
  { apply Hdist; [|done|done]. apply Hu. by eapply list_elem_of_lookup_2. }
  assert (NoDup (map Qubit.index (objects l'))) as Hnd.
  { rewrite Ho, map_map. simpl. apply NoDup_fmap_2_strong; [|done].
    intros q1 q2 H1 H2. apply Hdist; by apply Hu. }
  assert (objects l' !! q = Some (Qubit_from_qiskit nq (index nq))) as Hobj.
  { rewrite Ho. unfold ref in *. change (map ?f ?l) with (f <$> l).
    by rewrite list_lookup_fmap, Hnq'. }
  exists q. unfold with_index, index_of. cbn [arena qubit_list gates].
  split; [|split].
  - rewrite Hq. apply filter_unique.
    + apply NoDup_seq.
    + apply elem_of_seq. split; [lia|]. simpl. by eapply lookup_lt_Some.
    + change (Qubit.index <$> objects l' !! q = Some (index nq)).
      by rewrite Hobj.
    + intros q' _ Hq'.
      destruct (objects l' !! q') as [o'|] eqn:Ho'; [|discriminate].
      simpl in Hq'. injection Hq' as Hq'.
      apply (NoDup_lookup _ q' q (index nq) Hnd); rewrite list_lookup_fmap.
      * change (Qubit.index <$> objects l' !! q' = Some (index nq)).
        rewrite Ho'. simpl. by rewrite Hq'.
      * change (Qubit.index <$> objects l' !! q = Some (index nq)).
        by rewrite Hobj.
  - change (Qubit.index <$> objects l' !! q = Some (index nq)).
    by rewrite Hobj.
  - intros n g j Hn Hj. unfold operand. cbn [gates].
    destruct (Forall2_lookup_l _ _ _ _ _ Hres Hn) as (ig & Hig & Hrg).
    destruct (Forall2_lookup_l _ _ _ _ _ Hrg Hj) as (q' & Hq' & Hfq).
    rewrite Hig. simpl. congruence.
Qed.

End Kept.

(** On one register the positions tell the qubits apart. *)
Lemma one_register_distinct_positions reg qs :
  Forall (fun q => register q = reg) qs → distinct_positions qs.
Proof.
  intros Hall q1 q2 H1 H2 Hidx. rewrite Forall_forall in Hall.
  pose proof (Hall q1 H1) as R1. pose proof (Hall q2 H2) as R2.
  destruct q1, q2. simpl in *. congruence.
Qed.

(** *** [from_qiskit] on a circuit with two registers *)

(** C3, at the failing input: [b[0]] is new when it is met, so a second
    qubit of index 0 is created for it; when it is met again, the search
    by position finds the qubit made for [a[0]].  The qubit list holds two
    qubits of index 0, and the two operand positions of [b[0]] hold
    different objects. *)
Theorem from_qiskit_two_registers :
  ∃ r, from_qiskit (fun _ => true) two_registers = Ok r
       ∧ map Qubit.index (arena r) = [0%nat; 0%nat]
       ∧ with_index r 0 = [0%nat; 1%nat]
       ∧ operand r 1 0 = Some 1%nat
       ∧ operand r 2 0 = Some 0%nat.
Proof. eexists. split; [vm_compute; reflexivity|]. repeat split. Qed.

(** A circuit on one register is imported with one qubit object for each
    position, shared by the gates that act on it. *)
Example from_qiskit_one_register :
  ∃ r, from_qiskit (fun _ => true) one_register = Ok r
       ∧ map Qubit.index (arena r) = [0%nat; 1%nat]
       ∧ qubit_list r = [0%nat; 1%nat]
       ∧ map qubits (gates r) = [[0%nat]; [0%nat]; [0%nat; 1%nat]].
Proof. eexists. split; [vm_compute; reflexivity|]. repeat split. Qed.

End ImportersFacts.

(* ===================================================================== *)
(** * Results on loops *)
(* ===================================================================== *)

Module LoopFacts.
Import Py Importers.

(** A loop whose body keeps an invariant keeps it. *)
Lemma for_each_invariant {S A} (body : S → A → result S) (I : S → Prop) :
  (∀ s x s', I s → body s x = Ok s' → I s') →
  ∀ l s s', I s → for_each body s l = Ok s' → I s'.
Proof.
  intros Hbody. induction l as [|x l IH]; intros s s' Hs H; simpl in H.
  - by injection H as <-.
  - destruct (body s x) as [s1|e] eqn:Hx; simpl in H; [|discriminate].
    apply (IH s1 s'); [|done]. by eapply Hbody.
Qed.

(** A loop whose body raises on some elements raises when it meets one,
    if not before. *)
Lemma for_each_raises {S A} (body : S → A → result S) (I : S → Prop)
    (bad : A → Prop) :
  (∀ s x s', I s → body s x = Ok s' → I s') →
  (∀ s x, I s → bad x → ∃ e, body s x = Raise e) →
  ∀ l s, I s → Exists bad l → ∃ e, for_each body s l = Raise e.
Proof.
  intros Hkeep Hbad. induction l as [|x l IH]; intros s Hs Hex.
  - by apply Exists_nil in Hex.
  - simpl. apply Exists_cons in Hex as [Hx|Hl].
    + destruct (Hbad s x Hs Hx) as [e ->]. by exists e.
    + destruct (body s x) as [s1|e] eqn:Hx; simpl; [|by exists e].
      apply IH; [|done]. by eapply Hkeep.
Qed.



(** Nested loops are one loop over the concatenation. *)
Lemma for_each_concat {S A} (body : S → A → result S) (ls : list (list A)) :
  ∀ s, for_each (for_each body) s ls = for_each body s (concat ls).
Proof.
  assert (∀ l1 l2 s, for_each body s (l1 ++ l2)
                     = (s' ← for_each body s l1; for_each body s' l2)) as Happ.
  { induction l1 as [|x l1 IH]; intros l2 s; simpl; [done|].
    destruct (body s x) as [s1|e]; simpl; [apply IH|done]. }
  induction ls as [|l ls IH]; intros s; simpl; [done|].
  rewrite Happ. destruct (for_each body s l) as [s1|e]; simpl; [apply IH|done].
Qed.

Lemma elem_of_concat_iff {A} (x : A) (ls : list (list A)) :
  x ∈ concat ls ↔ ∃ l, x ∈ l ∧ l ∈ ls.
Proof.
  induction ls as [|l ls IH]; simpl.
  - split; [by intros H%elem_of_nil|]. by intros (l & _ & H%elem_of_nil).
  - rewrite elem_of_app, IH. split.
    + intros [H|(l' & H & H')]; [exists l|exists l']; split;
        done || by constructor.
    + intros (l' & H & [->|H']%elem_of_cons); [by left|].
      right. by exists l'.
Qed.

End LoopFacts.

(* ===================================================================== *)
(** * Results on [Circuit.__eq__] and [Circuit.__add__] *)
(* ===================================================================== *)

Module CircuitEqFacts.
Import Py Circuit.

(** The comparison loop over two lists of one length. *)
Lemma differ_at_seq {A} (ne : A → A → bool) (a' : list A) :
  ∀ b' pre_a pre_b,
  length pre_a = length pre_b → length a' = length b' →
  ∃ r, differ_at ne (pre_a ++ a') (pre_b ++ b')
         (seq (length pre_a) (length a')) = Ok r
       ∧ (r = false ↔ Forall2 (fun x y => ne x y = false) a' b').
Proof.
  induction a' as [|x a' IH]; intros b' pre_a pre_b Hpre Hlen.
  - destruct b'; [|discriminate]. exists false. simpl.
    split; [done|]. split; [constructor|done].
  - destruct b' as [|y b']; [discriminate|].
    cbn [length seq differ_at]. unfold item.
    rewrite (list_lookup_middle pre_a a' x (length pre_a)) by done.
    rewrite (list_lookup_middle pre_b b' y (length pre_a)) by done.
    cbn [mbind result_bind bind].
    destruct (ne x y) eqn:Hne.
    + exists true. split; [done|]. split; [discriminate|].
      intros H. apply Forall2_cons in H as [H _]. congruence.
    + destruct (IH b' (pre_a ++ [x]) (pre_b ++ [y])) as (r & Hr & Hiff).
      { rewrite !length_app. simpl. lia. }
      { simpl in Hlen. lia. }
      rewrite <- !app_assoc in Hr. cbn [app] in Hr.
      rewrite length_app in Hr. cbn [length] in Hr.
      replace (length pre_a + 1)%nat with (S (length pre_a)) in Hr by lia.
      exists r. split; [done|].
      rewrite Hiff. split.
      * intros H. by constructor.
      * intros H. by apply Forall2_cons in H as [_ H].
Qed.

Section Facts.
Context `{QM : QubitMethods} `{GM : GateMethods}.

(** [==] on two circuits with lists of gates and of qubits returns, and
    what it returns is [True] exactly when the names are equal, the qubit
    lists agree in length and, position by position, in the string form of
    the qubits, and the gate lists agree in length and, position by
    position, by [==] on gates.  The [info] dictionaries and the [info] of
    the qubits play no part. *)
Theorem eq_is_structural_equality c1 c2 gs1 gs2 qs1 qs2 :
  qubits c1 = Some qs1 → qubits c2 = Some qs2 →
  gates c1 = Some gs1 → gates c2 = Some gs2 →
  ∃ b, __eq__ c1 c2 = Ok b
       ∧ (b = true ↔
            name c1 = name c2
            ∧ Forall2 (fun q1 q2 => Qubit_str q1 = Qubit_str q2) qs1 qs2
            ∧ Forall2 (fun g1 g2 => Gate_eq g1 g2 = true) gs1 gs2).
Proof.
  intros Hq1 Hq2 Hg1 Hg2. unfold __eq__. rewrite Hq1, Hq2, Hg1, Hg2.
  destruct (String.eqb_spec (name c1) (name c2)) as [Hn|Hn]; cbn [negb].
  2: { exists false. split; [done|]. split; [discriminate|]. by intros [? _]. }
  cbn [the_list mbind result_bind bind].
  destruct (Nat.eqb_spec (length qs1) (length qs2)) as [Hlq|Hlq]; cbn [negb].
  2: { exists false. split; [done|]. split; [discriminate|].
       intros (_ & H & _). by apply Forall2_length in H. }
  destruct (differ_at_seq
              (fun q1 q2 => negb (String.eqb (Qubit_str q1) (Qubit_str q2)))
              qs1 qs2 [] []) as (dq & Hdq & Hqiff); [done|done|].
  cbn [app length] in Hdq. rewrite Hdq. cbn [mbind result_bind bind].
  assert (dq = false ↔
          Forall2 (fun q1 q2 => Qubit_str q1 = Qubit_str q2) qs1 qs2) as Hq.
  { rewrite Hqiff. split; intros H; eapply Forall2_impl; try exact H.
    - intros q1 q2 E. apply negb_false_iff in E. by apply String.eqb_eq.
    - intros q1 q2 E. apply negb_false_iff. by apply String.eqb_eq. }
  destruct dq.
  { exists false. split; [done|]. split; [discriminate|].
    intros (_ & H & _). by apply Hq in H. }
  destruct (Nat.eqb_spec (length gs1) (length gs2)) as [Hlg|Hlg]; cbn [negb].
  2: { exists false. split; [done|]. split; [discriminate|].
       intros (_ & _ & H). by apply Forall2_length in H. }
  destruct (differ_at_seq (fun g1 g2 => negb (Gate_eq g1 g2))
              gs1 gs2 [] []) as (dg & Hdg & Hgiff); [done|done|].
  cbn [app length] in Hdg. rewrite Hdg. cbn [mbind result_bind bind].
  assert (dg = false ↔
          Forall2 (fun g1 g2 => Gate_eq g1 g2 = true) gs1 gs2) as Hg.
  { rewrite Hgiff. split; intros H; eapply Forall2_impl; try exact H.
    - intros g1 g2 E. by apply negb_false_iff in E.
    - intros g1 g2 E. by apply negb_false_iff. }
  destruct dg.
  { exists false. split; [done|]. split; [discriminate|].
    intros (_ & _ & H). by apply Hg in H. }
  exists true. split; [done|]. split; [|done]. intros _.
  split; [done|]. split; [by apply Hq | by apply Hg].
Qed.

End Facts.

End CircuitEqFacts.

Module CircuitAddFacts.
Import Py Circuit.

Section Facts.
Context `{QM : QubitMethods} `{GM : GateMethods}.

Lemma index_of_new (l : list nat) :
  (∀ i, Qubit.index (Qubit_new i) = i) →
  map Qubit.index (map Qubit_new l) = l.
Proof.
  intros Hnew. rewrite map_map. induction l as [|i l IH]; simpl; [done|].
  by rewrite Hnew, IH.
Qed.

(** [+] is associative: the two ways of adding three circuits give the
    same gates in the same order, and qubits of the same indices (the
    order of the qubit list is the order of a set and is not compared). *)
Theorem add_is_associative a b c ga qa gb qb gc qc :
  (∀ i, Qubit.index (Qubit_new i) = i) →
  gates a = Some ga → qubits a = Some qa →
  gates b = Some gb → qubits b = Some qb →
  gates c = Some gc → qubits c = Some qc →
  ∃ ab bc l r ql qr,
    __add__ a b = Ok ab ∧ __add__ ab c = Ok l
    ∧ __add__ b c = Ok bc ∧ __add__ a bc = Ok r
    ∧ gates l = Some (ga ++ gb ++ gc) ∧ gates r = Some (ga ++ gb ++ gc)
    ∧ qubits l = Some ql ∧ qubits r = Some qr
    ∧ map Qubit.index ql ≡ₚ map Qubit.index qr.
Proof.
  intros Hnew Hga Hqa Hgb Hqb Hgc Hqc.
  eexists _, _, _, _, _, _.
  split; [by apply (CircuitFacts.add_unfold a b ga gb qa qb)|].
  split; [by eapply CircuitFacts.add_unfold|].
  split; [by apply (CircuitFacts.add_unfold b c gb gc qb qc)|].
  split; [by eapply CircuitFacts.add_unfold|].
  cbn [gates qubits]. split; [by rewrite <- app_assoc|].
  split; [done|]. split; [done|]. split; [done|].
  rewrite !index_of_new by done.
  apply elements_proper. intros i.
  rewrite !elem_of_list_to_set, !elem_of_app, !elem_of_elements,
    !elem_of_list_to_set, !elem_of_app. tauto.
Qed.

End Facts.

End CircuitAddFacts.

(* ===================================================================== *)
(** * Results on [n_multiqubit_gates] and [symbolic_params] *)
(* ===================================================================== *)

Module CircuitPropertiesFacts.
Import Py Circuit CircuitProperties.

Lemma count_foldl (gs : list Gate.t) : ∀ n,
  foldl (fun n_mq_gates gate =>
           if (1 <? length (Gate.qubits gate))%nat
           then (n_mq_gates + 1)%nat else n_mq_gates) n gs
  = (n + length (filter (fun g => (1 < length (Gate.qubits g))%nat) gs))%nat.
Proof.
  induction gs as [|g gs IH]; intros n; simpl; [lia|].
  rewrite IH, filter_cons. destruct (Nat.ltb_spec 1 (length (Gate.qubits g))).
  - rewrite decide_True by done. simpl. lia.
  - rewrite decide_False by lia. done.
Qed.

Section Facts.
Context `{QM : QubitMethods} `{GM : GateMethods}.

(** The number of multiqubit gates of a sum is the sum of the numbers. *)
Theorem n_multiqubit_gates_add a b ga qa gb qb :
  gates a = Some ga → qubits a = Some qa →
  gates b = Some gb → qubits b = Some qb →
  ∃ c na nb, __add__ a b = Ok c
    ∧ n_multiqubit_gates a = Ok na
    ∧ n_multiqubit_gates b = Ok nb
    ∧ n_multiqubit_gates c = Ok (na + nb)%nat
    ∧ (na + nb ≤ length ga + length gb)%nat.
Proof.
  intros Hga Hqa Hgb Hqb.
  unfold __add__, n_multiqubit_gates. rewrite Hga, Hqa, Hgb, Hqb. simpl.
  eexists _, _, _. split; [reflexivity|]. split; [reflexivity|].
  split; [reflexivity|]. rewrite !count_foldl.
  cbn [the_list gates mbind result_bind bind]. rewrite count_foldl.
  rewrite filter_app, length_app. split; [f_equal; lia|].
  pose proof (length_filter (fun g => (1 < length (Gate.qubits g))%nat) ga).
  pose proof (length_filter (fun g => (1 < length (Gate.qubits g))%nat) gb).
  lia.
Qed.

(** [add_params] keeps what it has and appends the new symbols once. *)
Lemma add_params_snoc acc l x :
  Evaluate.add_params acc (l ++ [x])
  = if bool_decide (x ∈ Evaluate.add_params acc l)
    then Evaluate.add_params acc l
    else Evaluate.add_params acc l ++ [x].
Proof. unfold Evaluate.add_params. by rewrite foldl_app. Qed.

Lemma add_params_NoDup l : ∀ acc,
  NoDup acc → NoDup (Evaluate.add_params acc l).
Proof.
  induction l as [|x l IH] using rev_ind; intros acc Hacc; [done|].
  rewrite add_params_snoc. case_bool_decide as Hx; [by apply IH|].
  apply NoDup_app. split; [by apply IH|]. split.
  - intros y Hy Hy'. apply list_elem_of_singleton in Hy' as ->. done.
  - apply NoDup_singleton.
Qed.

Lemma add_params_split l : ∀ acc,
  Evaluate.add_params acc l
  = acc ++ filter (fun s => s ∉ acc) (Evaluate.add_params [] l).
Proof.
  induction l as [|x l IH] using rev_ind; intros acc.
  - simpl. by rewrite filter_nil, app_nil_r.
  - rewrite !add_params_snoc.
    assert (x ∈ Evaluate.add_params acc l
            ↔ x ∈ acc ∨ x ∈ Evaluate.add_params [] l) as Hin.
    { rewrite !EvaluateFacts.elem_of_add_params, elem_of_nil. tauto. }
    case_bool_decide as H1; case_bool_decide as H2.
    + apply IH.
    + rewrite filter_app, filter_cons, filter_nil.
      rewrite decide_False; [by rewrite app_nil_r|].
      intros Hx. apply Hin in H1 as [H1|H1]; done.
    + exfalso. apply H1, Hin. by right.
    + rewrite filter_app, filter_cons, filter_nil.
      rewrite decide_True; [by rewrite IH, app_assoc|].
      intros Hx. apply H1, Hin. by left.
Qed.

Lemma symbolic_params_of_flat gs : ∀ acc,
  foldl (fun acc gate => Evaluate.add_params acc (Gate_symbolic_params gate))
        acc gs
  = Evaluate.add_params acc (concat (map Gate_symbolic_params gs)).
Proof.
  induction gs as [|g gs IH]; intros acc; simpl; [done|].
  rewrite IH. unfold Evaluate.add_params. by rewrite foldl_app.
Qed.

Lemma symbolic_params_of_app gs1 gs2 :
  Evaluate.symbolic_params_of (gs1 ++ gs2)
  = Evaluate.symbolic_params_of gs1
    ++ filter (fun s => s ∉ Evaluate.symbolic_params_of gs1)
              (Evaluate.symbolic_params_of gs2).
Proof.
  unfold Evaluate.symbolic_params_of.
  rewrite foldl_app, !symbolic_params_of_flat.
  apply add_params_split.
Qed.

(** The parameters of a circuit are listed once each, and they are the
    symbols of its gates. *)
Theorem symbolic_params_lists_each_symbol_once self gs :
  gates self = Some gs →
  ∃ ps, symbolic_params self = Ok ps
        ∧ NoDup ps
        ∧ ∀ s, s ∈ ps ↔ ∃ g, g ∈ gs ∧ s ∈ Gate_symbolic_params g.
Proof.
  intros Hgs. unfold symbolic_params. rewrite Hgs. simpl.
  eexists. split; [reflexivity|]. split.
  - unfold Evaluate.symbolic_params_of. rewrite symbolic_params_of_flat.
    apply add_params_NoDup, NoDup_nil_2.
  - intros s. apply EvaluateFacts.elem_of_symbolic_params_of.
Qed.

(** The parameters of a sum: those of the left operand, then the ones the
    right operand adds, in the order of the right operand. *)
Theorem symbolic_params_add a b ga qa gb qb :
  gates a = Some ga → qubits a = Some qa →
  gates b = Some gb → qubits b = Some qb →
  ∃ c pa pb, __add__ a b = Ok c
    ∧ symbolic_params a = Ok pa
    ∧ symbolic_params b = Ok pb
    ∧ symbolic_params c = Ok (pa ++ filter (fun s => s ∉ pa) pb).
Proof.
  intros Hga Hqa Hgb Hqb.
  unfold __add__, symbolic_params. rewrite Hga, Hqa, Hgb, Hqb. simpl.
  eexists _, _, _. split; [reflexivity|]. split; [reflexivity|].
  split; [reflexivity|].
  cbn [the_list gates mbind result_bind bind].
  by rewrite symbolic_params_of_app.
Qed.

End Facts.

End CircuitPropertiesFacts.

(* ===================================================================== *)
(** * Results on [Circuit.to_pyquil] *)
(* ===================================================================== *)

Module ToPyquilFacts.
Import Py Pyquil ToPyquil.

Section Facts.
Variable COMMON_GATES UNIQUE_GATES : list string.
Variable Gate_to_pyquil : Gate.t → Program.

#[local] Notation "'add_gate'" :=
  (add_gate_to_pyquil_program COMMON_GATES UNIQUE_GATES Gate_to_pyquil).
#[local] Notation "'loop'" :=
  (to_pyquil_loop COMMON_GATES UNIQUE_GATES Gate_to_pyquil).
#[local] Notation "'export'" :=
  (to_pyquil COMMON_GATES UNIQUE_GATES Gate_to_pyquil).

Lemma loop_app l1 : ∀ o l2,
  loop o (l1 ++ l2) = (o' ← loop o l1; loop o' l2).
Proof.
  induction l1 as [|g l1 IH]; intros o l2; simpl; [done|].
  destruct (add_gate o g) as [o'|e]; simpl; [apply IH | done].
Qed.

(** How one gate changes the definitions of a program. *)
Lemma add_gate_definitions o gate p' :
  add_gate o gate = Ok (Some p') →
  ∃ p, o = Some p ∧
    ( (Gate.name gate ∈ COMMON_GATES
       ∧ defined_gates p'
         = defined_gates p ++ defined_gates (Gate_to_pyquil gate))
    ∨ (Gate.name gate ∈ ["ZXZ"; "RH"; "XX"; "YY"; "ZZ"]
       ∧ ∃ d, dg_name d = Gate.name gate
              ∧ defined_gates p' = defined_gates p ++ [d])
    ∨ (Gate.name gate = "U1ex"
       ∧ gate_already_defined (defined_gates p) "U1ex" = false
       ∧ ∃ d, dg_name d = "U1ex"
              ∧ defined_gates p' = defined_gates p ++ [d])
    ∨ (defined_gates p' = defined_gates p
       ∧ (Gate.name gate = "U2ex" →
          gate_already_defined (defined_gates p) "U2ex" = true)) ).
Proof.
  intros H. unfold add_gate_to_pyquil_program in H.
  case_bool_decide as Hc.
  { destruct o as [p|]; [|discriminate H]. exists p. split; [done|].
    left. split; [done|]. simpl in H. by injection H as <-. }
  case_bool_decide as Hu; [|discriminate H].
  destruct (String.eqb_spec (Gate.name gate) "ZXZ") as [E|_].
  { destruct o as [p|]; [|discriminate H]. run_binds H.
    injection H as <-. exists p. split; [done|]. right. left.
    rewrite E. split; [in_names|]. eexists. split; [|reflexivity]. done. }
  destruct (String.eqb_spec (Gate.name gate) "RH") as [E|_].
  { destruct o as [p|]; [|discriminate H]. run_binds H.
    injection H as <-. exists p. split; [done|]. right. left.
    rewrite E. split; [in_names|]. eexists. split; [|reflexivity]. done. }
  destruct (String.eqb_spec (Gate.name gate) "XX") as [E|_].
  { destruct o as [p|]; [|discriminate H]. run_binds H.
    injection H as <-. exists p. split; [done|]. right. left.
    rewrite E. split; [in_names|]. eexists. split; [|reflexivity]. done. }
  destruct (String.eqb_spec (Gate.name gate) "YY") as [E|_].
  { destruct o as [p|]; [|discriminate H]. run_binds H.
    injection H as <-. exists p. split; [done|]. right. left.
    rewrite E. split; [in_names|]. eexists. split; [|reflexivity]. done. }
  destruct (String.eqb_spec (Gate.name gate) "ZZ") as [E|_].
  { destruct o as [p|]; [|discriminate H]. run_binds H.
    injection H as <-. exists p. split; [done|]. right. left.
    rewrite E. split; [in_names|]. eexists. split; [|reflexivity]. done. }
  destruct (String.eqb_spec (Gate.name gate) "U1ex") as [E|NE1].
  { run_binds H. destruct o as [p|]; [|discriminate H]. run_binds H.
    exists p. split; [done|].
    destruct (gate_already_defined (defined_gates p) "U1ex") eqn:Hdef;
      simpl in H; injection H as <-.
    - right. right. right. split; [done|]. rewrite E. discriminate.
    - right. right. left. split; [done|]. split; [done|].
      eexists. split; [|reflexivity]. done. }
  destruct (String.eqb_spec (Gate.name gate) "U2ex") as [E|NE2].
  { run_binds H. destruct o as [p|]; [|discriminate H]. run_binds H.
    exists p. split; [done|].
    destruct (gate_already_defined (defined_gates p) "U2ex") eqn:Hdef;
      simpl in H; [|discriminate H]. injection H as <-.
    right. right. right. done. }
  destruct (String.eqb_spec (Gate.name gate) "MEASURE") as [E|_].
  { run_binds H. destruct o as [p|]; [|discriminate H]. run_binds H.
    injection H as <-. exists p. split; [done|].
    right. right. right. split; [done|]. rewrite E. discriminate. }
  destruct (String.eqb_spec (Gate.name gate) "BARRIER") as [E|_];
    [|discriminate H].
  injection H as ->. exists p'. split; [done|].
  right. right. right. split; [done|]. rewrite E. discriminate.
Qed.

(** Without a program, a gate gives no program. *)
Lemma add_gate_None gate p' : add_gate None gate ≠ Ok (Some p').
Proof.
  intros H. apply add_gate_definitions in H as (p & Hp & _). discriminate.
Qed.

Lemma loop_None gs : ∀ p', loop None gs ≠ Ok (Some p').
Proof.
  induction gs as [|g gs IH]; intros p' H; simpl in H; [discriminate|].
  destruct (add_gate None g) as [[p|]|e] eqn:Hg; simpl in H.
  - by apply add_gate_None in Hg.
  - by apply IH in H.
  - discriminate.
Qed.

Lemma add_gate_falls_through o gate :
  falls_through COMMON_GATES UNIQUE_GATES gate → add_gate o gate = Ok None.
Proof.
  intros [Hc Hu]. unfold add_gate_to_pyquil_program.
  rewrite bool_decide_eq_false_2 by done.
  case_bool_decide as Hin; [|done].
  destruct Hu as [Hu|Hu]; [done|].
  unfold unique_branches in Hu.
  repeat match goal with
  | |- context [String.eqb ?a ?b] =>
      destruct (String.eqb_spec a b) as [E|E];
      [exfalso; apply Hu; rewrite E; in_names|clear E]
  end.
  done.
Qed.

(** A circuit with a gate of neither catalog, or of a name the function
    has no branch for, is never exported to a program: [to_pyquil] returns
    [None] or raises. *)
Theorem to_pyquil_no_program_after_unknown_gate gates :
  Exists (falls_through COMMON_GATES UNIQUE_GATES) gates →
  ∀ p, export (Some gates) ≠ Ok (Some p).
Proof.
  intros Hex p H. apply Exists_exists in Hex as (g & Hin & Hg).
  apply list_elem_of_split in Hin as (pre & rest & ->).
  unfold to_pyquil in H. rewrite loop_app in H.
  destruct (loop (Some Program_new) pre) as [o|e]; simpl in H; [|done].
  rewrite (add_gate_falls_through _ _ Hg) in H. simpl in H.
  by apply loop_None in H.
Qed.

(** The last gate falls through: [to_pyquil] returns [None]. *)
Lemma to_pyquil_unknown_last pre g p :
  export (Some pre) = Ok (Some p) →
  falls_through COMMON_GATES UNIQUE_GATES g →
  export (Some (pre ++ [g])) = Ok None.
Proof.
  unfold to_pyquil. intros Hpre Hg. rewrite loop_app, Hpre. simpl.
  by rewrite (add_gate_falls_through _ _ Hg).
Qed.

(** ... and a COMMON gate after it raises [TypeError]. *)
Lemma to_pyquil_unknown_then_common pre g g' rest p :
  export (Some pre) = Ok (Some p) →
  falls_through COMMON_GATES UNIQUE_GATES g →
  Gate.name g' ∈ COMMON_GATES →
  export (Some (pre ++ g :: g' :: rest))
  = Raise (TypeError "unsupported operand type(s) for +").
Proof.
  unfold to_pyquil. intros Hpre Hg Hg'. rewrite loop_app, Hpre. simpl.
  rewrite (add_gate_falls_through _ _ Hg). simpl.
  unfold add_gate_to_pyquil_program. by rewrite bool_decide_eq_true_2.
Qed.

(** *** Invariants of the definitions *)

Lemma gate_already_defined_names defs n :
  gate_already_defined defs n = true ↔ n ∈ map dg_name defs.
Proof.
  induction defs as [|d defs IH]; simpl.
  - rewrite elem_of_nil. split; [discriminate|done].
  - rewrite elem_of_cons, orb_true_iff, IH.
    destruct (String.eqb_spec (dg_name d) n); split; intros [?|?]; auto;
      congruence.
Qed.

Lemma count_defs_names n p :
  n ∉ defined_names p → count_defs n p = 0%nat.
Proof.
  unfold defined_names, count_defs. induction (defined_gates p) as [|d l IH].
  - done.
  - simpl. rewrite not_elem_of_cons. intros [Hd Hl].
    rewrite filter_cons, decide_False by done. by apply IH.
Qed.

Lemma count_filter_app n (l1 l2 : list DefGate) :
  length (filter (fun d => dg_name d = n) (l1 ++ l2))
  = (length (filter (fun d => dg_name d = n) l1)
     + length (filter (fun d => dg_name d = n) l2))%nat.
Proof. by rewrite filter_app, length_app. Qed.

Section NoU2ex.
Hypothesis not_common : "U2ex" ∉ COMMON_GATES.
Hypothesis common_defines_no_U2ex :
  ∀ g, "U2ex" ∉ defined_names (Gate_to_pyquil g).

(** No branch adds a definition of [U2ex]. *)
Lemma add_gate_no_U2ex p gate p' :
  "U2ex" ∉ defined_names p →
  add_gate (Some p) gate = Ok (Some p') →
  "U2ex" ∉ defined_names p'.
Proof.
  unfold defined_names. intros Hp H.
  apply add_gate_definitions in H as (p0 & [= <-] & H).
  destruct H as [[Hc ->]|[[Hn (d & Hd & ->)]|[(Hn & _ & d & Hd & ->)|[-> H]]]].
  - rewrite map_app, elem_of_app.
    intros [?|?]; [done|]. by apply (common_defines_no_U2ex gate).
  - rewrite map_app, elem_of_app. simpl. rewrite list_elem_of_singleton, Hd.
    intros [?|E]; [done|]. rewrite <- E in Hn. not_in_names Hn.
  - rewrite map_app, elem_of_app. simpl. rewrite list_elem_of_singleton, Hd.
    intros [?|?]; done.
  - done.
Qed.

Lemma loop_no_U2ex gs : ∀ p p',
  "U2ex" ∉ defined_names p →
  loop (Some p) gs = Ok (Some p') →
  "U2ex" ∉ defined_names p'.
Proof.
  induction gs as [|g gs IH]; intros p p' Hp H; simpl in H.
  - by injection H as <-.
  - destruct (add_gate (Some p) g) as [[p1|]|e] eqn:Hg; simpl in H.
    + apply (IH p1 p'); [|done]. by eapply add_gate_no_U2ex.
    + by apply loop_None in H.
    + discriminate.
Qed.

Hypothesis unique : "U2ex" ∈ UNIQUE_GATES.

(** The [U2ex] branch raises whenever it is reached. *)
Lemma add_gate_U2ex_raises o gate :
  Gate.name gate = "U2ex" →
  match o with Some p => "U2ex" ∉ defined_names p | None => True end →
  ∃ e, add_gate o gate = Raise e.
Proof.
  intros Hname Ho. unfold add_gate_to_pyquil_program. rewrite Hname.
  rewrite bool_decide_eq_false_2 by done.
  rewrite bool_decide_eq_true_2 by done.
  cbn [String.eqb Ascii.eqb Bool.eqb].
  destruct (item (Gate.params gate) 0) as [p0|e]; simpl; [|by eexists].
  destruct (qubit_index gate 0) as [i0|e]; simpl; [|by eexists].
  destruct (qubit_index gate 1) as [i1|e]; simpl; [|by eexists].
  destruct o as [p|]; simpl; [|by eexists].
  destruct (gate_already_defined (defined_gates p) "U2ex") eqn:Hdef; simpl.
  - apply gate_already_defined_names in Hdef. done.
  - by eexists.
Qed.

(** A circuit with a [U2ex] gate is never exported: [to_pyquil] raises. *)
Theorem to_pyquil_raises_on_U2ex gates :
  Exists (fun g => Gate.name g = "U2ex") gates →
  ∃ e, export (Some gates) = Raise e.
Proof.
  intros Hex. apply Exists_exists in Hex as (g & Hin & Hg).
  apply list_elem_of_split in Hin as (pre & rest & ->).
  unfold to_pyquil. rewrite loop_app.
  destruct (loop (Some Program_new) pre) as [o|e] eqn:Hpre; simpl;
    [|by eexists].
  destruct (add_gate_U2ex_raises o g Hg) as [e He].
  - destruct o as [p|]; [|done].
    apply (loop_no_U2ex pre Program_new p); [|done].
    unfold defined_names. simpl. apply not_elem_of_nil.
  - rewrite He. by eexists.
Qed.

End NoU2ex.

Section AtMostOnce.
Hypothesis common_defines_no_U1ex :
  ∀ g, "U1ex" ∉ defined_names (Gate_to_pyquil g).

Lemma add_gate_U1ex_once p gate p' :
  (count_defs "U1ex" p ≤ 1)%nat →
  add_gate (Some p) gate = Ok (Some p') →
  (count_defs "U1ex" p' ≤ 1)%nat.
Proof.
  unfold count_defs. intros Hp H.
  apply add_gate_definitions in H as (p0 & [= <-] & H).
  destruct H as [[Hc ->]|[[Hn (d & Hd & ->)]|[(Hn & Hdef & d & Hd & ->)|[-> H]]]].
  - rewrite count_filter_app.
    pose proof (count_defs_names "U1ex" _ (common_defines_no_U1ex gate)) as E.
    unfold count_defs in E. lia.
  - rewrite count_filter_app. simpl. rewrite filter_cons, decide_False.
    + simpl. lia.
    + rewrite Hd. intros E. rewrite E in Hn. not_in_names Hn.
  - rewrite count_filter_app. simpl.
    rewrite filter_cons, decide_True by done. simpl.
    destruct (length (filter (fun d => dg_name d = "U1ex") (defined_gates p)))
      eqn:E; [lia|].
    assert (gate_already_defined (defined_gates p) "U1ex" = true).
    { apply PyquilFacts.gate_already_defined_count. lia. }
    congruence.
  - done.
Qed.

(** Whatever the circuit, the exported program holds the definition of
    [U1ex] at most once. *)
Theorem to_pyquil_defines_U1ex_at_most_once gates p :
  export (Some gates) = Ok (Some p) →
  (count_defs "U1ex" p ≤ 1)%nat.
Proof.
  unfold to_pyquil.
  assert (∀ gs p0 p1, (count_defs "U1ex" p0 ≤ 1)%nat →
            loop (Some p0) gs = Ok (Some p1) →
            (count_defs "U1ex" p1 ≤ 1)%nat) as Hloop.
  { induction gs as [|g gs IH]; intros p0 p1 Hp0 H; simpl in H.
    - by injection H as <-.
    - destruct (add_gate (Some p0) g) as [[p2|]|e] eqn:Hg; simpl in H.
      + apply (IH p2 p1); [|done]. by eapply add_gate_U1ex_once.
      + by apply loop_None in H.
      + discriminate. }
  apply Hloop. unfold count_defs. simpl. lia.
Qed.

End AtMostOnce.

Section TwoQubitRotations.
Hypothesis not_common : ∀ n, n ∈ ["XX"; "YY"; "ZZ"] → n ∉ COMMON_GATES.
Hypothesis unique : ∀ n, n ∈ ["XX"; "YY"; "ZZ"] → n ∈ UNIQUE_GATES.

Lemma add_gate_two_qubit_rotation p gate :
  two_qubit_rotation gate →
  ∃ d i, dg_name d = Gate.name gate
         ∧ applied gate = Some i
         ∧ add_gate (Some p) gate
           = Ok (Some (add_instr (add_defgate p d) i)).
Proof.
  intros (Hname & Hparams & Hqubits).
  unfold add_gate_to_pyquil_program, applied, qubit_index, item.
  rewrite bool_decide_eq_false_2 by by apply not_common.
  rewrite bool_decide_eq_true_2 by by apply unique.
  destruct (Gate.params gate) as [|p0 ps]; [done|].
  destruct (Gate.qubits gate) as [|q0 [|q1 qs]]; simpl in Hqubits; try lia.
  rewrite !elem_of_cons, elem_of_nil in Hname.
  destruct Hname as [->|[->|[->|[]]]]; simpl; eexists _, _;
    (split; [|split; [reflexivity|reflexivity]]); done.
Qed.

(** A circuit of [XX], [YY] and [ZZ] gates is exported to a program with
    one definition and one instruction for each gate, in the order of the
    gates: a gate applied twice is defined twice. *)
Theorem to_pyquil_defines_each_rotation gates :
  Forall two_qubit_rotation gates →
  ∃ p, export (Some gates) = Ok (Some p)
       ∧ defined_names p = map Gate.name gates
       ∧ Forall2 (fun g i => applied g = Some i) gates (instructions p).
Proof.
  unfold to_pyquil, defined_names.
  assert (∀ gs p0, Forall two_qubit_rotation gs →
    ∃ p, loop (Some p0) gs = Ok (Some p)
         ∧ map dg_name (defined_gates p)
           = map dg_name (defined_gates p0) ++ map Gate.name gs
         ∧ ∃ ins, instructions p = instructions p0 ++ ins
                 ∧ Forall2 (fun g i => applied g = Some i) gs ins) as Hloop.
  { induction gs as [|g gs IH]; intros p0 Hall.
    - exists p0. simpl. rewrite app_nil_r. split; [done|]. split; [done|].
      exists []. rewrite app_nil_r. split; [done|]. constructor.
    - apply Forall_cons in Hall as [Hg Hall].
      destruct (add_gate_two_qubit_rotation p0 g Hg) as (d & i & Hd & Hi & E).
      destruct (IH (add_instr (add_defgate p0 d) i) Hall)
        as (p & Hp & Hdefs & ins & His & Hall2).
      exists p. simpl. rewrite E. simpl. split; [done|]. split.
      + rewrite Hdefs. simpl. rewrite map_app. simpl.
        rewrite Hd, <- app_assoc. done.
      + exists (i :: ins). split.
        * rewrite His. simpl. by rewrite <- app_assoc.
        * by constructor. }
  intros Hall. destruct (Hloop gates Program_new Hall)
    as (p & Hp & Hdefs & ins & His & Hall2).
  exists p. split; [done|]. split; [done|]. simpl in His. by rewrite His.
Qed.

End TwoQubitRotations.

(** A gate with a definition of its own and no parameter: the branch reads
    [gate.params[0]] and raises [IndexError]. *)
Theorem add_gate_without_parameter_raises p gate :
  Gate.name gate ∈ ["ZXZ"; "RH"; "XX"; "YY"; "ZZ"; "U1ex"; "U2ex"] →
  Gate.name gate ∉ COMMON_GATES →
  Gate.name gate ∈ UNIQUE_GATES →
  Gate.params gate = [] →
  add_gate (Some p) gate = Raise (IndexError "list index out of range").
Proof.
  intros Hname Hc Hu Hparams.
  unfold add_gate_to_pyquil_program, item.
  rewrite bool_decide_eq_false_2 by done.
  rewrite bool_decide_eq_true_2 by done.
  rewrite Hparams.
  rewrite !elem_of_cons, elem_of_nil in Hname.
  destruct Hname as [->|[->|[->|[->|[->|[->|[->|[]]]]]]]]; reflexivity.
Qed.

End Facts.

End ToPyquilFacts.

(* ===================================================================== *)
(** * Results on [Circuit.from_cirq] *)
(* ===================================================================== *)

Module FromCirqFacts.
Import Py Importers FromCirq LoopFacts.

Section Facts.
Variable Qubit_from_cirq : Cirq.Qid → Z → Qubit.t.
Variable Gate_from_cirq : Cirq.Operation → list ref → gate.

Lemma cirq_operand_grid l gq qubit :
  seen_line_qubits l → Cirq.is_GridQubit qubit = true →
  ∃ e, cirq_operand Qubit_from_cirq (l, gq) qubit = Raise e.
Proof.
  unfold seen_line_qubits, cirq_operand. intros Hl Hq.
  destruct qubit as [row col|x]; [|discriminate].
  destruct (_native_qubits l) as [|q rest]; simpl.
  - by eexists.
  - apply Forall_cons in Hl as [Hline _].
    destruct q as [r c|x]; [discriminate|]. simpl. by eexists.
Qed.

Lemma cirq_operand_keeps l gq qubit l' gq' :
  seen_line_qubits l →
  cirq_operand Qubit_from_cirq (l, gq) qubit = Ok (l', gq') →
  seen_line_qubits l'.
Proof.
  intros Hl H. destruct (Cirq.is_GridQubit qubit) eqn:Hq.
  { destruct (cirq_operand_grid l gq qubit Hl Hq) as [e He]. congruence. }
  unfold cirq_operand in H. unfold seen_line_qubits in *.
  destruct (Cirq.qubit_in_list qubit (_native_qubits l)) as [[flag idx]|e];
    simpl in H; [|discriminate].
  destruct flag; simpl in H.
  - destruct (cirq_search _ _ _ _) as [old|e]; simpl in H; [|discriminate].
    destruct (read_old old) as [q|e]; simpl in H; [|discriminate].
    by injection H as <- <-.
  - destruct (Cirq.attr_x qubit) as [x|e]; simpl in H; [|discriminate].
    injection H as <- <-. simpl. apply Forall_app. split; [done|].
    constructor; [|done]. by destruct qubit.
Qed.

Lemma cirq_operation_keeps l op l' :
  seen_line_qubits l →
  cirq_operation Qubit_from_cirq Gate_from_cirq l op = Ok l' →
  seen_line_qubits l'.
Proof.
  unfold cirq_operation. intros Hl H.
  destruct (for_each _ _ _) as [[l1 gq1]|e] eqn:Hloop; simpl in H;
    [|discriminate].
  injection H as <-. unfold seen_line_qubits. simpl.
  apply (for_each_invariant (cirq_operand Qubit_from_cirq)
           (fun st => seen_line_qubits st.1)) in Hloop; [done| |done].
  intros [l0 gq0] q [l2 gq2] H0 H2. by eapply cirq_operand_keeps.
Qed.

Lemma cirq_operation_grid l op :
  seen_line_qubits l → on_grid_qubit op →
  ∃ e, cirq_operation Qubit_from_cirq Gate_from_cirq l op = Raise e.
Proof.
  unfold cirq_operation, on_grid_qubit. intros Hl Hop.
  destruct (for_each_raises (cirq_operand Qubit_from_cirq)
              (fun st => seen_line_qubits st.1)
              (fun q => Cirq.is_GridQubit q = true)) with
    (l := Cirq.qubits op) (s := (l, @nil ref)) as [e He]; [| |done|done|].
  - intros [l0 gq0] q [l2 gq2] H0 H2. by eapply cirq_operand_keeps.
  - intros [l0 gq0] q H0 Hq. by apply cirq_operand_grid.
  - rewrite He. by exists e.
Qed.

(** A circuit with a grid qubit among the operands of an operation is not
    imported: [from_cirq] raises. *)
Theorem from_cirq_raises_on_grid_qubit cirq_circuit :
  Exists (Exists on_grid_qubit) cirq_circuit →
  ∃ e, from_cirq Qubit_from_cirq Gate_from_cirq cirq_circuit = Raise e.
Proof.
  intros Hex. unfold from_cirq.
  destruct (orb _ _) eqn:Hempty.
  { exfalso. apply orb_true_iff in Hempty as [H|H]; apply Nat.eqb_eq in H.
    - destruct cirq_circuit; [by apply Exists_nil in Hex | done].
    - clear -Hex H. induction Hex as [m ms Hm|m ms Hms IH]; simpl in H.
      + destruct m; [by apply Exists_nil in Hm | simpl in H; lia].
      + apply IH. lia. }
  destruct (for_each_raises
              (cirq_moment Qubit_from_cirq Gate_from_cirq)
              seen_line_qubits (Exists on_grid_qubit)) with
    (l := cirq_circuit) (s := mklocals (@nil Qubit.t) (@nil Cirq.Qid) [] None [])
    as [e He]; [| | |done|].
  - intros l m l' Hl H. unfold cirq_moment in H.
    eapply (for_each_invariant _ seen_line_qubits); [|exact Hl|exact H].
    intros ? ? ? ? ?. by eapply cirq_operation_keeps.
  - intros l m Hl Hm. unfold cirq_moment.
    eapply (for_each_raises _ seen_line_qubits on_grid_qubit); [| |done|done].
    + intros ? ? ? ? ?. by eapply cirq_operation_keeps.
    + intros ? ? ? ?. by apply cirq_operation_grid.
  - constructor.
  - rewrite He. by exists e.
Qed.

(** The first operand of the circuit is a grid qubit: the exception is the
    [AttributeError] of [qubit.x]. *)
Lemma from_cirq_grid_first g row col qs ops moments :
  from_cirq Qubit_from_cirq Gate_from_cirq
    ((Cirq.mkOp g (Cirq.GridQubit row col :: qs) :: ops) :: moments)
  = Raise (AttributeError "x").
Proof. reflexivity. Qed.





End Facts.

(** *** Circuits on line qubits *)

Lemma index_in_app x xs ext q :
  index_in x xs = Some q → index_in x (xs ++ ext) = Some q.
Proof.
  revert q. induction xs as [|y xs IH]; intros q; simpl; [discriminate|].
  case_bool_decide; [done|].
  destruct (index_in x xs) as [q'|]; simpl; [|discriminate].
  intros [= <-]. by rewrite (IH q').
Qed.

Lemma index_in_lookup x xs q : index_in x xs = Some q → xs !! q = Some x.
Proof.
  revert q. induction xs as [|y xs IH]; intros q; simpl; [discriminate|].
  case_bool_decide as Hx.
  - intros [= <-]. simpl. by rewrite Hx.
  - destruct (index_in x xs) as [q'|]; simpl; [|discriminate].
    intros [= <-]. by apply IH.
Qed.

Lemma index_in_elem_of x xs : x ∈ xs → is_Some (index_in x xs).
Proof.
  induction 1 as [x xs|x y xs _ IH]; simpl.
  - by rewrite bool_decide_eq_true_2.
  - case_bool_decide; [done|]. destruct IH as [q ->]. done.
Qed.

Lemma index_in_new x xs :
  x ∉ xs → index_in x (xs ++ [x]) = Some (length xs).
Proof.
  induction xs as [|y xs IH]; simpl; intros Hnot.
  - by rewrite bool_decide_eq_true_2.
  - apply not_elem_of_cons in Hnot as [Hne Hnot].
    rewrite bool_decide_eq_false_2 by done. by rewrite IH.
Qed.

Lemma qubit_in_list_line x xs :
  Cirq.qubit_in_list (Cirq.LineQubit x) (map Cirq.LineQubit xs)
  = Ok (if bool_decide (x ∈ xs) then (true, Cirq.LineKey x)
        else (false, Cirq.NoIndex)).
Proof.
  induction xs as [|y xs IH]; cbn [map Cirq.qubit_in_list].
  - by rewrite bool_decide_eq_false_2 by apply not_elem_of_nil.
  - cbn. destruct (Z.eqb_spec x y) as [->|Hne].
    + by rewrite bool_decide_eq_true_2 by left.
    + rewrite IH. case_bool_decide as Hin.
      * by rewrite bool_decide_eq_true_2 by by right.
      * rewrite bool_decide_eq_false_2; [done|].
        intros H. apply elem_of_cons in H as [?|?]; congruence.
Qed.

(** The search loop finds the first object with the key. *)
Lemma cirq_search_seq x old objs : ∀ xs pre,
  map (fun o => Qubit.info o !! "QubitKey") objs
  = map (fun x => Some (VInt x)) xs →
  cirq_search (pre ++ objs) (seq (length pre) (length objs))
    (Cirq.LineKey x) old
  = Ok (match index_in x xs with
        | Some j => Some (length pre + j)%nat
        | None => old
        end).
Proof.
  induction objs as [|o objs IH]; intros xs pre Hkeys.
  - destruct xs; [done|discriminate].
  - destruct xs as [|y xs]; [discriminate|].
    cbn [map] in Hkeys. injection Hkeys as Hkey Hkeys.
    cbn [length seq cirq_search index_in].
    unfold deref. rewrite lookup_app_r, Nat.sub_diag by lia.
    cbn [lookup list_lookup mbind result_bind bind].
    unfold info_QubitKey. rewrite Hkey. cbn [mbind result_bind bind key_eqb].
    destruct (Z.eqb_spec y x) as [->|Hne].
    + rewrite bool_decide_eq_true_2 by done. do 3 f_equal. lia.
    + rewrite bool_decide_eq_false_2 by congruence.
      specialize (IH xs (pre ++ [o]) Hkeys).
      rewrite <- app_assoc in IH. cbn [app] in IH.
      rewrite length_app in IH. cbn [length] in IH.
      replace (length pre + 1)%nat with (S (length pre)) in IH by lia.
      rewrite IH. destruct (index_in x xs); simpl; [|done].
      do 3 f_equal. lia.
Qed.

Lemma line_resolved_app xs ext native refs :
  line_resolved xs native refs → line_resolved (xs ++ ext) native refs.
Proof.
  unfold line_resolved. intros H. eapply Forall2_impl; [exact H|].
  intros nq q (x & -> & Hx). exists x. split; [done|].
  by apply index_in_app.
Qed.

Lemma line_gates_resolved_app xs ext ops gs :
  line_gates_resolved xs ops gs → line_gates_resolved (xs ++ ext) ops gs.
Proof.
  unfold line_gates_resolved. intros H. eapply Forall2_impl; [exact H|].
  intros op ig. apply line_resolved_app.
Qed.

Section LineQubits.
Variable Qubit_from_cirq : Cirq.Qid → Z → Qubit.t.
Variable Gate_from_cirq : Cirq.Operation → list ref → gate.

(** What the results ask of [Qubit.from_cirq] and [Gate.from_cirq]: the
    qubit records the coordinate of a line qubit under [QubitKey], and the
    gate keeps the qubit list it is given. *)
Hypothesis Qubit_from_cirq_key : ∀ x index,
  Qubit.info (Qubit_from_cirq (Cirq.LineQubit x) index) !! "QubitKey"
  = Some (VInt x).
Hypothesis Gate_from_cirq_qubits : ∀ op _gatequbits,
  qubits (Gate_from_cirq op _gatequbits) = _gatequbits.

(** One operand. *)
Lemma cirq_operand_line xs l _gatequbits x :
  line_invariant xs l →
  ∃ l' q xs',
    cirq_operand Qubit_from_cirq (l, _gatequbits) (Cirq.LineQubit x)
    = Ok (l', _gatequbits ++ [q])
    ∧ line_invariant xs' l'
    ∧ index_in x xs' = Some q
    ∧ (∃ ext, xs' = xs ++ ext)
    ∧ _gatelist l' = _gatelist l.
Proof.
  intros [Hq Hn Hk Hd]. unfold cirq_operand.
  rewrite Hn, qubit_in_list_line. cbn [mbind result_bind bind].
  assert (length (objects l) = length xs) as Hlen.
  { rewrite <- (length_map (fun o => Qubit.info o !! "QubitKey")), Hk.
    by rewrite length_map. }
  case_bool_decide as Hseen; cbn [negb].
  - pose proof (cirq_search_seq x (_old_Qubit l) (objects l) xs [] Hk) as Hs.
    cbn [app length] in Hs. rewrite Hq, Hs.
    destruct (index_in_elem_of _ _ Hseen) as [q Hf]. rewrite Hf.
    cbn [mbind result_bind bind read_old Nat.add].
    exists (mklocals (objects l) (map Cirq.LineQubit xs)
              (seq 0 (length (objects l))) (Some q) (_gatelist l)), q, xs.
    split; [done|]. split; [by constructor|].
    split; [done|]. split; [|done]. exists []. by rewrite app_nil_r.
  - cbn [Cirq.attr_x mbind result_bind bind].
    eexists _, _, (xs ++ [x]). split; [reflexivity|].
    split; [|split; [|split; [by eexists|done]]].
    + constructor; cbn [objects _native_qubits _qubits].
      * rewrite length_app, Hq. simpl. by rewrite seq_app.
      * by rewrite map_app.
      * rewrite !map_app, Hk. simpl. by rewrite Qubit_from_cirq_key.
      * apply NoDup_app. split; [done|]. split; [|apply NoDup_singleton].
        intros y Hy Hy'. apply list_elem_of_singleton in Hy'. congruence.
    + rewrite Hlen. by apply index_in_new.
Qed.

(** The operands of one operation. *)
Lemma cirq_operands_line operands : ∀ xs l done _gatequbits,
  Forall (fun q => Cirq.is_LineQubit q = true) operands →
  line_invariant xs l →
  line_resolved xs done _gatequbits →
  ∃ l' _gatequbits' xs',
    for_each (cirq_operand Qubit_from_cirq) (l, _gatequbits) operands
    = Ok (l', _gatequbits')
    ∧ line_invariant xs' l'
    ∧ line_resolved xs' (done ++ operands) _gatequbits'
    ∧ (∃ ext, xs' = xs ++ ext)
    ∧ _gatelist l' = _gatelist l.
Proof.
  induction operands as [|qubit operands IH];
    intros xs l done gq Hline Hinv Hres.
  - exists l, gq, xs. simpl. rewrite app_nil_r.
    split; [done|]. split; [done|]. split; [done|].
    split; [|done]. exists []. by rewrite app_nil_r.
  - apply Forall_cons in Hline as [Hq Hline].
    destruct qubit as [row col|x]; [discriminate|].
    destruct (cirq_operand_line xs l gq x Hinv)
      as (l1 & q & xs1 & Hstep & Hinv1 & Hfq & [ext1 Hext1] & Hg1).
    destruct (IH xs1 l1 (done ++ [Cirq.LineQubit x]) (gq ++ [q]) Hline Hinv1)
      as (l' & gq' & xs' & Hloop & Hinv' & Hres' & [ext' Hext'] & Hg').
    { apply Forall2_app.
      - rewrite Hext1. by apply line_resolved_app.
      - repeat constructor. by exists x. }
    exists l', gq', xs'. cbn [for_each]. rewrite Hstep.
    split; [exact Hloop|]. split; [done|].
    split; [by rewrite <- app_assoc in Hres'|].
    split; [|congruence].
    exists (ext1 ++ ext'). by rewrite Hext', Hext1, <- app_assoc.
Qed.

Lemma cirq_operation_runs l op l1 _gatequbits :
  for_each (cirq_operand Qubit_from_cirq) (l, []) (Cirq.qubits op)
  = Ok (l1, _gatequbits) →
  cirq_operation Qubit_from_cirq Gate_from_cirq l op
  = Ok (mklocals (objects l1) (_native_qubits l1) (_qubits l1)
                 (_old_Qubit l1)
                 (_gatelist l1 ++ [Gate_from_cirq op _gatequbits])).
Proof. intros H. unfold cirq_operation. by rewrite H. Qed.

(** The operations of the circuit. *)
Lemma cirq_operations_line ops : ∀ xs l done,
  Forall (fun op => Forall (fun q => Cirq.is_LineQubit q = true)
                           (Cirq.qubits op)) ops →
  line_invariant xs l →
  line_gates_resolved xs done (_gatelist l) →
  ∃ l' xs',
    for_each (cirq_operation Qubit_from_cirq Gate_from_cirq) l ops = Ok l'
    ∧ line_invariant xs' l'
    ∧ line_gates_resolved xs' (done ++ ops) (_gatelist l').
Proof.
  induction ops as [|op ops IH]; intros xs l done Hline Hinv Hres.
  - exists l, xs. simpl. by rewrite app_nil_r.
  - apply Forall_cons in Hline as [Hop Hline].
    destruct (cirq_operands_line (Cirq.qubits op) xs l [] [] Hop Hinv)
      as (l1 & gq & xs1 & Hloop & Hinv1 & Hres1 & [ext Hext] & Hg1);
      [constructor|].
    set (l2 := mklocals (objects l1) (_native_qubits l1) (_qubits l1)
                 (_old_Qubit l1)
                 (_gatelist l1 ++ [Gate_from_cirq op gq])).
    destruct (IH xs1 l2 (done ++ [op]) Hline) as (l' & xs' & Hloop' & Hinv' & Hres').
    { destruct Hinv1. by constructor. }
    { subst l2. cbn [_gatelist]. apply Forall2_app.
      - rewrite Hg1, Hext. by apply line_gates_resolved_app.
      - repeat constructor. by rewrite Gate_from_cirq_qubits. }
    exists l', xs'. cbn [for_each].
    rewrite (cirq_operation_runs _ _ _ _ Hloop).
    split; [exact Hloop'|]. split; [done|].
    by rewrite <- app_assoc in Hres'.
Qed.

(** Deduplication in [from_cirq], for a circuit on line qubits: the
    circuit is imported, and for every line qubit [x] that is an operand,
    the qubit list holds exactly one reference [q] to a qubit with the key
    [x], and every operand position that holds this qubit holds that same
    reference [q] in the imported gate. *)
Theorem from_cirq_deduplicates_line_qubits cirq_circuit :
  on_line_qubits cirq_circuit →
  ∃ r, from_cirq Qubit_from_cirq Gate_from_cirq cirq_circuit = Ok r
       ∧ ∀ x, Cirq.LineQubit x ∈ cirq_operands cirq_circuit →
           ∃ q, with_key r x = [q]
                ∧ ∀ n op j, cirq_operations cirq_circuit !! n = Some op →
                            Cirq.qubits op !! j = Some (Cirq.LineQubit x) →
                            operand r n j = Some q.
Proof.
  intros Hline. unfold from_cirq.
  destruct (orb _ _) eqn:Hempty.
  { eexists. split; [done|]. intros x Hx. exfalso.
    unfold cirq_operands, cirq_operations in Hx.
    apply orb_true_iff in Hempty as [H|H]; apply Nat.eqb_eq in H.
    - destruct cirq_circuit; [|done]. by apply elem_of_nil in Hx.
    - assert (concat cirq_circuit = []) as Hnil.
      { clear -H. induction cirq_circuit as [|m ms IH]; [done|].
        simpl in H. destruct m; [|simpl in H; lia]. simpl. apply IH.
        simpl in H. lia. }
      rewrite Hnil in Hx. by apply elem_of_nil in Hx. }
  change (cirq_moment Qubit_from_cirq Gate_from_cirq)
    with (for_each (cirq_operation Qubit_from_cirq Gate_from_cirq)).
  unfold Moment in *. rewrite for_each_concat.
  destruct (cirq_operations_line (concat cirq_circuit) []
              (mklocals [] [] [] None []) [])
    as (l' & xs & Hloop & [Hq Hn Hk Hd] & Hres).
  { unfold on_line_qubits, cirq_operands, cirq_operations in Hline.
    apply Forall_forall. intros op Hop. apply Forall_forall. intros q Hq.
    rewrite Forall_forall in Hline. apply Hline.
    apply elem_of_concat_iff. exists (Cirq.qubits op). split; [done|].
    change (Cirq.qubits op ∈ Cirq.qubits <$> concat cirq_circuit).
    by apply list_elem_of_fmap_2. }
  { constructor; cbn; [done|done|done|constructor]. }
  { constructor. }
  rewrite Hloop. cbn [mbind result_bind bind].
  eexists. split; [done|]. cbn [app] in Hres.
  assert (length (objects l') = length xs) as Hlen.
  { rewrite <- (length_map (fun o => Qubit.info o !! "QubitKey")), Hk.
    by rewrite length_map. }
  assert (∀ gs ql q, key_of (mkimported "cirq" (objects l') gs ql) q
                     = (fun x => VInt x) <$> xs !! q) as Hkey.
  { intros gs ql q. unfold key_of. cbn [arena].
    assert ((map (fun o => Qubit.info o !! "QubitKey") (objects l')) !! q
            = (map (fun x => Some (VInt x)) xs) !! q) as E by by rewrite Hk.
    change (((fun o => Qubit.info o !! "QubitKey") <$> objects l') !! q
            = ((fun x => Some (VInt x)) <$> xs) !! q) in E.
    rewrite !list_lookup_fmap in E. unfold ref in *. revert E.
    destruct (objects l' !! q) as [o|], (xs !! q) as [y|]; simpl;
      congruence. }
  intros x Hx.
  assert (∀ n op j, concat cirq_circuit !! n = Some op →
            Cirq.qubits op !! j = Some (Cirq.LineQubit x) →
            ∃ q, operand (mkimported "cirq" (objects l') (_gatelist l')
                            (_qubits l')) n j = Some q
                 ∧ index_in x xs = Some q) as Hop.
  { intros n op j Hnop Hj.
    destruct (Forall2_lookup_l _ _ _ _ _ Hres Hnop) as (ig & Hig & Hrg).
    destruct (Forall2_lookup_l _ _ _ _ _ Hrg Hj) as (q & Hq' & y & [= <-] & Hf).
    exists q. split; [|done]. unfold operand. cbn [gates].
    rewrite Hig. simpl. done. }
  unfold cirq_operands, cirq_operations in Hx.
  apply elem_of_concat_iff in Hx as (qs & Hx & Hqs).
  change (qs ∈ Cirq.qubits <$> concat cirq_circuit) in Hqs.
  apply list_elem_of_fmap in Hqs as (op & -> & Hop').
  apply list_elem_of_lookup in Hop' as [n Hnop].
  apply list_elem_of_lookup in Hx as [j Hj].
  destruct (Hop n op j Hnop Hj) as (q & _ & Hf).
  pose proof (index_in_lookup _ _ _ Hf) as Hxq.
  exists q. split.
  - unfold with_key. cbn [qubit_list]. rewrite Hq.
    apply ImportersFacts.filter_unique.
    + apply NoDup_seq.
    + apply elem_of_seq. split; [lia|]. simpl. rewrite Hlen.
      by eapply lookup_lt_Some.
    + cbv beta. rewrite Hkey. unfold ref in *. by rewrite Hxq.
    + intros q' _ Hq'. cbv beta in Hq'. rewrite Hkey in Hq'.
      unfold ref in *.
      destruct (xs !! q') as [y|] eqn:Hy; [|discriminate].
      simpl in Hq'. injection Hq' as ->.
      by apply (NoDup_lookup xs q' q x Hd).
  - intros n' op' j' Hn' Hj'. unfold cirq_operations in Hn'.
    destruct (Hop n' op' j' Hn' Hj') as (q' & Hq' & Hf'). congruence.
Qed.

End LineQubits.

End FromCirqFacts.

(* ===================================================================== *)
(** * Results on [add_ancilla_register_to_circuit] *)
(* ===================================================================== *)

Module AncillaRegisterFacts.
Import Py Pyquil Importers AncillaRegister.

Lemma pyquil_operand_native l gq qubit l' gq' :
  pyquil_operand (l, gq) qubit = Ok (l', gq') →
  _native_qubits l' = add_new (_native_qubits l) qubit
  ∧ _gatelist l' = _gatelist l.
Proof.
  unfold pyquil_operand, add_new.
  rewrite ImportersFacts.pyquil_qubit_in_list_spec.
  case_bool_decide as Hin; simpl.
  - destruct (pyquil_search _ _ _ _) as [old|e]; simpl; [|discriminate].
    destruct (read_old old) as [q|e]; simpl; [|discriminate].
    by intros [= <- <-].
  - by intros [= <- <-].
Qed.

Lemma pyquil_operands_native operands : ∀ l gq l' gq',
  for_each pyquil_operand (l, gq) operands = Ok (l', gq') →
  _native_qubits l' = foldl add_new (_native_qubits l) operands
  ∧ _gatelist l' = _gatelist l.
Proof.
  induction operands as [|qubit operands IH]; intros l gq l' gq' H;
    cbn [for_each] in H.
  - by simplify_eq.
  - destruct (pyquil_operand (l, gq) qubit) as [[l1 gq1]|e] eqn:Hq;
      simpl in H; [|discriminate].
    apply pyquil_operand_native in Hq as [Hn Hg].
    apply IH in H as [Hn' Hg']. simpl. rewrite <- Hn. split; congruence.
Qed.

Lemma pyquil_instructions_native program : ∀ l l',
  for_each pyquil_instruction l program = Ok l' →
  _native_qubits l'
  = foldl add_new (_native_qubits l) (pyquil_operands program)
  ∧ length (_gatelist l') = (length (_gatelist l) + length program)%nat.
Proof.
  unfold pyquil_operands.
  induction program as [|g program IH]; intros l l' H; cbn [for_each] in H.
  - injection H as <-. simpl. split; [done|lia].
  - destruct (pyquil_instruction l g) as [l1|e] eqn:Hg; simpl in H;
      [|discriminate].
    unfold pyquil_instruction in Hg.
    destruct (for_each pyquil_operand (l, []) (pq_qubits g))
      as [[l2 gq]|e] eqn:Hops; simpl in Hg; [|discriminate].
    injection Hg as <-.
    apply pyquil_operands_native in Hops as [Hn Hgl].
    apply IH in H as [Hn' Hgl']. simpl in *.
    rewrite foldl_app, <- Hn. split; [done|].
    rewrite Hgl', length_app, Hgl. simpl. lia.
Qed.

(** On the gate instructions of a program, [from_pyquil] lists the qubits
    in the order in which the instructions first use them, and makes a
    gate of every instruction. *)
Lemma from_pyquil_lists_qubits_in_order program :
  ∃ r, from_pyquil program = Ok r
       ∧ map Qubit.index (arena r)
         = first_occurrences (pyquil_operands program)
       ∧ qubit_list r = seq 0 (length (arena r))
       ∧ length (gates r) = length program.
Proof.
  unfold from_pyquil. destruct program as [|g program].
  - eexists. split; [done|]. done.
  - destruct (ImportersFacts.pyquil_instructions_spec (g :: program)
                (mklocals [] [] [] None []) [])
      as (l' & Hloop & [Hq Hn Hd] & Hres).
    { constructor; simpl; [done|done|constructor]. }
    { constructor. }
    cbn [length Nat.eqb]. rewrite Hloop.
    apply pyquil_instructions_native in Hloop as [Hnat Hlen].
    eexists. split; [done|]. simpl. split; [|split; [done|]].
    + by rewrite Hn, Hnat.
    + rewrite Hlen. done.
Qed.

Lemma add_new_fresh seen l :
  NoDup (seen ++ l) → foldl add_new seen l = seen ++ l.
Proof.
  revert seen. induction l as [|x l IH]; intros seen Hnd; simpl.
  - by rewrite app_nil_r.
  - unfold add_new at 2. rewrite bool_decide_eq_false_2.
    + rewrite IH; rewrite <- app_assoc; done.
    + apply NoDup_app in Hnd as (_ & Hnd & _). intros Hx.
      apply (Hnd x Hx). left.
Qed.

Lemma first_occurrences_NoDup l : NoDup l → first_occurrences l = l.
Proof. intros H. by apply (add_new_fresh [] l). Qed.

Lemma mapM_as_gate_length instrs : ∀ program,
  mapM as_gate instrs = Ok program → length program = length instrs.
Proof.
  induction instrs as [|i instrs IH]; intros program H; simpl in H.
  - by injection H as <-.
  - destruct (as_gate i) as [g|e]; simpl in H; [|discriminate].
    destruct (mapM as_gate instrs) as [gs|e]; simpl in H; [|discriminate].
    injection H as <-. simpl. by rewrite (IH gs).
Qed.

Lemma for_each_as_gate instrs : ∀ program l,
  mapM as_gate instrs = Ok program →
  for_each (fun l i => gate ← as_gate i; pyquil_instruction l gate) l instrs
  = for_each pyquil_instruction l program.
Proof.
  induction instrs as [|i instrs IH]; intros program l H; simpl in H.
  - by injection H as <-.
  - destruct (as_gate i) as [g|e] eqn:Hi; simpl in H; [|discriminate].
    destruct (mapM as_gate instrs) as [gs|e]; simpl in H; [|discriminate].
    injection H as <-. cbn [for_each]. rewrite Hi.
    cbn [mbind result_bind bind].
    destruct (pyquil_instruction l g) as [l1|e]; [|done].
    cbn [mbind result_bind bind]. by apply IH.
Qed.

(** A program of gates is read as [from_pyquil] reads the list of its
    gates. *)
Lemma from_pyquil_program_gates p program :
  mapM as_gate (instructions p) = Ok program →
  from_pyquil_program (Some p) = from_pyquil program.
Proof.
  unfold from_pyquil_program, from_pyquil. intros Hmap.
  rewrite (mapM_as_gate_length _ _ Hmap).
  by rewrite (for_each_as_gate _ _ _ Hmap).
Qed.

Lemma for_each_not_a_gate instrs : ∀ l done,
  invariant l →
  gates_resolved (objects l) done (_gatelist l) →
  Exists not_a_gate instrs →
  for_each (fun l i => gate ← as_gate i; pyquil_instruction l gate) l instrs
  = Raise (AttributeError "qubits").
Proof.
  induction instrs as [|i instrs IH]; intros l done Hinv Hres Hex.
  - by apply Exists_nil in Hex.
  - cbn [for_each]. destruct i as [name params qubits| |]; try done.
    cbn [as_gate mbind result_bind bind].
    destruct (ImportersFacts.pyquil_instructions_spec
                [mkPyquilGate name params qubits] l done Hinv Hres)
      as (l1 & Hrun & Hinv1 & Hres1).
    cbn [for_each] in Hrun.
    destruct (pyquil_instruction l _) as [l2|e]; [|discriminate].
    injection Hrun as ->. cbn [mbind result_bind bind].
    apply (IH l1 (done ++ [mkPyquilGate name params qubits])); [done|done|].
    apply Exists_cons in Hex as [[]|Hex]. done.
Qed.

(** A program with a declaration or a measurement is not imported: the
    gates before it are read without an exception, and [gate.qubits]
    raises on it. *)
Lemma from_pyquil_program_not_a_gate p :
  Exists not_a_gate (instructions p) →
  from_pyquil_program (Some p) = Raise (AttributeError "qubits").
Proof.
  intros Hex. unfold from_pyquil_program.
  destruct (instructions p) as [|i instrs] eqn:Hp;
    [by apply Exists_nil in Hex|].
  cbn [length Nat.eqb].
  rewrite (for_each_not_a_gate (i :: instrs) (mklocals [] [] [] None []) []);
    [done| |constructor|done].
  constructor; simpl; [done|done|constructor].
Qed.

(** [Circuit.from_pyquil] on a [Program].  When every instruction is a
    gate instruction, [program] being the gates, the import returns, and
    for every index [i] that some instruction has as an operand the qubit
    list of the imported circuit holds exactly one reference [q] to a
    qubit of index [i], which every operand position that holds [i] holds
    in the imported gate.  When some instruction is a declaration or a
    measurement, the import raises [AttributeError]. *)
Theorem from_pyquil_program_deduplicates p :
  (∀ program, mapM as_gate (instructions p) = Ok program →
     ∃ r, from_pyquil_program (Some p) = Ok r
          ∧ ∀ i, (∃ g, g ∈ program ∧ i ∈ pq_qubits g) →
              ∃ q, with_index r i = [q]
                   ∧ index_of r q = Some i
                   ∧ ∀ n g j, program !! n = Some g →
                              pq_qubits g !! j = Some i →
                              operand r n j = Some q)
  ∧ (Exists not_a_gate (instructions p) →
     from_pyquil_program (Some p) = Raise (AttributeError "qubits")).
Proof.
  split; [|apply from_pyquil_program_not_a_gate].
  intros program Hgates. rewrite (from_pyquil_program_gates _ _ Hgates).
  apply ImportersFacts.from_pyquil_deduplicates.
Qed.

(** [Circuit.from_pyquil] on a [Program] of gate instructions, [program]
    being the gates: the qubit list holds the qubit indices in the order
    in which the instructions first use them, each once, and the circuit
    has one gate for each instruction. *)
Theorem from_pyquil_program_lists_qubits_in_order p program :
  mapM as_gate (instructions p) = Ok program →
  ∃ r, from_pyquil_program (Some p) = Ok r
       ∧ map Qubit.index (arena r)
         = first_occurrences (pyquil_operands program)
       ∧ qubit_list r = seq 0 (length (arena r))
       ∧ length (gates r) = length (instructions p).
Proof.
  intros Hgates. rewrite (from_pyquil_program_gates _ _ Hgates).
  rewrite <- (mapM_as_gate_length _ _ Hgates).
  apply from_pyquil_lists_qubits_in_order.
Qed.

Lemma mapM_as_gate_app instrs1 instrs2 program1 program2 :
  mapM as_gate instrs1 = Ok program1 →
  mapM as_gate instrs2 = Ok program2 →
  mapM as_gate (instrs1 ++ instrs2) = Ok (program1 ++ program2).
Proof.
  revert program1. induction instrs1 as [|i instrs1 IH];
    intros program1 H1 H2; simpl in H1.
  - by injection H1 as <-.
  - destruct (as_gate i) as [g|e] eqn:Hi; simpl in H1; [|discriminate].
    destruct (mapM as_gate instrs1) as [gs|e]; simpl in H1; [|discriminate].
    injection H1 as <-. simpl. rewrite Hi. simpl.
    by rewrite (IH gs).
Qed.

Lemma ancilla_loop n_qubits range : ∀ p,
  for_each (fun (pyquil_circuit : option Program) i =>
              p ← plus_instr pyquil_circuit (I_gate (n_qubits + i));
              Ok (Some p))
           (Some p) range
  = Ok (Some (mkProgram (defined_gates p)
                (instructions p
                   ++ map (fun i => I_gate (n_qubits + i)) range))).
Proof.
  induction range as [|i range IH]; intros p; simpl.
  - rewrite app_nil_r. by destruct p.
  - rewrite IH. simpl. by rewrite <- app_assoc.
Qed.

Lemma ancillas_operands n_qubits n :
  pyquil_operands (ancillas n_qubits n) = seq n_qubits n.
Proof.
  unfold pyquil_operands, ancillas. rewrite map_map. simpl.
  revert n_qubits. induction n as [|n IH]; intros k; [done|].
  simpl. rewrite Nat.add_0_r. f_equal.
  rewrite <- (IH (S k)), <- seq_shift, map_map.
  f_equal. apply map_ext. intros i. f_equal. lia.
Qed.

Section Facts.
Variable COMMON_GATES UNIQUE_GATES : list string.
Variable Gate_to_pyquil : Gate.t → Program.

(** The circuit is exported, the gates [I] on the qubits [n_qubits],
    [n_qubits + 1], ... are added, and the program is imported. *)
Lemma add_ancilla_register_imports circuit n qs p program :
  Circuit.qubits circuit = Some qs →
  to_pyquil COMMON_GATES UNIQUE_GATES Gate_to_pyquil (Circuit.gates circuit)
  = Ok (Some p) →
  mapM as_gate (instructions p) = Ok program →
  add_ancilla_register_to_circuit COMMON_GATES UNIQUE_GATES Gate_to_pyquil
    circuit n
  = from_pyquil (program ++ ancillas (length qs) n).
Proof.
  intros Hqs Hp Hprogram. unfold add_ancilla_register_to_circuit.
  rewrite Hqs, Hp. cbn [Circuit.the_list mbind result_bind bind].
  rewrite ancilla_loop. cbn [mbind result_bind bind].
  apply from_pyquil_program_gates.
  simpl. apply mapM_as_gate_app; [done|].
  unfold ancillas. clear. induction (seq 0 n) as [|i l IH]; [done|].
  simpl. by rewrite IH.
Qed.

(** The circuit is exported, the gates [I] on the qubits [n_qubits],
    [n_qubits + 1], ... are added, and the program is imported: the
    result holds the qubits that the program uses, in the order of first
    use, and no other. *)
Theorem add_ancilla_register_qubits circuit n qs p program :
  Circuit.qubits circuit = Some qs →
  to_pyquil COMMON_GATES UNIQUE_GATES Gate_to_pyquil (Circuit.gates circuit)
  = Ok (Some p) →
  mapM as_gate (instructions p) = Ok program →
  ∃ r, add_ancilla_register_to_circuit COMMON_GATES UNIQUE_GATES
         Gate_to_pyquil circuit n = Ok r
       ∧ label r = "pyquil"
       ∧ map Qubit.index (arena r)
         = first_occurrences (pyquil_operands program ++ seq (length qs) n)
       ∧ qubit_list r = seq 0 (length (arena r))
       ∧ length (gates r) = (length program + n)%nat.
Proof.
  intros Hqs Hp Hprogram.
  rewrite (add_ancilla_register_imports circuit n qs p program) by done.
  destruct (from_pyquil_lists_qubits_in_order
              (program ++ ancillas (length qs) n))
    as (r & Hr & Hidx & Hql & Hlen).
  exists r. split; [done|]. split.
  { unfold from_pyquil in Hr.
    destruct (length _ =? 0)%nat; [by injection Hr as <-|].
    destruct (for_each _ _ _); simpl in Hr; [|discriminate].
    by injection Hr as <-. }
  split; [|split; [done|]].
  - rewrite Hidx. unfold pyquil_operands.
    rewrite map_app, concat_app. f_equal. f_equal.
    apply ancillas_operands.
  - rewrite Hlen, length_app. unfold ancillas.
    by rewrite length_map, length_seq.
Qed.

(** A circuit without gates: the result has the ancilla qubits and
    nothing else; the qubits of the circuit are not in it. *)
Theorem add_ancilla_register_without_gates circuit n qs :
  Circuit.qubits circuit = Some qs →
  Circuit.gates circuit = None ∨ Circuit.gates circuit = Some [] →
  ∃ r, add_ancilla_register_to_circuit COMMON_GATES UNIQUE_GATES
         Gate_to_pyquil circuit n = Ok r
       ∧ map Qubit.index (arena r) = seq (length qs) n
       ∧ length (gates r) = n.
Proof.
  intros Hqs Hgates.
  rewrite (add_ancilla_register_imports circuit n qs Program_new []);
    [|done|by destruct Hgates as [->| ->]|done].
  destruct (from_pyquil_lists_qubits_in_order ([] ++ ancillas (length qs) n))
    as (r & Hr & Hidx & _ & Hlen).
  exists r. split; [done|]. split.
  - rewrite Hidx. simpl. rewrite ancillas_operands.
    apply first_occurrences_NoDup, NoDup_seq.
  - rewrite Hlen. simpl. unfold ancillas. by rewrite length_map, length_seq.
Qed.

End Facts.

End AncillaRegisterFacts.

(* ===================================================================== *)
(** * Results on [Circuit.to_qiskit] *)
(* ===================================================================== *)

Module ToQiskitFacts.
Import Py Importers ToQiskit.

Section Facts.
Variable E : Type.
Variable Gate_to_qiskit : Gate.t → option Register → option Register → list E.

Lemma item_after (pre rest : list E) i j x :
  i = (length pre + j)%nat → rest !! j = Some x →
  Circuit.item (pre ++ rest) i = Ok x.
Proof.
  intros -> Hj. unfold Circuit.item.
  rewrite lookup_app_r by lia.
  replace (length pre + j - length pre)%nat with j by lia. by rewrite Hj.
Qed.

(** The inner loop takes the entries three by three. *)
Lemma append_loop m : ∀ (pre rest : list E) k appended,
  length pre = (3 * k)%nat → length rest = (3 * m)%nat →
  ∃ triples,
    for_each (fun appended index =>
                instruction ← Circuit.item (pre ++ rest) index;
                qargs ← Circuit.item (pre ++ rest) (index + 1)%nat;
                cargs ← Circuit.item (pre ++ rest) (index + 2)%nat;
                Ok (appended ++ [(instruction, qargs, cargs)]))
             appended (map (fun k => (3 * k)%nat) (seq k m))
    = Ok (appended ++ triples)
    ∧ entries triples = rest.
Proof.
  induction m as [|m IH]; intros pre rest k appended Hpre Hrest.
  - exists []. simpl. rewrite app_nil_r. split; [done|].
    destruct rest; [done|simpl in Hrest; lia].
  - destruct rest as [|a [|b [|c rest]]]; simpl in Hrest; try lia.
    destruct (IH (pre ++ [a; b; c]) rest (S k) (appended ++ [(a, b, c)]))
      as (triples & Hloop & Hentries).
    { rewrite length_app. simpl. lia. }
    { lia. }
    exists ((a, b, c) :: triples). split.
    + cbn [seq map for_each].
      rewrite (item_after pre (a :: b :: c :: rest) (3 * k) 0 a),
        (item_after pre (a :: b :: c :: rest) (3 * k + 1) 1 b),
        (item_after pre (a :: b :: c :: rest) (3 * k + 2) 2 c)
        by (done || lia).
      cbn [mbind result_bind bind].
      rewrite <- (app_assoc pre [a; b; c] rest) in Hloop.
      cbn [app] in Hloop. rewrite Hloop. by rewrite <- app_assoc.
    + unfold entries in *. simpl. by rewrite Hentries.
Qed.

Lemma append_gate_data_multiple appended (gate_data : list E) :
  (length gate_data mod 3 = 0)%nat →
  ∃ triples,
    append_gate_data E appended gate_data = Ok (appended ++ triples)
    ∧ entries triples = gate_data.
Proof.
  intros Hmod. unfold append_gate_data, linspace_indices.
  rewrite (proj2 (Nat.eqb_eq _ _) Hmod). cbn [negb].
  apply (append_loop (length gate_data / 3) [] gate_data 0 appended).
  - done.
  - apply Nat.Div0.div_exact in Hmod. lia.
Qed.

Lemma append_gate_data_not_multiple appended (gate_data : list E) :
  (length gate_data mod 3 ≠ 0)%nat →
  ∃ msg, append_gate_data E appended gate_data = Raise (ValueError msg).
Proof.
  intros Hmod. unfold append_gate_data.
  rewrite (proj2 (Nat.eqb_neq _ _) Hmod). cbn [negb]. by eexists.
Qed.

Lemma entries_app (l1 l2 : list (E * E * E)) :
  entries (l1 ++ l2) = entries l1 ++ entries l2.
Proof. unfold entries. by rewrite map_app, concat_app. Qed.

Lemma gate_loop qreg creg gs : ∀ appended,
  Forall (fun g => (length (Gate_to_qiskit g qreg creg) mod 3 = 0)%nat) gs →
  ∃ appended',
    for_each (fun appended gate =>
                append_gate_data E appended (Gate_to_qiskit gate qreg creg))
             appended gs
    = Ok appended'
    ∧ entries appended'
      = entries appended
        ++ concat (map (fun g => Gate_to_qiskit g qreg creg) gs).
Proof.
  induction gs as [|g gs IH]; intros appended Hall.
  - exists appended. simpl. by rewrite app_nil_r.
  - apply Forall_cons in Hall as [Hg Hall].
    destruct (append_gate_data_multiple appended _ Hg) as (t & Ht & Het).
    destruct (IH (appended ++ t) Hall) as (appended' & Hloop & He).
    exists appended'. cbn [for_each]. rewrite Ht.
    cbn [mbind result_bind bind]. split; [done|].
    rewrite He, entries_app, Het. simpl. by rewrite <- app_assoc.
Qed.

(** Every qubit of the circuit has a place in the registers, which are as
    short as that allows. *)
Lemma registers_hold_qubits qs :
  qs ≠ [] →
  ∃ n, registers (Some qs)
       = (Some (mkRegister n "q"), Some (mkRegister n "c"))
       ∧ (∀ q, q ∈ qs → (Qubit.index q < n)%nat)
       ∧ ∃ q, q ∈ qs ∧ n = S (Qubit.index q).
Proof.
  intros Hne. exists (max_list (map Qubit.index qs) + 1)%nat.
  split; [by destruct qs|]. split.
  - intros q Hq.
    assert (Qubit.index q ≤ max_list (map Qubit.index qs))%nat; [|lia].
    apply max_list_elem_of_le. change (Qubit.index q ∈ Qubit.index <$> qs).
    by apply list_elem_of_fmap_2.
  - assert (max_list (map Qubit.index qs) ∈ map Qubit.index qs) as Hmax.
    { apply max_list_elem_of. by destruct qs. }
    change (max_list (map Qubit.index qs) ∈ Qubit.index <$> qs) in Hmax.
    apply list_elem_of_fmap in Hmax as (q & Hq & Hin).
    exists q. split; [done|]. lia.
Qed.

(** When every gate returns a multiple of three entries, [to_qiskit]
    returns a circuit that holds all of them, in the order of the gates,
    on two registers of the size of the largest qubit index plus one. *)
Theorem to_qiskit_appends_every_entry self qs gs :
  Circuit.qubits self = Some qs → qs ≠ [] →
  Circuit.gates self = Some gs →
  (∀ g qreg creg, g ∈ gs →
     (length (Gate_to_qiskit g qreg creg) mod 3 = 0)%nat) →
  ∃ r n, to_qiskit E Gate_to_qiskit self = Ok r
    ∧ qregs r = [mkRegister n "q"] ∧ cregs r = [mkRegister n "c"]
    ∧ (∀ q, q ∈ qs → (Qubit.index q < n)%nat)
    ∧ (∃ q, q ∈ qs ∧ n = S (Qubit.index q))
    ∧ entries (data r)
      = concat (map (fun g => Gate_to_qiskit g
                                (Some (mkRegister n "q"))
                                (Some (mkRegister n "c"))) gs).
Proof.
  intros Hqs Hne Hgs Hmod. unfold to_qiskit. rewrite Hqs, Hgs.
  destruct (registers_hold_qubits qs Hne) as (n & -> & Hlt & Hmax).
  destruct (gate_loop (Some (mkRegister n "q")) (Some (mkRegister n "c"))
              gs []) as (appended & Hloop & He).
  { apply Forall_forall. intros g Hg. by apply Hmod. }
  rewrite Hloop. cbn [mbind result_bind bind].
  eexists _, n. split; [reflexivity|]. simpl. done.
Qed.

(** A gate that returns a number of entries that is not a multiple of
    three stops the conversion with [ValueError]. *)
Theorem to_qiskit_raises_on_incomplete_entries self pre g rest :
  Circuit.gates self = Some (pre ++ g :: rest) →
  (∀ g' qreg creg, g' ∈ pre →
     (length (Gate_to_qiskit g' qreg creg) mod 3 = 0)%nat) →
  (∀ qreg creg, (length (Gate_to_qiskit g qreg creg) mod 3 ≠ 0)%nat) →
  ∃ msg, to_qiskit E Gate_to_qiskit self = Raise (ValueError msg).
Proof.
  intros Hgs Hpre Hg. unfold to_qiskit. rewrite Hgs.
  destruct (registers (Circuit.qubits self)) as [qreg creg].
  assert (∀ appended,
    ∃ msg, for_each (fun appended gate =>
                append_gate_data E appended (Gate_to_qiskit gate qreg creg))
             appended (pre ++ g :: rest) = Raise (ValueError msg)) as Hloop.
  { clear Hgs. induction pre as [|g' pre IH]; intros appended.
    - cbn [app for_each].
      destruct (append_gate_data_not_multiple appended _ (Hg qreg creg))
        as [msg ->]. by exists msg.
    - cbn [app for_each].
      destruct (append_gate_data_multiple appended
                  (Gate_to_qiskit g' qreg creg)) as (t & -> & _).
      { apply Hpre. left. }
      cbn [mbind result_bind bind]. apply IH.
      intros g'' q c Hin. apply Hpre. by right. }
  destruct (Hloop []) as [msg ->]. by exists msg.
Qed.

End Facts.

End ToQiskitFacts.

(* ===================================================================== *)
(** * Results on [Circuit.to_qpic] *)
(* ===================================================================== *)

Module ToQpicFacts.
Import Py ToQpic.

Lemma string_app_nil_r (s : string) : s +:+ "" = s.
Proof.
  induction s as [|a s IH]; [done|].
  unfold String.app in *. simpl. by rewrite IH.
Qed.

Lemma string_app_assoc (s1 s2 s3 : string) :
  (s1 +:+ s2) +:+ s3 = s1 +:+ (s2 +:+ s3).
Proof.
  induction s1 as [|a s1 IH]; [done|].
  unfold String.app in *. simpl. by rewrite IH.
Qed.

Lemma foldl_lines {A} (f : A → string) (l : list A) : ∀ s,
  foldl (fun acc x => acc +:+ f x) s l = s +:+ lines (map f l).
Proof.
  induction l as [|x l IH]; intros s; simpl.
  - by rewrite string_app_nil_r.
  - by rewrite IH, string_app_assoc.
Qed.

Lemma lines_app l1 l2 : lines (l1 ++ l2) = lines l1 +:+ lines l2.
Proof.
  unfold lines. induction l1 as [|s l1 IH]; simpl; [done|].
  by rewrite IH, string_app_assoc.
Qed.

Section Facts.
Variable Gate_to_qpic : Gate.t → string.

(** The text has one wire line for each qubit of the qubit list, in
    ascending order of the indices, and then one line for each gate, in
    the order of the gates. *)
Theorem to_qpic_wires_in_ascending_order self qs gs :
  Circuit.qubits self = Some qs →
  Circuit.gates self = Some gs →
  ∃ indices,
    Sorted le indices
    ∧ indices ≡ₚ map Qubit.index qs
    ∧ to_qpic Gate_to_qpic self
      = Ok (lines (map wire indices
                     ++ map (fun g => Gate_to_qpic g +:+ newline) gs)).
Proof.
  intros Hqs Hgs. exists (map Qubit.index (merge_sort by_index qs)).
  split; [|split].
  - apply (Sorted_fmap _ by_index); [done|]. apply Sorted_merge_sort, _.
  - change (Qubit.index <$> merge_sort by_index qs ≡ₚ Qubit.index <$> qs).
    by rewrite merge_sort_Permutation.
  - unfold to_qpic. rewrite Hqs, Hgs. simpl. f_equal.
    rewrite (foldl_lines (fun g => Gate_to_qpic g +:+ newline)).
    rewrite (foldl_lines (fun q => wire (Qubit.index q))).
    rewrite lines_app, map_map. done.
Qed.

(** Without a qubit list or without a gate list, [to_qpic] raises. *)
Lemma to_qpic_None self :
  Circuit.qubits self = None ∨ Circuit.gates self = None →
  to_qpic Gate_to_qpic self = Raise (TypeError "NoneType").
Proof.
  unfold to_qpic. intros [->| ->]; [done|].
  by destruct (Circuit.qubits self).
Qed.

End Facts.

End ToQpicFacts.

(* ===================================================================== *)
(** * Results on [_n_qubits_for_matrix] *)
(* ===================================================================== *)

Module WipGatesFacts.
Import Py WipGates.

(** The function returns [n] exactly on the shape of a square matrix of
    dimension [2^n], and raises [ValueError] on every other shape. *)
Theorem n_qubits_for_matrix_spec rows cols :
  (∀ n, _n_qubits_for_matrix (rows, cols) = Ok n
        ↔ 0 ≤ n ∧ rows = 2 ^ n ∧ cols = 2 ^ n)
  ∧ ((∃ n, _n_qubits_for_matrix (rows, cols) = Ok n)
     ∨ (∃ msg, _n_qubits_for_matrix (rows, cols) = Raise (ValueError msg))).
Proof.
  unfold _n_qubits_for_matrix, not_square. simpl.
  destruct (Z.leb_spec rows 0) as [Hle|Hpos].
  { split; [|right; by eexists]. intros n. split; [discriminate|].
    intros (Hn & Hr & _). pose proof (Z.pow_pos_nonneg 2 n). lia. }
  pose proof (Z.log2_nonneg rows) as Hlog.
  destruct (Z.eqb_spec (2 ^ Z.log2 rows) rows) as [Hr|Hr]; simpl.
  - destruct (Z.eqb_spec (2 ^ Z.log2 rows) cols) as [Hc|Hc]; simpl.
    + split; [|left; by eexists]. intros n. split.
      * intros [= <-]. done.
      * intros (Hn & Hrn & Hcn). f_equal. rewrite Hrn.
        by apply Z.log2_pow2.
    + split; [|right; by eexists]. intros n. split; [discriminate|].
      intros (Hn & Hrn & Hcn). exfalso. apply Hc.
      rewrite Hrn, Z.log2_pow2 by done. done.
  - split; [|right; by eexists]. intros n. split; [discriminate|].
    intros (Hn & Hrn & Hcn). exfalso. apply Hr.
    rewrite Hrn, Z.log2_pow2 by done. done.
Qed.

End WipGatesFacts.

(* ===================================================================== *)
(** * Results on the qubit map of [cirq2pyquil] *)
(* ===================================================================== *)

Module Cirq2PyquilFacts.
Import Py Cirq2Pyquil.

Lemma key_le_antisym k1 k2 : key_le k1 k2 → key_le k2 k1 → k1 = k2.
Proof.
  destruct k1 as [x|r1 c1], k2 as [y|r2 c2]; unfold key_le; intros H1 H2;
    try done; f_equal; lia.
Qed.

Lemma qubit_key_same_kind first q :
  same_kind first q → qubit_key first q = Ok (key_of q).
Proof. by destruct first, q. Qed.

Lemma qubit_key_other_kind first q :
  ¬ same_kind first q → ∃ msg, qubit_key first q = Raise (AttributeError msg).
Proof.
  unfold same_kind. destruct first, q; simpl; intros H; try done;
    by eexists.
Qed.

Lemma decorate_same_kind first qs :
  Forall (same_kind first) qs →
  mapM (fun q => k ← qubit_key first q; Ok (k, q)) qs
  = Ok (map (fun q => (key_of q, q)) qs).
Proof.
  induction 1 as [|q qs Hq _ IH]; [done|].
  cbn [mapM map]. rewrite (qubit_key_same_kind _ _ Hq). simpl.
  by rewrite IH.
Qed.

Lemma decorate_other_kind first qs :
  Exists (fun q => ¬ same_kind first q) qs →
  ∃ msg, mapM (fun q => k ← qubit_key first q; Ok (k, q)) qs
         = Raise (AttributeError msg).
Proof.
  induction qs as [|q qs IH]; intros Hex; [by apply Exists_nil in Hex|].
  cbn [mapM].
  destruct (decide (Cirq.is_LineQubit first = Cirq.is_LineQubit q))
    as [Hq|Hq].
  - rewrite (qubit_key_same_kind _ _ Hq). simpl.
    apply Exists_cons in Hex as [?|Hex]; [done|].
    destruct (IH Hex) as [msg ->]. by exists msg.
  - destruct (qubit_key_other_kind _ _ Hq) as [msg ->]. by exists msg.
Qed.

(** The numbering loop gives the qubit at position [i] the number
    [count + i]. *)
Lemma number_loop first qs : ∀ m count,
  Forall (same_kind first) qs →
  NoDup (map key_of qs) →
  ∃ m', Importers.for_each (number_qubit first) (m, count) qs
        = Ok (m', (count + length qs)%nat)
    ∧ (∀ i q, qs !! i = Some q → m' !! key_of q = Some (count + i)%nat)
    ∧ (∀ k, k ∉ map key_of qs → m' !! k = m !! k).
Proof.
  induction qs as [|q qs IH]; intros m count Hkind Hnd.
  - exists m. simpl. rewrite Nat.add_0_r. split; [done|]. split; [|done].
    intros i q Hi. by rewrite lookup_nil in Hi.
  - apply Forall_cons in Hkind as [Hq Hkind].
    simpl in Hnd. apply NoDup_cons in Hnd as [Hnew Hnd].
    destruct (IH (<[key_of q := count]> m) (count + 1)%nat Hkind Hnd)
      as (m' & Hloop & Hnum & Hother).
    exists m'. cbn [Importers.for_each number_qubit].
    rewrite (qubit_key_same_kind _ _ Hq). cbn [mbind result_bind bind].
    rewrite Hloop. split; [|split].
    + simpl. do 2 f_equal. lia.
    + intros [|i] q' Hi; simpl in Hi.
      * injection Hi as <-. rewrite Hother by done.
        rewrite lookup_insert_eq. f_equal. lia.
      * rewrite (Hnum i q' Hi). f_equal. lia.
    + intros k Hk. simpl in Hk. apply not_elem_of_cons in Hk as [Hne Hk].
      rewrite Hother by done. by rewrite lookup_insert_ne.
Qed.

Lemma StronglySorted_lookup {A} (R : relation A) l i j x y :
  StronglySorted R l → (i < j)%nat →
  l !! i = Some x → l !! j = Some y → R x y.
Proof.
  intros Hs. revert i j. induction Hs as [|a l Hs IH Hall]; intros i j Hij Hi Hj.
  - by rewrite lookup_nil in Hi.
  - destruct j as [|j]; [lia|]. simpl in Hj. destruct i as [|i]; simpl in Hi.
    + injection Hi as <-. rewrite Forall_forall in Hall.
      apply Hall. by eapply list_elem_of_lookup_2.
    + apply (IH i j); [lia|done|done].
Qed.

(** The qubits of a circuit, all of one kind, are numbered from 0 in the
    order of their keys. *)
Theorem build_qubit_map_numbers_in_key_order all_qubits first :
  head all_qubits = Some first →
  NoDup all_qubits →
  Forall (same_kind first) all_qubits →
  ∃ m, build_qubit_map all_qubits = Returns m
    ∧ (∀ q, q ∈ all_qubits →
         ∃ i, m !! key_of q = Some i ∧ (i < length all_qubits)%nat)
    ∧ (∀ q1 q2 i1 i2, q1 ∈ all_qubits → q2 ∈ all_qubits →
         m !! key_of q1 = Some i1 → m !! key_of q2 = Some i2 →
         ((i1 < i2)%nat ↔ key_le (key_of q1) (key_of q2) ∧ q1 ≠ q2))
    ∧ (∀ k, is_Some (m !! k) → ∃ q, q ∈ all_qubits ∧ k = key_of q).
Proof.
  intros Hhead Hnd Hkind. unfold build_qubit_map.
  destruct all_qubits as [|q0 rest]; [discriminate|].
  injection Hhead as ->.
  set (all_qubits := first :: rest) in *.
  rewrite (decorate_same_kind _ _ Hkind). cbn [mbind result_bind bind].
  set (decorated := map (fun q => (key_of q, q)) all_qubits).
  set (sorted := merge_sort by_key decorated).
  assert (sorted ≡ₚ decorated) as Hperm by apply merge_sort_Permutation.
  assert (StronglySorted by_key sorted) as Hsorted
    by (apply StronglySorted_merge_sort; apply _).
  assert (Forall (fun p => p.1 = key_of p.2) sorted) as Hdeco.
  { rewrite Hperm. subst decorated. apply Forall_forall. intros p Hp.
    change (p ∈ (fun q => (key_of q, q)) <$> all_qubits) in Hp.
    apply list_elem_of_fmap in Hp as (q & -> & _). done. }
  assert (map snd sorted ≡ₚ all_qubits) as Hperm'.
  { change (snd <$> sorted ≡ₚ all_qubits). rewrite Hperm. subst decorated.
    change (snd <$> ((fun q => (key_of q, q)) <$> all_qubits) ≡ₚ all_qubits).
    rewrite <- list_fmap_compose. simpl.
    by rewrite list_fmap_id. }
  assert (map key_of (map snd sorted) = map fst sorted) as Hkeys.
  { clear -Hdeco. induction Hdeco as [|p l Hp _ IH]; [done|].
    simpl. by rewrite IH, Hp. }
  assert (NoDup (map key_of (map snd sorted))) as Hndk.
  { change (NoDup (key_of <$> (snd <$> sorted))).
    apply (NoDup_fmap_2 key_of). by rewrite Hperm'. }
  assert (StronglySorted key_le (map key_of (map snd sorted))) as Hks.
  { rewrite Hkeys. change (StronglySorted key_le (fst <$> sorted)).
    by apply (StronglySorted_fmap _ by_key). }
  destruct (number_loop first (map snd sorted) ∅ 0%nat) as
    (m & Hloop & Hnum & Hother); [|done|].
  { rewrite Hperm'. done. }
  rewrite Hloop. exists m. split; [done|].
  assert (length (map snd sorted) = length all_qubits) as Hlen
    by by rewrite Hperm'.
  assert (∀ q, q ∈ all_qubits →
            ∃ i, map snd sorted !! i = Some q
                 ∧ m !! key_of q = Some i) as Hpos.
  { intros q Hq. rewrite <- Hperm' in Hq.
    apply list_elem_of_lookup in Hq as [i Hi]. exists i. split; [done|].
    by rewrite (Hnum i q Hi). }
  split; [|split].
  - intros q Hq. destruct (Hpos q Hq) as (i & Hi & Hm). exists i.
    split; [done|]. rewrite <- Hlen. by eapply lookup_lt_Some.
  - intros q1 q2 i1 i2 Hq1 Hq2 Hm1 Hm2.
    destruct (Hpos q1 Hq1) as (j1 & Hj1 & Hm1').
    destruct (Hpos q2 Hq2) as (j2 & Hj2 & Hm2').
    assert (j1 = i1) as -> by congruence.
    assert (j2 = i2) as -> by congruence.
    assert (map key_of (map snd sorted) !! i1 = Some (key_of q1)) as Hk1.
    { change ((key_of <$> map snd sorted) !! i1 = Some (key_of q1)).
      by rewrite list_lookup_fmap, Hj1. }
    assert (map key_of (map snd sorted) !! i2 = Some (key_of q2)) as Hk2.
    { change ((key_of <$> map snd sorted) !! i2 = Some (key_of q2)).
      by rewrite list_lookup_fmap, Hj2. }
    split.
    + intros Hlt. split.
      * by apply (StronglySorted_lookup key_le _ i1 i2 _ _ Hks).
      * intros ->. assert (i1 = i2); [|lia].
        by apply (NoDup_lookup _ i1 i2 (key_of q2) Hndk).
    + intros [Hle Hne].
      destruct (Nat.lt_trichotomy i1 i2) as [?|[->|Hgt]]; [done| |].
      * exfalso. apply Hne. congruence.
      * exfalso. apply Hne. apply (inj key_of).
        apply key_le_antisym; [done|].
        by apply (StronglySorted_lookup key_le _ i2 i1 _ _ Hks).
  - intros k Hk. destruct (decide (k ∈ map key_of (map snd sorted)))
      as [Hin|Hnot].
    + change (k ∈ key_of <$> map snd sorted) in Hin.
      apply list_elem_of_fmap in Hin as (q & -> & Hq).
      exists q. split; [|done]. by rewrite <- Hperm'.
    + rewrite (Hother k Hnot), lookup_empty in Hk. by destruct Hk.
Qed.

(** A circuit with line qubits and grid qubits: whichever comes first,
    the key of a qubit of the other kind cannot be read. *)
Theorem build_qubit_map_raises_on_mixed_kinds all_qubits first :
  head all_qubits = Some first →
  Exists (fun q => ¬ same_kind first q) all_qubits →
  ∃ msg, build_qubit_map all_qubits = Raises (AttributeError msg).
Proof.
  intros Hhead Hex. unfold build_qubit_map.
  destruct all_qubits as [|q0 rest]; [discriminate|].
  injection Hhead as ->.
  destruct (decorate_other_kind _ _ Hex) as [msg ->]. by exists msg.
Qed.

(** A circuit without qubits: [next(iter(...))] has nothing to return. *)
Lemma build_qubit_map_empty : build_qubit_map [] = StopIteration.
Proof. reflexivity. Qed.

End Cirq2PyquilFacts.

(* ===================================================================== *)
(** * Results on [pyquil2cirq] *)
(* ===================================================================== *)

Module Pyquil2CirqFacts.
Import Py Importers Pyquil2Cirq.

Lemma item_lookup {A} (l : list A) i x :
  l !! i = Some x → Circuit.item l i = Ok x.
Proof. intros H. unfold Circuit.item. by rewrite H. Qed.

(** The map sends the row of every qubit to a position that holds the
    qubit of that row. *)
Lemma build_qubit_map_spec get_qubits :
  ∃ m, build_qubit_map (grid_qubits get_qubits) = Ok m
    ∧ (∀ i, i ∈ get_qubits → is_Some (m !! Z.of_nat i))
    ∧ (∀ row pos, m !! row = Some pos →
         grid_qubits get_qubits !! pos = Some (Cirq.GridQubit row 0)).
Proof.
  unfold build_qubit_map.
  set (qubits := grid_qubits get_qubits).
  assert (∀ n m0, (n ≤ length qubits)%nat →
    (∀ row pos, m0 !! row = Some pos →
       qubits !! pos = Some (Cirq.GridQubit row 0)) →
    ∃ m, for_each (fun (qubit_map : gmap Z nat) i =>
                     q ← Circuit.item qubits i;
                     row ← Cirq.attr_row q;
                     Ok (<[row := i]> qubit_map))
           m0 (seq (length qubits - n) n) = Ok m
      ∧ (∀ row pos, m !! row = Some pos →
           qubits !! pos = Some (Cirq.GridQubit row 0))
      ∧ (∀ row, is_Some (m0 !! row) → is_Some (m !! row))
      ∧ (∀ pos i, (length qubits - n ≤ pos)%nat →
           get_qubits !! pos = Some i → is_Some (m !! Z.of_nat i))) as Hloop.
  { induction n as [|n IH]; intros m0 Hn Hm0.
    - exists m0. simpl. split; [done|]. split; [done|]. split; [done|].
      intros pos i Hpos Hi. apply lookup_lt_Some in Hi.
      unfold qubits, grid_qubits in Hpos. rewrite length_map in Hpos. lia.
    - cbn [seq for_each].
      destruct (get_qubits !! (length qubits - S n)%nat) as [i0|] eqn:Hi0.
      2: { apply lookup_ge_None in Hi0.
           unfold qubits, grid_qubits in Hn, Hi0.
           rewrite length_map in Hn, Hi0. lia. }
      assert (qubits !! (length qubits - S n)%nat
              = Some (Cirq.GridQubit (Z.of_nat i0) 0)) as Hq.
      { unfold qubits at 1, grid_qubits.
        change (((fun i => Cirq.GridQubit (Z.of_nat i) 0) <$> get_qubits)
                  !! (length qubits - S n)%nat
                = Some (Cirq.GridQubit (Z.of_nat i0) 0)).
        by rewrite list_lookup_fmap, Hi0. }
      rewrite (item_lookup _ _ _ Hq).
      cbn [Cirq.attr_row mbind result_bind bind].
      replace (S (length qubits - S n)) with (length qubits - n)%nat by lia.
      destruct (IH (<[Z.of_nat i0 := (length qubits - S n)%nat]> m0))
        as (m & Hrun & Hm & Hkeep & Hnew); [lia| |].
      { intros row pos Hlook.
        destruct (decide (row = Z.of_nat i0)) as [->|Hne].
        - rewrite lookup_insert_eq in Hlook. by injection Hlook as <-.
        - rewrite lookup_insert_ne in Hlook by done. by apply Hm0. }
      exists m. split; [done|]. split; [done|]. split.
      + intros row Hrow. apply Hkeep.
        destruct (decide (row = Z.of_nat i0)) as [->|Hne].
        * by rewrite lookup_insert_eq.
        * by rewrite lookup_insert_ne.
      + intros pos i Hpos Hi.
        destruct (decide (pos = length qubits - S n)%nat) as [->|Hne].
        * assert (i = i0) as -> by congruence.
          apply Hkeep. by rewrite lookup_insert_eq.
        * apply (Hnew pos); [lia|done]. }
  destruct (Hloop (length qubits) ∅) as (m & Hrun & Hm & _ & Hnew); [done| |].
  { intros row pos H. by rewrite lookup_empty in H. }
  rewrite Nat.sub_diag in Hrun. exists m. split; [done|]. split; [|done].
  intros i Hi. apply list_elem_of_lookup in Hi as [pos Hpos].
  apply (Hnew pos); [lia|done].
Qed.

(** The qubit of index [i] becomes [GridQubit(i, 0)], whatever the order
    in which [get_qubits] lists the indices. *)
Theorem target_qubits_are_grid_qubits get_qubits gate :
  (∀ i, i ∈ pq_qubits gate → i ∈ get_qubits) →
  ∃ m, build_qubit_map (grid_qubits get_qubits) = Ok m
    ∧ target_qubits (grid_qubits get_qubits) m gate
      = Ok (map (fun i => Cirq.GridQubit (Z.of_nat i) 0) (pq_qubits gate)).
Proof.
  intros Hin. destruct (build_qubit_map_spec get_qubits)
    as (m & Hm & Hdom & Hpos).
  exists m. split; [done|]. unfold target_qubits.
  revert Hin. generalize (pq_qubits gate). intros l.
  induction l as [|i l IH]; intros Hin; [done|].
  cbn [mapM map]. destruct (Hdom i) as [pos Hi]; [apply Hin; left|].
  unfold dict_item at 1. rewrite Hi. cbn [mbind result_bind bind].
  rewrite (item_lookup _ _ _ (Hpos _ _ Hi)).
  cbn [mbind result_bind bind]. rewrite IH; [done|].
  intros j Hj. apply Hin. by right.
Qed.

Section Facts.
Variable Op : Type.
Variable make : string → option Gate.param → list Cirq.Qid → result Op.

Lemma convert_gate_unsupported qubits qubit_map circuit gate :
  unsupported gate →
  ∃ e, convert_gate Op make qubits qubit_map circuit gate = Raise e.
Proof.
  intros [Hname|Hparams]; unfold convert_gate.
  - rewrite bool_decide_eq_false_2 by done. by eexists.
  - case_bool_decide; [|by eexists]. cbn [negb].
    destruct (target_qubits _ _ _) as [targets|e]; [|by eexists].
    cbn [mbind result_bind bind].
    destruct (pq_params gate) as [|p [|p' ps]]; simpl in Hparams; try lia.
    by eexists.
Qed.

(** A program with a gate that is not in the table, or with more than
    one parameter, is not converted: [pyquil2cirq] raises. *)
Theorem pyquil2cirq_raises_on_unsupported_gate get_qubits qprog :
  Exists unsupported qprog →
  ∃ e, pyquil2cirq Op make get_qubits qprog = Raise e.
Proof.
  intros Hex. unfold pyquil2cirq.
  destruct (build_qubit_map_spec get_qubits) as (m & -> & _).
  cbn [mbind result_bind bind].
  apply (LoopFacts.for_each_raises _ (fun _ => True) unsupported);
    [done| |done|done].
  intros circuit gate _ Hg. by apply convert_gate_unsupported.
Qed.

(** A gate before which nothing raises and whose name is not in the
    table raises [ValueError]. *)
Lemma pyquil2cirq_first_unsupported get_qubits gate rest :
  pq_name gate ∉ op_map →
  pyquil2cirq Op make get_qubits (gate :: rest)
  = Raise (ValueError "Gate not yet supported").
Proof.
  intros Hname. unfold pyquil2cirq.
  destruct (build_qubit_map_spec get_qubits) as (m & -> & _).
  cbn [mbind result_bind bind for_each]. unfold convert_gate.
  by rewrite bool_decide_eq_false_2.
Qed.

End Facts.

End Pyquil2CirqFacts.

(* ===================================================================== *)
(** * The results at concrete circuits *)
(* ===================================================================== *)

Module Witnesses.
Import Py Examples.

Lemma bell_is_common_numeric :
  Forall (Circuit.common_numeric Pyquil.spec_COMMON_GATES) bell_gates.
Proof.
  repeat constructor.
  all: unfold Pyquil.spec_COMMON_GATES; simpl.
  all: apply list_elem_of_In; simpl; tauto.
Qed.

(** C1 at the circuit [bell]. *)
Lemma from_dict_to_dict_eq_witness :
  (∀ g, Circuit.common_numeric Pyquil.spec_COMMON_GATES g →
        Gate_eq (Gate_from_dict (Gate_to_dict g true)) g = true)
  ∧ (∀ q, Qubit_str (Qubit_from_dict (Qubit_to_dict q)) = Qubit_str q)
  ∧ Circuit.gates bell = Some bell_gates
  ∧ Circuit.qubits bell = Some bell_qubits
  ∧ Forall (Circuit.common_numeric Pyquil.spec_COMMON_GATES) bell_gates
  ∧ Circuit.__eq__ (Circuit.from_dict (Circuit.to_dict "zapata-v1" bell true))
               bell
    = Ok true.
Proof.
  split; [apply SpecModelFacts.Gate_round_trip|].
  split; [apply SpecModelFacts.Qubit_round_trip|].
  split; [reflexivity|]. split; [reflexivity|].
  split; [apply bell_is_common_numeric|].
  apply (CircuitFacts.from_dict_to_dict_eq "zapata-v1"
           Pyquil.spec_COMMON_GATES bell bell_gates bell_qubits).
  - apply SpecModelFacts.Gate_round_trip.
  - apply SpecModelFacts.Qubit_round_trip.
  - reflexivity.
  - reflexivity.
  - apply bell_is_common_numeric.
Defined.

(** C4 at [bell + tail]. *)
Lemma add_concatenates_gates_and_unions_qubits_witness :
  (∀ i, Qubit.index (Qubit_new i) = i)
  ∧ Circuit.gates bell = Some bell_gates
  ∧ Circuit.qubits bell = Some bell_qubits
  ∧ Circuit.gates tail = Some tail_gates
  ∧ Circuit.qubits tail = Some tail_qubits
  ∧ ∃ c qs,
      Circuit.__add__ bell tail = Ok c
      ∧ Circuit.gates c = Some (bell_gates ++ tail_gates)
      ∧ Circuit.qubits c = Some qs
      ∧ NoDup (map Qubit.index qs)
      ∧ ∀ i, i ∈ map Qubit.index qs
             ↔ i ∈ map Qubit.index bell_qubits
               ∨ i ∈ map Qubit.index tail_qubits.
Proof.
  split; [apply SpecModelFacts.Qubit_new_index|].
  do 4 (split; [reflexivity|]).
  apply (CircuitFacts.add_concatenates_gates_and_unions_qubits bell tail);
    solve [apply SpecModelFacts.Qubit_new_index | reflexivity].
Defined.

(** C10 at [bell + tail]. *)
Lemma add_is_unnamed_and_drops_provenance_witness :
  Circuit.gates bell = Some bell_gates
  ∧ Circuit.qubits bell = Some bell_qubits
  ∧ Circuit.gates tail = Some tail_gates
  ∧ Circuit.qubits tail = Some tail_qubits
  ∧ ∃ c qs,
      Circuit.__add__ bell tail = Ok c
      ∧ Circuit.name c = "Unnamed"
      ∧ Circuit.info c !! "label" = Some VNone
      ∧ Circuit.qubits c = Some qs
      ∧ Forall (fun q => ∃ i, q = Qubit_new i) qs
      ∧ ∀ a' b' qsa' qsb',
          Circuit.gates a' = Some bell_gates → Circuit.qubits a' = Some qsa' →
          Circuit.gates b' = Some tail_gates → Circuit.qubits b' = Some qsb' →
          map Qubit.index qsa' = map Qubit.index bell_qubits →
          map Qubit.index qsb' = map Qubit.index tail_qubits →
          Circuit.__add__ a' b' = Ok c.
Proof.
  do 4 (split; [reflexivity|]).
  apply (CircuitFacts.add_is_unnamed_and_drops_provenance bell tail);
    reflexivity.
Defined.

(** C5 at [tail] and a map with one symbol too many. *)
Lemma evaluate_warns_iff_unmatched_and_completes_witness :
  (∀ g m, Gate_evaluate g m
          = Gate_evaluate g (Evaluate.matched (Gate_symbolic_params g) m))
  ∧ Evaluate.objects tail_store !! Evaluate.gates tail_object
    = Some (Evaluate.GateList tail_gates)
  ∧ ∃ c' s',
      Evaluate.evaluate tail_object theta_phi tail_store = Ok (c', s')
      ∧ (Evaluate.warnings s' = Evaluate.warnings tail_store ++ [Evaluate.warning_text]
         ↔ Evaluate.unmatched_symbol theta_phi tail_gates)
      ∧ (Evaluate.warnings s' = Evaluate.warnings tail_store
         ↔ ¬ Evaluate.unmatched_symbol theta_phi tail_gates)
      ∧ Evaluate.objects s' !! Evaluate.gates c'
        = Some (Evaluate.GateList
                  (map (fun g => Gate_evaluate g theta_phi) tail_gates))
      ∧ Evaluate.evaluate tail_object
          (Evaluate.matched (Evaluate.symbolic_params_of tail_gates) theta_phi)
          tail_store
        = Ok (c', Evaluate.mkstate (Evaluate.objects s') (Evaluate.warnings tail_store)).
Proof.
  split; [apply SpecModelFacts.Gate_evaluate_matched|].
  split; [reflexivity|].
  apply (EvaluateFacts.evaluate_warns_iff_unmatched_and_completes
           tail_object theta_phi tail_store tail_gates).
  - apply SpecModelFacts.Gate_evaluate_matched.
  - reflexivity.
Defined.

(** C6 at [tail]. *)
Lemma evaluate_shares_qubits_and_info_witness :
  Evaluate.objects tail_store !! Evaluate.gates tail_object
  = Some (Evaluate.GateList tail_gates)
  ∧ ∃ c' s',
      Evaluate.evaluate tail_object theta_phi tail_store = Ok (c', s')
      ∧ Evaluate.name c' = Evaluate.name tail_object
      ∧ Evaluate.qubits c' = Evaluate.qubits tail_object
      ∧ Evaluate.info c' = Evaluate.info tail_object
      ∧ Evaluate.objects tail_store !! Evaluate.gates c' = None
      ∧ Evaluate.objects s' !! Evaluate.gates c'
        = Some (Evaluate.GateList
                  (map (fun g => Gate_evaluate g theta_phi) tail_gates))
      ∧ ∀ r o, Evaluate.objects tail_store !! r = Some o →
               Evaluate.objects s' !! r = Some o.
Proof.
  split; [reflexivity|].
  apply (EvaluateFacts.evaluate_shares_qubits_and_info
           tail_object theta_phi tail_store tail_gates).
  reflexivity.
Defined.

(** The run behind the last two results: [evaluate] warns, since [phi] is
    no parameter of [tail], and the new gate list is the object 6 of the
    store, [theta] replaced by its value. *)
Example evaluate_tail :
  Evaluate.evaluate tail_object theta_phi tail_store
  = Ok (Evaluate.mk "tail" 6%nat 1%nat 2%nat,
        Evaluate.mkstate
          [ Evaluate.GateList tail_gates; Evaluate.QubitList tail_qubits;
            Evaluate.Dict {[ "label" := VStr "pyquil" ]};
            Evaluate.GateList []; Evaluate.QubitList [];
            Evaluate.Dict {[ "label" := VNone ]};
            Evaluate.GateList
              [Gate.mk "RZ" [qubit2] [Gate.Expr (Sympy.Float (1 # 2))]] ]
          [Evaluate.warning_text]).
Proof. vm_compute. reflexivity. Qed.

(** Deduplication in [from_qiskit] at a circuit on one register. *)
Lemma from_qiskit_deduplicates_distinct_positions_witness :
  Importers.distinct_positions (Importers.operands one_register)
  ∧ ∃ r, Importers.from_qiskit (fun _ => true) one_register = Ok r
         ∧ ∀ nq, nq ∈ Importers.operands one_register →
             ∃ q, Importers.with_index r (Importers.index nq) = [q]
                  ∧ Importers.index_of r q = Some (Importers.index nq)
                  ∧ ∀ n g j,
                      Importers.kept (fun _ => true) one_register !! n = Some g →
                      Importers.qk_qargs g !! j = Some nq →
                      Importers.operand r n j = Some q.
Proof.
  assert (Importers.distinct_positions (Importers.operands one_register))
    as Hdist.
  { apply (ImportersFacts.one_register_distinct_positions "a").
    repeat constructor. }
  split; [exact Hdist|].
  apply (ImportersFacts.from_qiskit_deduplicates_distinct_positions
           (fun _ => true) one_register Hdist).
Defined.

(** ** The other functions *)

(** [==] at [bell] and [tail]. *)
Lemma eq_is_structural_equality_witness :
  Circuit.qubits bell = Some bell_qubits
  ∧ Circuit.qubits tail = Some tail_qubits
  ∧ Circuit.gates bell = Some bell_gates
  ∧ Circuit.gates tail = Some tail_gates
  ∧ ∃ b, Circuit.__eq__ bell tail = Ok b
         ∧ (b = true ↔
              Circuit.name bell = Circuit.name tail
              ∧ Forall2 (fun q1 q2 => Qubit_str q1 = Qubit_str q2)
                        bell_qubits tail_qubits
              ∧ Forall2 (fun g1 g2 => Gate_eq g1 g2 = true)
                        bell_gates tail_gates).
Proof.
  do 4 (split; [reflexivity|]).
  apply (CircuitEqFacts.eq_is_structural_equality bell tail
           bell_gates tail_gates bell_qubits tail_qubits); reflexivity.
Defined.

(** Associativity at [bell], [tail] and [bell]. *)
Lemma add_is_associative_witness :
  (∀ i, Qubit.index (Qubit_new i) = i)
  ∧ Circuit.gates bell = Some bell_gates
  ∧ Circuit.qubits bell = Some bell_qubits
  ∧ Circuit.gates tail = Some tail_gates
  ∧ Circuit.qubits tail = Some tail_qubits
  ∧ ∃ ab bc l r ql qr,
      Circuit.__add__ bell tail = Ok ab ∧ Circuit.__add__ ab bell = Ok l
      ∧ Circuit.__add__ tail bell = Ok bc ∧ Circuit.__add__ bell bc = Ok r
      ∧ Circuit.gates l = Some (bell_gates ++ tail_gates ++ bell_gates)
      ∧ Circuit.gates r = Some (bell_gates ++ tail_gates ++ bell_gates)
      ∧ Circuit.qubits l = Some ql ∧ Circuit.qubits r = Some qr
      ∧ map Qubit.index ql ≡ₚ map Qubit.index qr.
Proof.
  split; [apply SpecModelFacts.Qubit_new_index|].
  do 4 (split; [reflexivity|]).
  apply (CircuitAddFacts.add_is_associative bell tail bell
           bell_gates bell_qubits tail_gates tail_qubits
           bell_gates bell_qubits);
    solve [apply SpecModelFacts.Qubit_new_index | reflexivity].
Defined.

(** The multiqubit gates of [bell + tail]. *)
Lemma n_multiqubit_gates_add_witness :
  Circuit.gates bell = Some bell_gates
  ∧ Circuit.qubits bell = Some bell_qubits
  ∧ Circuit.gates tail = Some tail_gates
  ∧ Circuit.qubits tail = Some tail_qubits
  ∧ ∃ c na nb,
      Circuit.__add__ bell tail = Ok c
      ∧ CircuitProperties.n_multiqubit_gates bell = Ok na
      ∧ CircuitProperties.n_multiqubit_gates tail = Ok nb
      ∧ CircuitProperties.n_multiqubit_gates c = Ok (na + nb)%nat
      ∧ (na + nb ≤ length bell_gates + length tail_gates)%nat.
Proof.
  do 4 (split; [reflexivity|]).
  apply (CircuitPropertiesFacts.n_multiqubit_gates_add bell tail
           bell_gates bell_qubits tail_gates tail_qubits); reflexivity.
Defined.

(** The parameters of [tail]. *)
Lemma symbolic_params_lists_each_symbol_once_witness :
  Circuit.gates tail = Some tail_gates
  ∧ ∃ ps, CircuitProperties.symbolic_params tail = Ok ps
          ∧ NoDup ps
          ∧ ∀ s, s ∈ ps ↔ ∃ g, g ∈ tail_gates ∧ s ∈ Gate_symbolic_params g.
Proof.
  split; [reflexivity|].
  apply (CircuitPropertiesFacts.symbolic_params_lists_each_symbol_once tail
           tail_gates).
  reflexivity.
Defined.

(** The parameters of [tail + bell]. *)
Lemma symbolic_params_add_witness :
  Circuit.gates tail = Some tail_gates
  ∧ Circuit.qubits tail = Some tail_qubits
  ∧ Circuit.gates bell = Some bell_gates
  ∧ Circuit.qubits bell = Some bell_qubits
  ∧ ∃ c pa pb,
      Circuit.__add__ tail bell = Ok c
      ∧ CircuitProperties.symbolic_params tail = Ok pa
      ∧ CircuitProperties.symbolic_params bell = Ok pb
      ∧ CircuitProperties.symbolic_params c
        = Ok (pa ++ filter (fun s => s ∉ pa) pb).
Proof.
  do 4 (split; [reflexivity|]).
  apply (CircuitPropertiesFacts.symbolic_params_add tail bell
           tail_gates tail_qubits bell_gates bell_qubits); reflexivity.
Defined.

Lemma foo_gate_falls_through :
  ToPyquil.falls_through Pyquil.spec_COMMON_GATES Pyquil.spec_UNIQUE_GATES
    foo_gate.
Proof.
  split; [|left]; intros H; apply (bool_decide_pack _) in H;
    vm_compute in H; exact H.
Defined.

(** A circuit with the gate [FOO] between two [H] gates. *)
Lemma to_pyquil_no_program_after_unknown_gate_witness :
  Exists (ToPyquil.falls_through Pyquil.spec_COMMON_GATES
            Pyquil.spec_UNIQUE_GATES) [gate_H; foo_gate; gate_H]
  ∧ ∀ p, Pyquil.to_pyquil Pyquil.spec_COMMON_GATES Pyquil.spec_UNIQUE_GATES
           Gate_to_pyquil (Some [gate_H; foo_gate; gate_H])
         ≠ Ok (Some p).
Proof.
  assert (Exists (ToPyquil.falls_through Pyquil.spec_COMMON_GATES
                    Pyquil.spec_UNIQUE_GATES) [gate_H; foo_gate; gate_H])
    as Hex by (apply Exists_cons_tl, Exists_cons_hd, foo_gate_falls_through).
  split; [exact Hex|].
  apply (ToPyquilFacts.to_pyquil_no_program_after_unknown_gate
           Pyquil.spec_COMMON_GATES Pyquil.spec_UNIQUE_GATES Gate_to_pyquil
           [gate_H; foo_gate; gate_H] Hex).
Defined.

Lemma Gate_to_pyquil_defines_nothing n g :
  n ∉ ToPyquil.defined_names (Gate_to_pyquil g).
Proof. apply not_elem_of_nil. Defined.

(** A circuit with a [U2ex] gate after an [XX] gate. *)
Lemma to_pyquil_raises_on_U2ex_witness :
  ("U2ex" ∉ Pyquil.spec_COMMON_GATES)
  ∧ (∀ g, "U2ex" ∉ ToPyquil.defined_names (Gate_to_pyquil g))
  ∧ "U2ex" ∈ Pyquil.spec_UNIQUE_GATES
  ∧ Exists (fun g => Gate.name g = "U2ex") [xx_gate; u2ex_gate]
  ∧ ∃ e, Pyquil.to_pyquil Pyquil.spec_COMMON_GATES Pyquil.spec_UNIQUE_GATES
           Gate_to_pyquil (Some [xx_gate; u2ex_gate]) = Raise e.
Proof.
  assert ("U2ex" ∉ Pyquil.spec_COMMON_GATES) as H1.
  { intros H. apply (bool_decide_pack _) in H. vm_compute in H. exact H. }
  assert ("U2ex" ∈ Pyquil.spec_UNIQUE_GATES) as H2
    by (apply (bool_decide_unpack _); vm_compute; exact I).
  assert (Exists (fun g => Gate.name g = "U2ex") [xx_gate; u2ex_gate]) as H3
    by (apply Exists_cons_tl, Exists_cons_hd; reflexivity).
  split; [exact H1|].
  split; [apply Gate_to_pyquil_defines_nothing|].
  split; [exact H2|]. split; [exact H3|].
  apply (ToPyquilFacts.to_pyquil_raises_on_U2ex
           Pyquil.spec_COMMON_GATES Pyquil.spec_UNIQUE_GATES Gate_to_pyquil
           H1 (Gate_to_pyquil_defines_nothing "U2ex") H2
           [xx_gate; u2ex_gate] H3).
Defined.

(** Two [U1ex] gates around an [H] gate. *)
Lemma to_pyquil_defines_U1ex_at_most_once_witness :
  (∀ g, "U1ex" ∉ ToPyquil.defined_names (Gate_to_pyquil g))
  ∧ ∃ p, Pyquil.to_pyquil Pyquil.spec_COMMON_GATES Pyquil.spec_UNIQUE_GATES
           Gate_to_pyquil (Some [u1ex_gate; gate_H; u1ex_gate])
         = Ok (Some p)
         ∧ (Pyquil.count_defs "U1ex" p ≤ 1)%nat.
Proof.
  split; [apply Gate_to_pyquil_defines_nothing|].
  eexists. split; [vm_compute; reflexivity|].
  apply (ToPyquilFacts.to_pyquil_defines_U1ex_at_most_once
           Pyquil.spec_COMMON_GATES Pyquil.spec_UNIQUE_GATES Gate_to_pyquil
           (Gate_to_pyquil_defines_nothing "U1ex")
           [u1ex_gate; gate_H; u1ex_gate]).
  vm_compute. reflexivity.
Defined.

Lemma rotations_not_common n :
  n ∈ ["XX"; "YY"; "ZZ"] → n ∉ Pyquil.spec_COMMON_GATES.
Proof.
  intros Hn H. rewrite !elem_of_cons, elem_of_nil in Hn.
  destruct Hn as [->|[->|[->|[]]]];
    apply (bool_decide_pack _) in H; vm_compute in H; exact H.
Defined.

Lemma rotations_unique n :
  n ∈ ["XX"; "YY"; "ZZ"] → n ∈ Pyquil.spec_UNIQUE_GATES.
Proof.
  intros Hn. rewrite !elem_of_cons, elem_of_nil in Hn.
  destruct Hn as [->|[->|[->|[]]]];
    apply (bool_decide_unpack _); vm_compute; exact I.
Defined.

Lemma rotations_well_formed :
  Forall ToPyquil.two_qubit_rotation [xx_gate; yy_gate; xx_gate].
Proof.
  repeat constructor; try discriminate; simpl; try lia;
    apply (bool_decide_unpack _); vm_compute; exact I.
Defined.

(** [XX], [YY] and [XX] again. *)
Lemma to_pyquil_defines_each_rotation_witness :
  (∀ n, n ∈ ["XX"; "YY"; "ZZ"] → n ∉ Pyquil.spec_COMMON_GATES)
  ∧ (∀ n, n ∈ ["XX"; "YY"; "ZZ"] → n ∈ Pyquil.spec_UNIQUE_GATES)
  ∧ Forall ToPyquil.two_qubit_rotation [xx_gate; yy_gate; xx_gate]
  ∧ ∃ p, Pyquil.to_pyquil Pyquil.spec_COMMON_GATES Pyquil.spec_UNIQUE_GATES
           Gate_to_pyquil (Some [xx_gate; yy_gate; xx_gate])
         = Ok (Some p)
         ∧ ToPyquil.defined_names p
           = map Gate.name [xx_gate; yy_gate; xx_gate]
         ∧ Forall2 (fun g i => ToPyquil.applied g = Some i)
                   [xx_gate; yy_gate; xx_gate] (Pyquil.instructions p).
Proof.
  split; [exact rotations_not_common|].
  split; [exact rotations_unique|].
  split; [exact rotations_well_formed|].
  apply (ToPyquilFacts.to_pyquil_defines_each_rotation
           Pyquil.spec_COMMON_GATES Pyquil.spec_UNIQUE_GATES Gate_to_pyquil
           rotations_not_common rotations_unique
           [xx_gate; yy_gate; xx_gate] rotations_well_formed).
Defined.

(** [XX] without its parameter, added to a new program. *)
Lemma add_gate_without_parameter_raises_witness :
  Gate.name xx_without_parameter
    ∈ ["ZXZ"; "RH"; "XX"; "YY"; "ZZ"; "U1ex"; "U2ex"]
  ∧ (Gate.name xx_without_parameter ∉ Pyquil.spec_COMMON_GATES)
  ∧ Gate.name xx_without_parameter ∈ Pyquil.spec_UNIQUE_GATES
  ∧ Gate.params xx_without_parameter = []
  ∧ Pyquil.add_gate_to_pyquil_program Pyquil.spec_COMMON_GATES
      Pyquil.spec_UNIQUE_GATES Gate_to_pyquil (Some Pyquil.Program_new)
      xx_without_parameter
    = Raise (IndexError "list index out of range").
Proof.
  assert (Gate.name xx_without_parameter
            ∈ ["ZXZ"; "RH"; "XX"; "YY"; "ZZ"; "U1ex"; "U2ex"]) as H1
    by (apply (bool_decide_unpack _); vm_compute; exact I).
  assert (Gate.name xx_without_parameter ∉ Pyquil.spec_COMMON_GATES) as H2.
  { intros H. apply (bool_decide_pack _) in H. vm_compute in H. exact H. }
  assert (Gate.name xx_without_parameter ∈ Pyquil.spec_UNIQUE_GATES) as H3
    by (apply (bool_decide_unpack _); vm_compute; exact I).
  split; [exact H1|]. split; [exact H2|]. split; [exact H3|].
  split; [reflexivity|].
  apply (ToPyquilFacts.add_gate_without_parameter_raises
           Pyquil.spec_COMMON_GATES Pyquil.spec_UNIQUE_GATES Gate_to_pyquil
           Pyquil.Program_new xx_without_parameter H1 H2 H3).
  reflexivity.
Defined.

(** A circuit with a grid qubit in its second moment. *)
Lemma from_cirq_raises_on_grid_qubit_witness :
  Exists (Exists FromCirq.on_grid_qubit) mixed_circuit
  ∧ ∃ e, FromCirq.from_cirq Qubit_from_cirq Gate_from_cirq mixed_circuit
         = Raise e.
Proof.
  assert (Exists (Exists FromCirq.on_grid_qubit) mixed_circuit) as Hex.
  { apply Exists_cons_tl, Exists_cons_hd, Exists_cons_hd.
    apply Exists_cons_tl, Exists_cons_hd. reflexivity. }
  split; [exact Hex|].
  apply (FromCirqFacts.from_cirq_raises_on_grid_qubit
           Qubit_from_cirq Gate_from_cirq mixed_circuit Hex).
Defined.


Lemma Qubit_from_cirq_key x index :
  Qubit.info (Qubit_from_cirq (Cirq.LineQubit x) index) !! "QubitKey"
  = Some (VInt x).
Proof.
  unfold Qubit_from_cirq. simpl.
  rewrite lookup_insert_ne by done. rewrite lookup_insert_ne by done.
  apply lookup_singleton_eq.
Defined.

(** The circuit on the line qubits 0 and 1. *)
Lemma from_cirq_deduplicates_line_qubits_witness :
  (∀ x index,
     Qubit.info (Qubit_from_cirq (Cirq.LineQubit x) index) !! "QubitKey"
     = Some (VInt x))
  ∧ (∀ op _gatequbits,
       Importers.qubits (Gate_from_cirq op _gatequbits) = _gatequbits)
  ∧ FromCirq.on_line_qubits line_circuit
  ∧ ∃ r, FromCirq.from_cirq Qubit_from_cirq Gate_from_cirq line_circuit
         = Ok r
         ∧ ∀ x, Cirq.LineQubit x ∈ FromCirq.cirq_operands line_circuit →
             ∃ q, FromCirq.with_key r x = [q]
                  ∧ ∀ n op j,
                      FromCirq.cirq_operations line_circuit !! n = Some op →
                      Cirq.qubits op !! j = Some (Cirq.LineQubit x) →
                      Importers.operand r n j = Some q.
Proof.
  assert (FromCirq.on_line_qubits line_circuit) as Hline
    by (repeat constructor).
  split; [exact Qubit_from_cirq_key|].
  split; [reflexivity|]. split; [exact Hline|].
  apply (FromCirqFacts.from_cirq_deduplicates_line_qubits
           Qubit_from_cirq Gate_from_cirq Qubit_from_cirq_key
           (fun _ _ => eq_refl) line_circuit Hline).
Defined.

(** The program of [bell]: three gate instructions on the qubits 0
    and 1. *)
Lemma from_pyquil_program_deduplicates_witness :
  Py.mapM AncillaRegister.as_gate (Pyquil.instructions bell_pyquil)
  = Py.Ok bell_program
  ∧ ∃ r, AncillaRegister.from_pyquil_program (Some bell_pyquil) = Py.Ok r
         ∧ ∀ i, (∃ g, g ∈ bell_program ∧ i ∈ Importers.pq_qubits g) →
             ∃ q, Importers.with_index r i = [q]
                  ∧ Importers.index_of r q = Some i
                  ∧ ∀ n g j, bell_program !! n = Some g →
                             Importers.pq_qubits g !! j = Some i →
                             Importers.operand r n j = Some q.
Proof.
  split; [reflexivity|].
  apply (proj1 (AncillaRegisterFacts.from_pyquil_program_deduplicates
                  bell_pyquil)
           bell_program eq_refl).
Defined.

Lemma from_pyquil_program_lists_qubits_in_order_witness :
  Py.mapM AncillaRegister.as_gate (Pyquil.instructions bell_pyquil)
  = Py.Ok bell_program
  ∧ ∃ r, AncillaRegister.from_pyquil_program (Some bell_pyquil) = Py.Ok r
         ∧ map Qubit.index (Importers.arena r)
           = AncillaRegister.first_occurrences
               (AncillaRegister.pyquil_operands bell_program)
         ∧ Importers.qubit_list r = seq 0 (length (Importers.arena r))
         ∧ length (Importers.gates r)
           = length (Pyquil.instructions bell_pyquil).
Proof.
  split; [reflexivity|].
  apply (AncillaRegisterFacts.from_pyquil_program_lists_qubits_in_order
           bell_pyquil bell_program eq_refl).
Defined.

(** Two ancilla qubits for [bell]. *)
Lemma add_ancilla_register_qubits_witness :
  Circuit.qubits bell = Some bell_qubits
  ∧ Pyquil.to_pyquil Pyquil.spec_COMMON_GATES Pyquil.spec_UNIQUE_GATES
      Gate_to_pyquil (Circuit.gates bell)
    = Ok (Some (Pyquil.mkProgram []
                  (map (fun g => Pyquil.GateInstr (Importers.pq_name g)
                                   (Importers.pq_params g)
                                   (Importers.pq_qubits g))
                       bell_program)))
  ∧ ∃ r, AncillaRegister.add_ancilla_register_to_circuit
           Pyquil.spec_COMMON_GATES Pyquil.spec_UNIQUE_GATES Gate_to_pyquil
           bell 2 = Ok r
         ∧ Importers.label r = "pyquil"
         ∧ map Qubit.index (Importers.arena r)
           = AncillaRegister.first_occurrences
               (AncillaRegister.pyquil_operands bell_program
                  ++ seq (length bell_qubits) 2)
         ∧ Importers.qubit_list r = seq 0 (length (Importers.arena r))
         ∧ length (Importers.gates r) = (length bell_program + 2)%nat.
Proof.
  split; [reflexivity|]. split; [vm_compute; reflexivity|].
  apply (AncillaRegisterFacts.add_ancilla_register_qubits
           Pyquil.spec_COMMON_GATES Pyquil.spec_UNIQUE_GATES Gate_to_pyquil
           bell 2 bell_qubits
           (Pyquil.mkProgram []
              (map (fun g => Pyquil.GateInstr (Importers.pq_name g)
                               (Importers.pq_params g)
                               (Importers.pq_qubits g))
                   bell_program))
           bell_program).
  - reflexivity.
  - vm_compute. reflexivity.
  - reflexivity.
Defined.

(** Two ancilla qubits for [idle], which has three qubits and no gate:
    the result has the qubits 3 and 4 only. *)
Lemma add_ancilla_register_without_gates_witness :
  Circuit.qubits idle = Some [qubit0; qubit1; qubit2]
  ∧ (Circuit.gates idle = None ∨ Circuit.gates idle = Some [])
  ∧ ∃ r, AncillaRegister.add_ancilla_register_to_circuit
           Pyquil.spec_COMMON_GATES Pyquil.spec_UNIQUE_GATES Gate_to_pyquil
           idle 2 = Ok r
         ∧ map Qubit.index (Importers.arena r) = seq 3 2
         ∧ length (Importers.gates r) = 2%nat.
Proof.
  split; [reflexivity|]. split; [right; reflexivity|].
  apply (AncillaRegisterFacts.add_ancilla_register_without_gates
           Pyquil.spec_COMMON_GATES Pyquil.spec_UNIQUE_GATES Gate_to_pyquil
           idle 2 [qubit0; qubit1; qubit2]).
  - reflexivity.
  - right. reflexivity.
Defined.

Lemma Gate_to_qiskit_three g qreg creg :
  (length (Gate_to_qiskit g qreg creg) mod 3 = 0)%nat.
Proof. reflexivity. Defined.

(** [bell] as a qiskit circuit. *)
Lemma to_qiskit_appends_every_entry_witness :
  Circuit.qubits bell = Some bell_qubits
  ∧ bell_qubits ≠ []
  ∧ Circuit.gates bell = Some bell_gates
  ∧ (∀ g qreg creg, g ∈ bell_gates →
       (length (Gate_to_qiskit g qreg creg) mod 3 = 0)%nat)
  ∧ ∃ r n, ToQiskit.to_qiskit string Gate_to_qiskit bell = Ok r
      ∧ ToQiskit.qregs r = [ToQiskit.mkRegister n "q"]
      ∧ ToQiskit.cregs r = [ToQiskit.mkRegister n "c"]
      ∧ (∀ q, q ∈ bell_qubits → (Qubit.index q < n)%nat)
      ∧ (∃ q, q ∈ bell_qubits ∧ n = S (Qubit.index q))
      ∧ ToQiskit.entries (ToQiskit.data r)
        = concat (map (fun g => Gate_to_qiskit g
                                  (Some (ToQiskit.mkRegister n "q"))
                                  (Some (ToQiskit.mkRegister n "c")))
                      bell_gates).
Proof.
  assert (bell_qubits ≠ []) as Hne by discriminate.
  split; [reflexivity|]. split; [exact Hne|]. split; [reflexivity|].
  split; [intros g qreg creg _; apply Gate_to_qiskit_three|].
  apply (ToQiskitFacts.to_qiskit_appends_every_entry string Gate_to_qiskit
           bell bell_qubits bell_gates eq_refl Hne eq_refl
           (fun g qreg creg _ => Gate_to_qiskit_three g qreg creg)).
Defined.

(** [bell] when [CNOT] returns two entries. *)
Lemma to_qiskit_raises_on_incomplete_entries_witness :
  Circuit.gates bell = Some ([gate_H] ++ gate_CNOT :: [gate_RX])
  ∧ (∀ g' qreg creg, g' ∈ [gate_H] →
       (length (Gate_to_qiskit_short g' qreg creg) mod 3 = 0)%nat)
  ∧ (∀ qreg creg,
       (length (Gate_to_qiskit_short gate_CNOT qreg creg) mod 3 ≠ 0)%nat)
  ∧ ∃ msg, ToQiskit.to_qiskit string Gate_to_qiskit_short bell
           = Raise (ValueError msg).
Proof.
  assert (∀ g' qreg creg, g' ∈ [gate_H] →
            (length (Gate_to_qiskit_short g' qreg creg) mod 3 = 0)%nat) as H1.
  { intros g' qreg creg Hg. apply list_elem_of_singleton in Hg as ->.
    reflexivity. }
  assert (∀ qreg creg : option ToQiskit.Register,
            (length (Gate_to_qiskit_short gate_CNOT qreg creg) mod 3 ≠ 0)%nat)
    as H2 by (intros qreg creg; discriminate).
  split; [reflexivity|]. split; [exact H1|]. split; [exact H2|].
  apply (ToQiskitFacts.to_qiskit_raises_on_incomplete_entries string
           Gate_to_qiskit_short bell [gate_H] gate_CNOT [gate_RX]
           eq_refl H1 H2).
Defined.

(** The qpic text of [tail]. *)
Lemma to_qpic_wires_in_ascending_order_witness :
  Circuit.qubits tail = Some tail_qubits
  ∧ Circuit.gates tail = Some tail_gates
  ∧ ∃ indices,
      Sorted le indices
      ∧ indices ≡ₚ map Qubit.index tail_qubits
      ∧ ToQpic.to_qpic Gate_to_qpic tail
        = Ok (ToQpic.lines
                (map ToQpic.wire indices
                   ++ map (fun g => Gate_to_qpic g +:+ ToQpic.newline)
                          tail_gates)).
Proof.
  split; [reflexivity|]. split; [reflexivity|].
  apply (ToQpicFacts.to_qpic_wires_in_ascending_order Gate_to_qpic tail
           tail_qubits tail_gates eq_refl eq_refl).
Defined.

Lemma three_line_qubits_NoDup : NoDup three_line_qubits.
Proof.
  unfold three_line_qubits. repeat constructor;
    rewrite ?elem_of_cons, ?elem_of_nil; intros H;
    repeat destruct H as [H|H]; discriminate || done.
Defined.

(** The line qubits 2, 0 and 1. *)
Lemma build_qubit_map_numbers_in_key_order_witness :
  head three_line_qubits = Some (Cirq.LineQubit 2)
  ∧ NoDup three_line_qubits
  ∧ Forall (Cirq2Pyquil.same_kind (Cirq.LineQubit 2)) three_line_qubits
  ∧ ∃ m, Cirq2Pyquil.build_qubit_map three_line_qubits
         = Cirq2Pyquil.Returns m
    ∧ (∀ q, q ∈ three_line_qubits →
         ∃ i, m !! Cirq2Pyquil.key_of q = Some i
              ∧ (i < length three_line_qubits)%nat)
    ∧ (∀ q1 q2 i1 i2, q1 ∈ three_line_qubits → q2 ∈ three_line_qubits →
         m !! Cirq2Pyquil.key_of q1 = Some i1 →
         m !! Cirq2Pyquil.key_of q2 = Some i2 →
         ((i1 < i2)%nat
          ↔ Cirq2Pyquil.key_le (Cirq2Pyquil.key_of q1) (Cirq2Pyquil.key_of q2)
            ∧ q1 ≠ q2))
    ∧ (∀ k, is_Some (m !! k) →
         ∃ q, q ∈ three_line_qubits ∧ k = Cirq2Pyquil.key_of q).
Proof.
  assert (Forall (Cirq2Pyquil.same_kind (Cirq.LineQubit 2)) three_line_qubits)
    as Hkind by (repeat constructor).
  split; [reflexivity|]. split; [exact three_line_qubits_NoDup|].
  split; [exact Hkind|].
  apply (Cirq2PyquilFacts.build_qubit_map_numbers_in_key_order
           three_line_qubits (Cirq.LineQubit 2) eq_refl
           three_line_qubits_NoDup Hkind).
Defined.

(** A line qubit and a grid qubit. *)
Lemma build_qubit_map_raises_on_mixed_kinds_witness :
  head line_and_grid = Some (Cirq.LineQubit 0)
  ∧ Exists (fun q => ¬ Cirq2Pyquil.same_kind (Cirq.LineQubit 0) q)
           line_and_grid
  ∧ ∃ msg, Cirq2Pyquil.build_qubit_map line_and_grid
           = Cirq2Pyquil.Raises (AttributeError msg).
Proof.
  assert (Exists (fun q => ¬ Cirq2Pyquil.same_kind (Cirq.LineQubit 0) q)
                 line_and_grid) as Hex.
  { apply Exists_cons_tl, Exists_cons_hd. discriminate. }
  split; [reflexivity|]. split; [exact Hex|].
  apply (Cirq2PyquilFacts.build_qubit_map_raises_on_mixed_kinds
           line_and_grid (Cirq.LineQubit 0) eq_refl Hex).
Defined.

Lemma cnot_0_2_qubits i :
  i ∈ Importers.pq_qubits cnot_0_2 → i ∈ [2%nat; 1%nat; 0%nat].
Proof.
  simpl. rewrite !elem_of_cons, !elem_of_nil. intros [->|[->|[]]]; auto.
Defined.

(** [CNOT] on the qubits 0 and 2, when [get_qubits] lists 2, 1, 0. *)
Lemma target_qubits_are_grid_qubits_witness :
  (∀ i, i ∈ Importers.pq_qubits cnot_0_2 → i ∈ [2%nat; 1%nat; 0%nat])
  ∧ ∃ m, Pyquil2Cirq.build_qubit_map
           (Pyquil2Cirq.grid_qubits [2%nat; 1%nat; 0%nat]) = Ok m
    ∧ Pyquil2Cirq.target_qubits
        (Pyquil2Cirq.grid_qubits [2%nat; 1%nat; 0%nat]) m cnot_0_2
      = Ok (map (fun i => Cirq.GridQubit (Z.of_nat i) 0)
                (Importers.pq_qubits cnot_0_2)).
Proof.
  split; [exact cnot_0_2_qubits|].
  apply (Pyquil2CirqFacts.target_qubits_are_grid_qubits
           [2%nat; 1%nat; 0%nat] cnot_0_2 cnot_0_2_qubits).
Defined.

(** A program with the gate [FOO]. *)
Lemma pyquil2cirq_raises_on_unsupported_gate_witness :
  Exists Pyquil2Cirq.unsupported unsupported_program
  ∧ ∃ e, Pyquil2Cirq.pyquil2cirq _ make_op [0%nat] unsupported_program
         = Raise e.
Proof.
  assert (Exists Pyquil2Cirq.unsupported unsupported_program) as Hex.
  { apply Exists_cons_tl, Exists_cons_hd. left. intros H.
    apply (bool_decide_pack _) in H. vm_compute in H. exact H. }
  split; [exact Hex|].
  apply (Pyquil2CirqFacts.pyquil2cirq_raises_on_unsupported_gate
           _ make_op [0%nat] unsupported_program Hex).
Defined.

End Witnesses.
